(** * Pkmn Red Save Genie: the save-structure core, embedded and verified

    A shallow embedding of [SaveStructure.cpp] (the bounded buffer, the
    layout helpers, the text and BCD codecs, the checksum routines) and of
    the Hall of Fame scanner of [ReadOnlyData.cpp].

    Conventions of the embedding:
    - [u8] values are [byte]s; [u16], [u32], [int] and [std::size_t] values
      are [Z]s, with the truncation of each cast written out;
    - a [const] member function is a function of the buffer returning a
      [result]; a mutating one is a computation in [M], which threads the
      buffer through and keeps it when an exception is thrown;
    - a C++ exception is a value of [exception]: its class and its message. *)

From Stdlib Require Import ZArith Lia Bool.
From Stdlib Require Import Strings.Byte Strings.Ascii Strings.String.
From stdpp Require Import base list.

Local Open Scope string_scope.
Local Open Scope Z_scope.

(* ===================================================================== *)
(** ** Exceptions and results *)
(* ===================================================================== *)

Inductive exception : Type :=
| out_of_range (what : string)
| invalid_argument (what : string)
| runtime_error (what : string)
| length_error (what : string).

Inductive result (A : Type) : Type :=
| Ok (a : A)
| Throw (e : exception).

Arguments Ok {A} a.
Arguments Throw {A} e.

Definition bind {A B : Type} (r : result A) (k : A -> result B) : result B :=
  match r with
  | Ok a => k a
  | Throw e => Throw e
  end.

Notation "'do' x <- e ; k" := (bind e (fun x => k))
  (at level 10, x name, e at level 100, k at level 200, only parsing).
Notation "'check' e ; k" := (bind e (fun _ => k))
  (at level 10, e at level 100, k at level 200, only parsing).

(** [is_out_of_range r]: the call threw [std::out_of_range]. *)
Definition is_out_of_range {A : Type} (r : result A) : Prop :=
  exists what, r = Throw (out_of_range what).

(* ===================================================================== *)
(** ** Machine integers *)
(* ===================================================================== *)

Abbreviation u8 := byte (only parsing).

Definition u8_to_Z (b : u8) : Z := Z.of_N (Byte.to_N b).

(** [static_cast<u8>]: keep the low eight bits. *)
Definition to_u8 (z : Z) : u8 :=
  match Byte.of_N (Z.to_N (z mod 256)) with
  | Some b => b
  | None => x00
  end.

(** [static_cast<u16>] and [static_cast<u32>]. *)
Definition to_u16 (z : Z) : Z := z mod 2 ^ 16.
Definition to_u32 (z : Z) : Z := z mod 2 ^ 32.

(** [std::size_t] is 64 bits wide; sums of offsets wrap. *)
Definition SIZE_WIDTH : Z := 64.
Definition to_size_t (z : Z) : Z := z mod 2 ^ SIZE_WIDTH.
Definition size_add (a b : Z) : Z := to_size_t (a + b).
Definition is_size_t (z : Z) : Prop := 0 <= z < 2 ^ SIZE_WIDTH.

(* ===================================================================== *)
(** ** SaveBuffer *)
(* ===================================================================== *)

Abbreviation Bytes := (list byte) (only parsing).

Record SaveBuffer : Type := mkSaveBuffer { bytes_ : Bytes }.

(** Computations that may write to the buffer.  The buffer that comes back
    is the one the caller holds afterwards, also after a throw. *)
Definition M (A : Type) : Type := SaveBuffer -> result A * SaveBuffer.

Definition ret {A : Type} (a : A) : M A := fun sb => (Ok a, sb).
Definition throw {A : Type} (e : exception) : M A := fun sb => (Throw e, sb).
Definition bindM {A B : Type} (m : M A) (k : A -> M B) : M B :=
  fun sb =>
    match m sb with
    | (Ok a, sb') => k a sb'
    | (Throw e, sb') => (Throw e, sb')
    end.
(** Run a [const] member function on the current buffer. *)
Definition reading {A : Type} (f : SaveBuffer -> result A) : M A :=
  fun sb => (f sb, sb).

Notation "'run' x <- m ; k" := (bindM m (fun x => k))
  (at level 10, x name, m at level 100, k at level 200, only parsing).
Notation "'exec' m ; k" := (bindM m (fun _ => k))
  (at level 10, m at level 100, k at level 200, only parsing).

Definition Size (sb : SaveBuffer) : Z := Z.of_nat (length (bytes_ sb)).

(** [bytes_[off]], reached only behind a successful [RequireRange]. *)
Definition at_ (bs : Bytes) (off : Z) : u8 :=
  match bs !! Z.to_nat off with
  | Some b => b
  | None => x00
  end.

(** [bytes_[off] = v]. *)
Definition store (off : Z) (v : u8) (sb : SaveBuffer) : SaveBuffer :=
  mkSaveBuffer (<[Z.to_nat off := v]> (bytes_ sb)).

Definition RequireRange (sb : SaveBuffer) (off len : Z) : result unit :=
  if len =? 0 then Ok tt
  else if off >? Size sb
  then Throw (out_of_range "SaveBuffer: offset out of range")
  else
    let end_ := size_add off len in
    if (end_ <? off) || (end_ >? Size sb)
    then Throw (out_of_range "SaveBuffer: range out of range")
    else Ok tt.

Definition ReadU8 (sb : SaveBuffer) (off : Z) : result u8 :=
  check RequireRange sb off 1;
  Ok (at_ (bytes_ sb) off).

Definition ReadU16LE (sb : SaveBuffer) (off : Z) : result Z :=
  check RequireRange sb off 2;
  Ok (Z.lor (to_u16 (u8_to_Z (at_ (bytes_ sb) off)))
            (to_u16 (Z.shiftl (to_u16 (u8_to_Z (at_ (bytes_ sb) (off + 1)))) 8))).

Definition ReadU24BE (sb : SaveBuffer) (off : Z) : result Z :=
  check RequireRange sb off 3;
  Ok (Z.lor (Z.lor (to_u32 (Z.shiftl (u8_to_Z (at_ (bytes_ sb) off)) 16))
                   (to_u32 (Z.shiftl (u8_to_Z (at_ (bytes_ sb) (off + 1))) 8)))
            (u8_to_Z (at_ (bytes_ sb) (off + 2)))).

Definition WriteU8 (off : Z) (v : u8) : M unit :=
  exec reading (fun sb => RequireRange sb off 1);
  fun sb => (Ok tt, store off v sb).

Definition WriteU16LE (off : Z) (v : Z) : M unit :=
  exec reading (fun sb => RequireRange sb off 2);
  fun sb =>
    (Ok tt,
     store (off + 1) (to_u8 (Z.land (Z.shiftr v 8) 255))
       (store off (to_u8 (Z.land v 255)) sb)).

Definition WriteU24BE (off : Z) (v : Z) : M unit :=
  exec reading (fun sb => RequireRange sb off 3);
  fun sb =>
    (Ok tt,
     store (off + 2) (to_u8 (Z.land v 255))
       (store (off + 1) (to_u8 (Z.land (Z.shiftr v 8) 255))
          (store off (to_u8 (Z.land (Z.shiftr v 16) 255)) sb))).

(** The bit index is a [u8]; the mask is [static_cast<u8>(1u << bit)]. *)
Definition bit_mask (bitIndex0to7 : u8) : Z :=
  u8_to_Z (to_u8 (Z.shiftl 1 (u8_to_Z bitIndex0to7))).

Definition GetBit (sb : SaveBuffer) (byteOff : Z) (bitIndex0to7 : u8)
  : result bool :=
  if u8_to_Z bitIndex0to7 >=? 8
  then Throw (out_of_range "SaveBuffer: bitIndex must be 0..7")
  else
    check RequireRange sb byteOff 1;
    let mask := bit_mask bitIndex0to7 in
    Ok (negb (Z.land (u8_to_Z (at_ (bytes_ sb) byteOff)) mask =? 0)).

Definition SetBit (byteOff : Z) (bitIndex0to7 : u8) (value : bool) : M unit :=
  if u8_to_Z bitIndex0to7 >=? 8
  then throw (out_of_range "SaveBuffer: bitIndex must be 0..7")
  else
    exec reading (fun sb => RequireRange sb byteOff 1);
    fun sb =>
      let mask := bit_mask bitIndex0to7 in
      let old := u8_to_Z (at_ (bytes_ sb) byteOff) in
      if value
      then (Ok tt, store byteOff (to_u8 (Z.lor old mask)) sb)
      else (Ok tt,
            store byteOff
              (to_u8 (Z.land old (u8_to_Z (to_u8 (Z.lnot mask))))) sb).

(** [Bytes(begin + off, begin + off + len)]: the [len] bytes from [off];
    with [len = 0] the iterator range is empty, whatever [off]. *)
Definition Slice (sb : SaveBuffer) (off len : Z) : result Bytes :=
  check RequireRange sb off len;
  Ok (take (Z.to_nat len) (drop (Z.to_nat off) (bytes_ sb))).

(* ===================================================================== *)
(** ** Gen1Layout *)
(* ===================================================================== *)

Module Gen1Layout.

Definition ExpectedSize : Z := 0x8000.

Definition Bank0Base : Z := 0x0000.
Definition Bank1Base : Z := 0x2000.
Definition Bank2Base : Z := 0x4000.
Definition Bank3Base : Z := 0x6000.
Definition BankSize : Z := 0x2000.

Definition HallOfFameOff : Z := 0x0598.
Definition HallOfFameLen : Z := 0x12C0.

Definition HallOfFameMaxRecords : Z := 50.
Definition HallOfFameRecordSize : Z := 0x0060.
Definition HallOfFameMonsPerRecord : Z := 6.
Definition HallOfFameMonEntrySize : Z := 0x0010.

Definition HallOfFameRecordCountOff : Z := 0x284E.

Definition TrainerNameOff : Z := 0x2598.
Definition TrainerNameLen : Z := 11.
Definition MoneyOff : Z := 0x25F3.
Definition MoneyLen : Z := 3.
Definition RivalNameOff : Z := 0x25F6.
Definition RivalNameLen : Z := 11.
Definition CoinsOff : Z := 0x2850.
Definition CoinsLen : Z := 2.

Definition MainChecksumStart : Z := 0x2598.
Definition MainChecksumEnd : Z := 0x3522.
Definition MainChecksumOff : Z := 0x3523.

Definition BoxBlockSize : Z := 0x0462.

Definition Box1Off : Z := 0x4000.
Definition Bank2AllChecksumOff : Z := 0x5A4C.
Definition Bank2BoxChecksumsOff : Z := 0x5A4D.

Definition Box7Off : Z := 0x6000.
Definition Bank3AllChecksumOff : Z := 0x7A4C.
Definition Bank3BoxChecksumsOff : Z := 0x7A4D.

(** The index is an [int]; the offset arithmetic is in [std::size_t]. *)
Definition BoxBaseOffsetByIndex1to12 (boxIndex1to12 : Z) : result Z :=
  if (boxIndex1to12 <? 1) || (boxIndex1to12 >? 12)
  then Throw (out_of_range "Gen1Layout: box index must be 1..12")
  else if boxIndex1to12 <=? 6
  then Ok (size_add Box1Off
             (to_size_t (to_size_t (boxIndex1to12 - 1) * BoxBlockSize)))
  else Ok (size_add Box7Off
             (to_size_t (to_size_t (boxIndex1to12 - 7) * BoxBlockSize))).

Definition BankAllChecksumOffsetForBoxIndex1to12 (boxIndex1to12 : Z)
  : result Z :=
  if (boxIndex1to12 <? 1) || (boxIndex1to12 >? 12)
  then Throw (out_of_range "Gen1Layout: box index must be 1..12")
  else Ok (if boxIndex1to12 <=? 6
           then Bank2AllChecksumOff else Bank3AllChecksumOff).

Definition BankPerBoxChecksumsBaseOffsetForBoxIndex1to12
  (boxIndex1to12 : Z) : result Z :=
  if (boxIndex1to12 <? 1) || (boxIndex1to12 >? 12)
  then Throw (out_of_range "Gen1Layout: box index must be 1..12")
  else Ok (if boxIndex1to12 <=? 6
           then Bank2BoxChecksumsOff else Bank3BoxChecksumsOff).
(** The remaining constants of the layout table. *)
Definition SpriteBuffer0Off : Z := 0x0000.
Definition SpriteBufferLen : Z := 0x0188.
Definition SpriteBuffer1Off : Z := 0x0188.
Definition SpriteBuffer2Off : Z := 0x0310.
Definition Bank0Unused0Off : Z := 0x0498.
Definition Bank0Unused0Len : Z := 0x0100.
Definition Bank0Unused1Off : Z := 0x1858.
Definition Bank0Unused1Len : Z := 0x07A8.

Definition PokedexOwnedOff : Z := 0x25A3.
Definition PokedexSeenOff : Z := 0x25B6.
Definition PokedexBitsLen : Z := 0x13.
Definition BagItemsOff : Z := 0x25C9.
Definition BagItemsLen : Z := 0x2A.
Definition OptionsOff : Z := 0x2601.
Definition BadgesOff : Z := 0x2602.
Definition LetterDelayOff : Z := 0x2604.
Definition TrainerIdOff : Z := 0x2605.
Definition MusicIdOff : Z := 0x2607.
Definition MusicBankOff : Z := 0x2608.
Definition ContrastOff : Z := 0x2609.
Definition MapIdOff : Z := 0x260A.
Definition YCoordOff : Z := 0x260D.
Definition XCoordOff : Z := 0x260E.
Definition PlayTimeHoursOff : Z := 0x2CED.
Definition PlayTimeMaxedOff : Z := 0x2CEE.
Definition PlayTimeMinutesOff : Z := 0x2CEF.
Definition PlayTimeSecondsOff : Z := 0x2CF0.
Definition PlayTimeFramesOff : Z := 0x2CF1.

Definition Box2Off : Z := 0x4462.
Definition Box3Off : Z := 0x48C4.
Definition Box4Off : Z := 0x4D26.
Definition Box5Off : Z := 0x5188.
Definition Box6Off : Z := 0x55EA.
Definition Box8Off : Z := 0x6462.
Definition Box9Off : Z := 0x68C4.
Definition Box10Off : Z := 0x6D26.
Definition Box11Off : Z := 0x7188.
Definition Box12Off : Z := 0x75EA.


End Gen1Layout.

(* ===================================================================== *)
(** ** Gen1SpeciesLookup *)
(* ===================================================================== *)

Module Gen1SpeciesLookup.

(** The initialised prefix of [SpeciesName[256]]; the entries from 0xBF
    on are value-initialised, that is, empty strings. *)
Definition SpeciesName : list string :=
  [
  "INVALID"; "RHYDON"; "KANGASKHAN"; "NIDORAN_M"; "CLEFAIRY"; "SPEAROW";
  "VOLTORB"; "NIDOKING"; "SLOWBRO"; "IVYSAUR"; "EXEGGUTOR"; "LICKITUNG";
  "EXEGGCUTE"; "GRIMER"; "GENGAR"; "NIDORAN_F"; "NIDOQUEEN"; "CUBONE";
  "RHYHORN"; "LAPRAS"; "ARCANINE"; "MEW"; "GYARADOS"; "SHELLDER";
  "TENTACOOL"; "GASTLY"; "SCYTHER"; "STARYU"; "BLASTOISE"; "PINSIR";
  "TANGELA"; "MISSINGNO"; "MISSINGNO"; "GROWLITHE"; "ONIX"; "FEAROW";
  "PIDGEY"; "SLOWPOKE"; "KADABRA"; "GRAVELER"; "CHANSEY"; "MACHOKE";
  "MR_MIME"; "HITMONLEE"; "HITMONCHAN"; "ARBOK"; "PARASECT"; "PSYDUCK";
  "DROWZEE"; "GOLEM"; "MISSINGNO"; "MAGMAR"; "MISSINGNO"; "ELECTABUZZ";
  "MAGNETON"; "KOFFING"; "MISSINGNO"; "MANKEY"; "SEEL"; "DIGLETT";
  "TAUROS"; "MISSINGNO"; "MISSINGNO"; "MISSINGNO"; "FARFETCHD"; "VENONAT";
  "DRAGONITE"; "MISSINGNO"; "MISSINGNO"; "MISSINGNO"; "DODUO"; "POLIWAG";
  "JYNX"; "MOLTRES"; "ARTICUNO"; "ZAPDOS"; "DITTO"; "MEOWTH"; "KRABBY";
  "MISSINGNO"; "MISSINGNO"; "MISSINGNO"; "VULPIX"; "NINETALES"; "PIKACHU";
  "RAICHU"; "MISSINGNO"; "MISSINGNO"; "DRATINI"; "DRAGONAIR"; "KABUTO";
  "KABUTOPS"; "HORSEA"; "SEADRA"; "MISSINGNO"; "MISSINGNO"; "SANDSHREW";
  "SANDSLASH"; "OMANYTE"; "OMASTAR"; "JIGGLYPUFF"; "WIGGLYTUFF"; "EEVEE";
  "FLAREON"; "JOLTEON"; "VAPOREON"; "MACHOP"; "ZUBAT"; "EKANS"; "PARAS";
  "POLIWHIRL"; "POLIWRATH"; "WEEDLE"; "KAKUNA"; "BEEDRILL"; "MISSINGNO";
  "DODRIO"; "PRIMEAPE"; "DUGTRIO"; "VENOMOTH"; "DEWGONG"; "MISSINGNO";
  "MISSINGNO"; "CATERPIE"; "METAPOD"; "BUTTERFREE"; "MACHAMP";
  "MISSINGNO"; "GOLDUCK"; "HYPNO"; "GOLBAT"; "MEWTWO"; "SNORLAX";
  "MAGIKARP"; "MISSINGNO"; "MISSINGNO"; "MUK"; "MISSINGNO"; "KINGLER";
  "CLOYSTER"; "MISSINGNO"; "ELECTRODE"; "CLEFABLE"; "WEEZING"; "PERSIAN";
  "MAROWAK"; "MISSINGNO"; "HAUNTER"; "ABRA"; "ALAKAZAM"; "PIDGEOTTO";
  "PIDGEOT"; "STARMIE"; "BULBASAUR"; "VENUSAUR"; "TENTACRUEL";
  "MISSINGNO"; "GOLDEEN"; "SEAKING"; "MISSINGNO"; "MISSINGNO";
  "MISSINGNO"; "MISSINGNO"; "PONYTA"; "RAPIDASH"; "RATTATA"; "RATICATE";
  "NIDORINO"; "NIDORINA"; "GEODUDE"; "PORYGON"; "AERODACTYL"; "MISSINGNO";
  "MAGNEMITE"; "MISSINGNO"; "MISSINGNO"; "CHARMANDER"; "SQUIRTLE";
  "CHARMELEON"; "WARTORTLE"; "CHARIZARD"; "MISSINGNO"; "MISSINGNO";
  "MISSINGNO"; "MISSINGNO"; "ODDISH"; "GLOOM"; "VILEPLUME"; "BELLSPROUT";
  "WEEPINBELL"; "VICTREEBEL"
  ].

Definition NameFromId (speciesId : u8) : string :=
  let idx := u8_to_Z speciesId in
  if idx >=? 256 then "INVALID"
  else
    let n := nth (Z.to_nat idx) SpeciesName "" in
    if String.eqb n "" then "INVALID" else n.
(** [PokeDex[256]]: Pokedex number to internal species id; the entries
    from 152 on are all -1. *)
Definition PokeDex : list Z :=
  ([(-1); 153; 9; 154; 176; 178; 180; 177; 179; 28; 123; 124;
   125; 112; 113; 114; 36; 150; 151; 165; 166; 5; 35; 108;
   45; 84; 85; 96; 97; 15; 168; 16; 3; 167; 7; 4;
   142; 82; 83; 100; 101; 107; 130; 185; 186; 187; 109; 46;
   65; 119; 59; 118; 77; 144; 47; 128; 57; 117; 33; 20;
   71; 110; 111; 148; 38; 149; 106; 41; 126; 188; 189; 190;
   24; 155; 169; 39; 49; 163; 164; 37; 8; 173; 54; 64;
   70; 116; 58; 120; 13; 136; 23; 139; 25; 147; 14; 34;
   48; 129; 78; 138; 6; 141; 12; 10; 17; 145; 43; 44;
   11; 55; 143; 18; 1; 40; 30; 2; 92; 93; 157; 158;
   27; 152; 42; 26; 72; 53; 51; 29; 60; 133; 22; 19;
   76; 102; 105; 104; 103; 170; 98; 99; 90; 91; 171; 132;
   74; 75; 73; 88; 89; 66; 131; 21]
  ++ replicate 104 (-1))%list.


End Gen1SpeciesLookup.

(* ===================================================================== *)
(** ** Gen1TextCodec *)
(* ===================================================================== *)

(** A [char] is an [ascii]; its code is read as a number for comparisons
    and arithmetic.  Every comparison below is against a 7-bit constant, so
    the signedness of [char] does not matter. *)
Definition char_code (c : ascii) : Z := Z.of_N (N_of_ascii c).
Definition to_char (z : Z) : ascii := ascii_of_N (Z.to_N (z mod 256)).

Definition NUL : ascii := zero.

Module Gen1TextCodec.

Definition ByteToAscii (byte : u8) : ascii :=
  let b := u8_to_Z byte in
  if (b >=? 0x80) && (b <=? 0x99) then to_char (char_code "A" + (b - 0x80))
  else if (b >=? 0xA0) && (b <=? 0xA9)
  then to_char (char_code "0" + (b - 0xA0))
  else if b =? 0x7F then " "%char
  else if b =? 0x50 then NUL
  else "?"%char.

Definition AsciiToByte (c : ascii) : u8 :=
  let c :=
    if (char_code c >=? char_code "a") && (char_code c <=? char_code "z")
    then to_char (char_code c - char_code "a" + char_code "A")
    else c in
  if (char_code c >=? char_code "A") && (char_code c <=? char_code "Z")
  then to_u8 (0x80 + (char_code c - char_code "A"))
  else if (char_code c >=? char_code "0") && (char_code c <=? char_code "9")
  then to_u8 (0xA0 + (char_code c - char_code "0"))
  else if Ascii.eqb c " " then to_u8 0x7F
  else to_u8 0x7F.

(** The range-for of [DecodeName]: push each character, leave at the
    first terminator. *)
Fixpoint decode_loop (bytes : Bytes) (out : string) : string :=
  match bytes with
  | [] => out
  | b :: rest =>
      let c := ByteToAscii b in
      if Ascii.eqb c NUL then out
      else decode_loop rest (out ++ String c "")
  end.

Definition DecodeName (sb : SaveBuffer) (off len : Z) : result string :=
  do bytes <- Slice sb off len;
  Ok (decode_loop bytes "").

(** [name[i]] for [i < name.size()]. *)
Definition char_at (name : string) (i : nat) : ascii :=
  match String.get i name with
  | Some c => c
  | None => NUL
  end.

(** [for (i = 0; i < n; ++i) out[i] = AsciiToByte(name[i]);] with [fuel]
    iterations left. *)
Fixpoint encode_loop (name : string) (i fuel : nat) (out : Bytes) : Bytes :=
  match fuel with
  | O => out
  | S fuel' =>
      encode_loop name (S i) fuel' (<[i := AsciiToByte (char_at name i)]> out)
  end.

(** [std::copy(out.begin(), out.end(), bytes.begin() + off)]. *)
Fixpoint copy_to (src dst : Bytes) (pos : nat) : Bytes :=
  match src with
  | [] => dst
  | b :: src' => copy_to src' (<[pos := b]> dst) (S pos)
  end.

(** [max_size()] of a [std::vector<u8>]: [PTRDIFF_MAX] where [std::size_t]
    has 64 bits.  No vector is longer, and [bytes_] is one: a list longer
    than that stands for no buffer, and on it the limit is read as the
    length of the list. *)
Definition vector_max_size (sb : SaveBuffer) : Z :=
  Z.max (2 ^ 63 - 1) (Size sb).

(** [std::vector<u8> out(len, 0x50)], which comes before the range check:
    the constructor throws [std::length_error] beyond [max_size()].  Up to
    that length the allocation is taken to succeed; running out of memory
    ([std::bad_alloc]) is not modelled. *)
Definition scratch_vector (sb : SaveBuffer) (len : Z) : result Bytes :=
  if len >? vector_max_size sb
  then Throw (length_error "cannot create std::vector larger than max_size()")
  else Ok (replicate (Z.to_nat len) (to_u8 0x50)).

Definition EncodeName (off len : Z) (name : string) : M unit :=
  if len =? 0 then ret tt
  else
    run out <- reading (fun sb => scratch_vector sb len);
    let n := Z.min (Z.of_nat (String.length name)) (len - 1) in
    let out := encode_loop name 0 (Z.to_nat n) out in
    let out := <[Z.to_nat n := to_u8 0x50]> out in
    exec reading (fun sb => RequireRange sb off len);
    fun sb => (Ok tt, mkSaveBuffer (copy_to out (bytes_ sb) (Z.to_nat off))).

End Gen1TextCodec.

(* ===================================================================== *)
(** ** BcdCodec *)
(* ===================================================================== *)

Module BcdCodec.

Definition bcdDigit (nibble : u8) : Z :=
  if u8_to_Z nibble <=? 9 then to_u32 (u8_to_Z nibble) else 0.

Definition hi_nibble (b : u8) : u8 := to_u8 (Z.land (Z.shiftr (u8_to_Z b) 4) 0xF).
Definition lo_nibble (b : u8) : u8 := to_u8 (Z.land (u8_to_Z b) 0xF).

Definition ReadBcd3 (sb : SaveBuffer) (off : Z) : result Z :=
  do b0 <- ReadU8 sb off;
  do b1 <- ReadU8 sb (size_add off 1);
  do b2 <- ReadU8 sb (size_add off 2);
  let d0 := bcdDigit (hi_nibble b0) in
  let d1 := bcdDigit (lo_nibble b0) in
  let d2 := bcdDigit (hi_nibble b1) in
  let d3 := bcdDigit (lo_nibble b1) in
  let d4 := bcdDigit (hi_nibble b2) in
  let d5 := bcdDigit (lo_nibble b2) in
  Ok (to_u32 (d0 * 100000 + d1 * 10000 + d2 * 1000 + d3 * 100 + d4 * 10 + d5)).

(** [value] is a [u32]. *)
Definition WriteBcd3 (off : Z) (value : Z) : M unit :=
  if value >? 999999
  then throw (out_of_range "WriteBcd3: value must be 0..999999")
  else
    let d0 := (value / 100000) mod 10 in
    let d1 := (value / 10000) mod 10 in
    let d2 := (value / 1000) mod 10 in
    let d3 := (value / 100) mod 10 in
    let d4 := (value / 10) mod 10 in
    let d5 := value mod 10 in
    let b0 := to_u8 (Z.lor (Z.shiftl d0 4) d1) in
    let b1 := to_u8 (Z.lor (Z.shiftl d2 4) d3) in
    let b2 := to_u8 (Z.lor (Z.shiftl d4 4) d5) in
    exec WriteU8 off b0;
    exec WriteU8 (size_add off 1) b1;
    WriteU8 (size_add off 2) b2.

Definition ReadBcd2 (sb : SaveBuffer) (off : Z) : result Z :=
  do b0 <- ReadU8 sb off;
  do b1 <- ReadU8 sb (size_add off 1);
  let d0 := bcdDigit (hi_nibble b0) in
  let d1 := bcdDigit (lo_nibble b0) in
  let d2 := bcdDigit (hi_nibble b1) in
  let d3 := bcdDigit (lo_nibble b1) in
  let val := to_u32 (d0 * 1000 + d1 * 100 + d2 * 10 + d3) in
  Ok (to_u16 val).

(** [value] is a [u16]. *)
Definition WriteBcd2 (off : Z) (value : Z) : M unit :=
  if value >? 9999
  then throw (out_of_range "WriteBcd2: value must be 0..9999")
  else
    let v := to_u32 value in
    let d0 := (v / 1000) mod 10 in
    let d1 := (v / 100) mod 10 in
    let d2 := (v / 10) mod 10 in
    let d3 := v mod 10 in
    let b0 := to_u8 (Z.lor (Z.shiftl d0 4) d1) in
    let b1 := to_u8 (Z.lor (Z.shiftl d2 4) d3) in
    exec WriteU8 off b0;
    WriteU8 (size_add off 1) b1.

End BcdCodec.

(* ===================================================================== *)
(** ** Gen1Checksum *)
(* ===================================================================== *)

Module Gen1Checksum.
Import Gen1Layout.

(** [for (i = start; i <= end; ++i) sum += sb.ReadU8(i);] with [fuel]
    iterations left; [sum] is a [u32]. *)
Fixpoint sum_loop (sb : SaveBuffer) (i : Z) (fuel : nat) (sum : Z)
  : result Z :=
  match fuel with
  | O => Ok sum
  | S fuel' =>
      do b <- ReadU8 sb i;
      sum_loop sb (size_add i 1) fuel' (to_u32 (sum + u8_to_Z b))
  end.

Definition sumAndInvert8 (sb : SaveBuffer) (startInclusive endInclusive : Z)
  : result u8 :=
  if endInclusive <? startInclusive
  then Throw (invalid_argument "Checksum: end < start")
  else
    do sum <- sum_loop sb startInclusive
                (Z.to_nat (endInclusive - startInclusive + 1)) 0;
    let low := to_u8 (Z.land sum 0xFF) in
    Ok (to_u8 (Z.lnot (u8_to_Z low))).

Definition ComputeMain (sb : SaveBuffer) : result u8 :=
  sumAndInvert8 sb MainChecksumStart MainChecksumEnd.

Definition ValidateMain (sb : SaveBuffer) : result bool :=
  do expected <- ComputeMain sb;
  do stored <- ReadU8 sb MainChecksumOff;
  Ok (Byte.eqb expected stored).

Definition FixMain : M unit :=
  run c <- reading ComputeMain;
  WriteU8 MainChecksumOff c.

Definition bank_checksum_off (bankIndex2or3 : Z) : Z :=
  if bankIndex2or3 =? 2 then Bank2AllChecksumOff else Bank3AllChecksumOff.

Definition ComputeBankAll (sb : SaveBuffer) (bankIndex2or3 : Z)
  : result u8 :=
  if negb (bankIndex2or3 =? 2) && negb (bankIndex2or3 =? 3)
  then Throw (invalid_argument "ComputeBankAll: bank index must be 2 or 3")
  else
    let start := if bankIndex2or3 =? 2 then Bank2Base else Bank3Base in
    let checksumOff := bank_checksum_off bankIndex2or3 in
    sumAndInvert8 sb start (to_size_t (checksumOff - 1)).

Definition ValidateBankAll (sb : SaveBuffer) (bankIndex2or3 : Z)
  : result bool :=
  let checksumOff := bank_checksum_off bankIndex2or3 in
  do stored <- ReadU8 sb checksumOff;
  do expected <- ComputeBankAll sb bankIndex2or3;
  Ok (Byte.eqb stored expected).

Definition FixBankAll (bankIndex2or3 : Z) : M unit :=
  let checksumOff := bank_checksum_off bankIndex2or3 in
  run c <- reading (fun sb => ComputeBankAll sb bankIndex2or3);
  WriteU8 checksumOff c.

Definition ComputeBox (sb : SaveBuffer) (boxIndex1to12 : Z) : result u8 :=
  do start <- BoxBaseOffsetByIndex1to12 boxIndex1to12;
  let end_ := to_size_t (size_add start BoxBlockSize - 1) in
  sumAndInvert8 sb start end_.

Definition within_bank (boxIndex1to12 : Z) : Z :=
  if boxIndex1to12 <=? 6 then boxIndex1to12 - 1 else boxIndex1to12 - 7.

Definition ValidateBox (sb : SaveBuffer) (boxIndex1to12 : Z) : result bool :=
  do tableBase <- BankPerBoxChecksumsBaseOffsetForBoxIndex1to12 boxIndex1to12;
  let withinBank := within_bank boxIndex1to12 in
  do stored <- ReadU8 sb (size_add tableBase (to_size_t withinBank));
  do expected <- ComputeBox sb boxIndex1to12;
  Ok (Byte.eqb stored expected).

Definition FixBox (boxIndex1to12 : Z) : M unit :=
  run tableBase <-
    reading (fun _ => BankPerBoxChecksumsBaseOffsetForBoxIndex1to12
                        boxIndex1to12);
  let withinBank := within_bank boxIndex1to12 in
  run c <- reading (fun sb => ComputeBox sb boxIndex1to12);
  WriteU8 (size_add tableBase (to_size_t withinBank)) c.

End Gen1Checksum.

(* ===================================================================== *)
(** ** SaveValidator *)
(* ===================================================================== *)

Module SaveValidator.
Import Gen1Layout.

(** [oss << std::hex << n] for a [std::size_t]: lower-case digits, no
    prefix, no padding; sixteen digits at most. *)
Definition hex_digit (d : Z) : ascii :=
  nth (Z.to_nat d) (list_ascii_of_string "0123456789abcdef") "0"%char.

Fixpoint hex_loop (fuel : nat) (n : Z) (acc : string) : string :=
  match fuel with
  | O => acc
  | S fuel' =>
      let acc' := String (hex_digit (n mod 16)) acc in
      if n / 16 =? 0 then acc' else hex_loop fuel' (n / 16) acc'
  end.

Definition hex (n : Z) : string := hex_loop 16 n "".

(** [std::hex] stays set on the stream, so the expected size is printed in
    hexadecimal too. *)
Definition RequireExpectedSize (sb : SaveBuffer) : result unit :=
  if negb (Size sb =? ExpectedSize)
  then Throw (runtime_error
                ("Unexpected save size: 0x" ++ hex (Size sb)
                 ++ " (expected 0x" ++ hex ExpectedSize ++ ")"))
  else Ok tt.

Definition HasExpectedSize (sb : SaveBuffer) : bool :=
  Size sb =? ExpectedSize.

(** [try { return ValidateMain(sb); } catch (...) { return false; }] *)
Definition HasValidMainChecksum (sb : SaveBuffer) : bool :=
  match Gen1Checksum.ValidateMain sb with
  | Ok b => b
  | Throw _ => false
  end.

End SaveValidator.

(* ===================================================================== *)
(** ** ReadOnlyData: the Hall of Fame scanner *)
(* ===================================================================== *)

(** Modelled from the spec: the declarations of [HallOfFamePokemon] and
    [HallOfFameEntry] (the header that declares them is not among the
    sources).  A record entry holds a display index and an ordered team of
    members; the fields are the ones [ReadOnlyData.cpp] assigns. *)
Record HallOfFamePokemon : Type := mkHallOfFamePokemon {
  speciesId : u8;
  speciesName : string;
  level : u8;
  name : string
}.

Record HallOfFameEntry : Type := mkHallOfFameEntry {
  entryIndex : Z;
  team : list HallOfFamePokemon
}.

Definition set_entryIndex (idx : Z) (e : HallOfFameEntry) : HallOfFameEntry :=
  mkHallOfFameEntry idx (team e).

(** [std::clamp(v, lo, hi)]. *)
Definition clamp (v lo hi : Z) : Z :=
  if v <? lo then lo else if hi <? v then hi else v.

Module ReadOnlyData.
Import Gen1Layout.

Definition IsLikelyValidGen1SpeciesId (speciesId : u8) : bool :=
  (u8_to_Z speciesId >=? 1) && (u8_to_Z speciesId <=? 151).

(** The range-for of [NameLooksReasonable]: the two [int] counters after
    the characters of [s]. *)
Fixpoint count_loop (s : string) (q nonSpace : Z) : Z * Z :=
  match s with
  | EmptyString => (q, nonSpace)
  | String c rest =>
      let q := if Ascii.eqb c "?" then q + 1 else q in
      let nonSpace := if negb (Ascii.eqb c " ") then nonSpace + 1
                      else nonSpace in
      count_loop rest q nonSpace
  end.

Definition NameLooksReasonable (s : string) : bool :=
  if (String.length s =? 0)%nat then false
  else
    let '(q, nonSpace) := count_loop s 0 0 in
    if nonSpace =? 0 then false
    else q * 2 <? Z.of_nat (String.length s).

Definition mon_offset (recordOff j : Z) : Z :=
  size_add recordOff (to_size_t (to_size_t j * HallOfFameMonEntrySize)).

(** The loop over the member slots of one record, at slot [j] with [fuel]
    iterations left and [team] accumulated so far.  [break] returns,
    [continue] recurses on the next slot. *)
Fixpoint scan_slots (sb : SaveBuffer) (recordOff j : Z) (fuel : nat)
  (team : list HallOfFamePokemon) : result (list HallOfFamePokemon) :=
  match fuel with
  | O => Ok team
  | S fuel' =>
      let monOff := mon_offset recordOff j in
      check RequireRange sb monOff HallOfFameMonEntrySize;
      do species <- ReadU8 sb (size_add monOff 0x00);
      do level <- ReadU8 sb (size_add monOff 0x01);
      if (u8_to_Z species =? 0x00) || (u8_to_Z species =? 0xFF)
      then Ok team
      else if negb (IsLikelyValidGen1SpeciesId species)
      then (if j =? 0 then Ok []
            else scan_slots sb recordOff (j + 1) fuel' team)
      else if (u8_to_Z level <? 1) || (u8_to_Z level >? 100)
      then (if j =? 0 then Ok []
            else scan_slots sb recordOff (j + 1) fuel' team)
      else
        do name <- Gen1TextCodec.DecodeName sb (size_add monOff 0x02) 0x0B;
        let mon :=
          mkHallOfFamePokemon species
            (Gen1SpeciesLookup.NameFromId species) level name in
        if negb (NameLooksReasonable name)
        then (if j =? 0 then Ok []
              else scan_slots sb recordOff (j + 1) fuel' team)
        else scan_slots sb recordOff (j + 1) fuel' (team ++ [mon])
  end.

Definition record_offset (i : Z) : Z :=
  size_add HallOfFameOff (to_size_t (to_size_t i * HallOfFameRecordSize)).

(** The team the scanner collects from record [i]: the slot loop run
    from slot [j] on a team of [team]. *)
Definition scan_from (sb : SaveBuffer) (i j : Z)
  (team : list HallOfFamePokemon) : result (list HallOfFamePokemon) :=
  scan_slots sb (record_offset i) j
    (Z.to_nat (HallOfFameMonsPerRecord - j)) team.

Definition scan_record (sb : SaveBuffer) (i : Z)
  : result (list HallOfFamePokemon) :=
  check RequireRange sb (record_offset i) HallOfFameRecordSize;
  scan_from sb i 0 [].

(** The loop over the records, at record [i] with [fuel] iterations
    left. *)
Fixpoint scan_records (sb : SaveBuffer) (i : Z) (fuel : nat)
  (valid : list HallOfFameEntry) : result (list HallOfFameEntry) :=
  match fuel with
  | O => Ok valid
  | S fuel' =>
      do team <- scan_record sb i;
      let entry := mkHallOfFameEntry (i + 1) team in
      if negb (Nat.eqb (length team) 0)
      then scan_records sb (i + 1) fuel' (valid ++ [entry])
      else scan_records sb (i + 1) fuel' valid
  end.

Definition scan_all (sb : SaveBuffer) : result (list HallOfFameEntry) :=
  scan_records sb 0 (Z.to_nat HallOfFameMaxRecords) [].

(** [for (i = 0; i < valid.size(); ++i) valid[i].entryIndex = i + 1;] *)
Fixpoint renumber_loop (valid : list HallOfFameEntry) (i fuel : nat)
  : list HallOfFameEntry :=
  match fuel with
  | O => valid
  | S fuel' =>
      renumber_loop (alter (set_entryIndex (Z.of_nat i + 1)) i valid)
        (S i) fuel'
  end.

(** [for (i = start; i < valid.size(); ++i)]: renumber [valid[i]] by the
    current size of [out] and push it. *)
Fixpoint newest_loop (valid : list HallOfFameEntry) (i fuel : nat)
  (out : list HallOfFameEntry) : list HallOfFameEntry :=
  match fuel with
  | O => out
  | S fuel' =>
      match valid !! i with
      | Some e =>
          newest_loop valid (S i) fuel'
            (out ++ [set_entryIndex (Z.of_nat (length out) + 1) e])
      | None => out
      end
  end.

Definition GetHallOfFame (sb : SaveBuffer) : result (list HallOfFameEntry) :=
  do raw <- ReadU8 sb HallOfFameRecordCountOff;
  let rawCountHint := u8_to_Z raw in
  let countHint := clamp rawCountHint 0 HallOfFameMaxRecords in
  check RequireRange sb HallOfFameOff HallOfFameLen;
  do valid <- scan_all sb;
  if countHint =? 0 then Ok []
  else if Z.of_nat (length valid) <=? countHint
  then Ok (renumber_loop valid 0 (length valid))
  else
    let start := (length valid - Z.to_nat countHint)%nat in
    Ok (newest_loop valid start (length valid - start)%nat []).

(** *** The summaries *)

Record TrainerSummary : Type := mkTrainerSummary {
  trainerName : string;
  rivalName : string;
  trainerId : Z;
  money : Z;
  coins : Z;
  badges : u8;
  mapId : u8;
  x : u8;
  y : u8;
  playHours : u8;
  playMinutes : u8;
  playSeconds : u8
}.

Definition GetTrainerSummary (sb : SaveBuffer) : result TrainerSummary :=
  do trainerName <- Gen1TextCodec.DecodeName sb TrainerNameOff TrainerNameLen;
  do rivalName <- Gen1TextCodec.DecodeName sb RivalNameOff RivalNameLen;
  do hi <- ReadU8 sb TrainerIdOff;
  do lo <- ReadU8 sb (size_add TrainerIdOff 1);
  let trainerId := to_u16 (Z.lor (Z.shiftl (u8_to_Z hi) 8) (u8_to_Z lo)) in
  do money <- BcdCodec.ReadBcd3 sb MoneyOff;
  do coins <- BcdCodec.ReadBcd2 sb CoinsOff;
  do badges <- ReadU8 sb BadgesOff;
  do mapId <- ReadU8 sb MapIdOff;
  do x <- ReadU8 sb XCoordOff;
  do y <- ReadU8 sb YCoordOff;
  do playHours <- ReadU8 sb PlayTimeHoursOff;
  do playMinutes <- ReadU8 sb PlayTimeMinutesOff;
  do playSeconds <- ReadU8 sb PlayTimeSecondsOff;
  Ok (mkTrainerSummary trainerName rivalName trainerId money coins badges
        mapId x y playHours playMinutes playSeconds).

(** [byte & static_cast<u8>(1u << i)] as a condition. *)
Definition bit_is_set (byte : u8) (i : Z) : bool :=
  negb (Z.land (u8_to_Z byte) (u8_to_Z (to_u8 (Z.shiftl 1 i))) =? 0).

(** [for (i = 0; i < 8; ++i) if (byte & ...) c++;] with [fuel] iterations
    left. *)
Fixpoint count_bits_loop (byte : u8) (i : Z) (fuel : nat) (c : Z) : Z :=
  match fuel with
  | O => c
  | S fuel' =>
      count_bits_loop byte (i + 1) fuel'
        (if bit_is_set byte i then c + 1 else c)
  end.

Definition CountBits (byte : u8) : Z := count_bits_loop byte 0 8 0.

Record FlagSummary : Type := mkFlagSummary {
  totalFlagsChecked : Z;
  totalFlagsSet : Z;
  setFlagIndices : list Z
}.

Definition kEventFlagsOff : Z := 0x29F3.
Definition kEventFlagsLen : Z := 0x140.

(** The inner loop over the bits of byte [i]; the pushed index
    [i * 8 + bit] stays below 2560. *)
Fixpoint flag_bits_loop (b : u8) (i bit : Z) (fuel : nat) (out : list Z)
  : list Z :=
  match fuel with
  | O => out
  | S fuel' =>
      flag_bits_loop b i (bit + 1) fuel'
        (if bit_is_set b bit then out ++ [i * 8 + bit] else out)
  end.

(** The loop over the bytes of the bitfield, at byte [i] with [fuel]
    iterations left. *)
Fixpoint flags_loop (sb : SaveBuffer) (i : Z) (fuel : nat) (totalSet : Z)
  (out : list Z) : result (Z * list Z) :=
  match fuel with
  | O => Ok (totalSet, out)
  | S fuel' =>
      do b <- ReadU8 sb (size_add kEventFlagsOff i);
      let totalSet := totalSet + CountBits b in
      let out := if negb (u8_to_Z b =? 0)
                 then flag_bits_loop b i 0 8 out else out in
      flags_loop sb (i + 1) fuel' totalSet out
  end.

Definition GetEventFlagSummary (sb : SaveBuffer) : result FlagSummary :=
  check RequireRange sb kEventFlagsOff kEventFlagsLen;
  let totalChecked := kEventFlagsLen * 8 in
  do r <- flags_loop sb 0 (Z.to_nat kEventFlagsLen) 0 [];
  Ok (mkFlagSummary totalChecked (fst r) (snd r)).

(** Modelled from the spec: the declaration of [PokedexSummary] (the header
    that declares it is not among the sources).  The fields are the ones
    [GetPokedexSummary] updates and [PokedexSummary::ToString] prints; the
    counters start at zero and the lists empty. *)
Record PokedexSummary : Type := mkPokedexSummary {
  ownedCount : Z;
  seenCount : Z;
  ownedDexNos : list Z;
  seenDexNos : list Z;
  ownedNames : list string;
  seenNames : list string
}.

Definition push_owned (dexNo : Z) (out : PokedexSummary) : PokedexSummary :=
  mkPokedexSummary (ownedCount out + 1) (seenCount out)
    (ownedDexNos out ++ [dexNo]) (seenDexNos out)
    (ownedNames out) (seenNames out).

Definition push_seen (dexNo : Z) (out : PokedexSummary) : PokedexSummary :=
  mkPokedexSummary (ownedCount out) (seenCount out + 1)
    (ownedDexNos out) (seenDexNos out ++ [dexNo])
    (ownedNames out) (seenNames out).

Definition push_owned_name (name : string) (out : PokedexSummary)
  : PokedexSummary :=
  mkPokedexSummary (ownedCount out) (seenCount out)
    (ownedDexNos out) (seenDexNos out)
    (ownedNames out ++ [name]) (seenNames out).

Definition push_seen_name (name : string) (out : PokedexSummary)
  : PokedexSummary :=
  mkPokedexSummary (ownedCount out) (seenCount out)
    (ownedDexNos out) (seenDexNos out)
    (ownedNames out) (seenNames out ++ [name]).

(** [PokeDex[dexNo]] mapped to a name. *)
Definition dex_name (dexNo : Z) : string :=
  let speciesId := nth (Z.to_nat dexNo) Gen1SpeciesLookup.PokeDex 0 in
  if speciesId >=? 0 then Gen1SpeciesLookup.NameFromId (to_u8 speciesId)
  else "INVALID".

(** [for (dexNo = 1; dexNo <= 151; ++dexNo)] at [dexNo] with [fuel]
    iterations left; the divisions are those of [int]. *)
Fixpoint dex_loop (ownedBytes seenBytes : Bytes) (includeNames : bool)
  (dexNo : Z) (fuel : nat) (out : PokedexSummary) : PokedexSummary :=
  match fuel with
  | O => out
  | S fuel' =>
      let bitIndex := dexNo - 1 in
      let byteIndex := Z.quot bitIndex 8 in
      let bitInByte := Z.rem bitIndex 8 in
      let ownedB := at_ ownedBytes byteIndex in
      let seenB := at_ seenBytes byteIndex in
      let owned := bit_is_set ownedB bitInByte in
      let seen := bit_is_set seenB bitInByte in
      let out := if owned then push_owned dexNo out else out in
      let out := if seen then push_seen dexNo out else out in
      let out :=
        if includeNames
        then
          let name := dex_name dexNo in
          let out := if owned then push_owned_name name out else out in
          if seen then push_seen_name name out else out
        else out in
      dex_loop ownedBytes seenBytes includeNames (dexNo + 1) fuel' out
  end.

Definition GetPokedexSummary (sb : SaveBuffer) (includeNames : bool)
  : result PokedexSummary :=
  check RequireRange sb PokedexOwnedOff PokedexBitsLen;
  check RequireRange sb PokedexSeenOff PokedexBitsLen;
  do ownedBytes <- Slice sb PokedexOwnedOff PokedexBitsLen;
  do seenBytes <- Slice sb PokedexSeenOff PokedexBitsLen;
  Ok (dex_loop ownedBytes seenBytes includeNames 1 151
        (mkPokedexSummary 0 0 [] [] [] [])).


End ReadOnlyData.

(* ===================================================================== *)
(** ** Vocabulary of the statements *)
(* ===================================================================== *)

(** [fails_unchanged m sb]: run on [sb], the mutator [m] throws
    [std::out_of_range] and hands back the very same buffer. *)
Definition fails_unchanged {A : Type} (m : M A) (sb : SaveBuffer) : Prop :=
  exists what, m sb = (Throw (out_of_range what), sb).

(** [repair_settles repair validate storedOff sb]: on [sb] the repair
    succeeds, validation of the repaired buffer returns true, and a second
    repair succeeds and leaves at [storedOff] the byte the first one
    stored. *)
Definition repair_settles (repair : M unit)
  (validate : SaveBuffer -> result bool) (storedOff : Z) (sb : SaveBuffer)
  : Prop :=
  exists sb1 sb2 c,
    repair sb = (Ok tt, sb1) /\ validate sb1 = Ok true /\
    repair sb1 = (Ok tt, sb2) /\
    ReadU8 sb1 storedOff = Ok c /\ ReadU8 sb2 storedOff = Ok c.

(** Where [FixBox] stores the checksum of box [boxIndex1to12]. *)
Definition box_checksum_off (boxIndex1to12 : Z) : Z :=
  (if boxIndex1to12 <=? 6
   then Gen1Layout.Bank2BoxChecksumsOff
   else Gen1Layout.Bank3BoxChecksumsOff)
  + Gen1Checksum.within_bank boxIndex1to12.

(** A save of the expected size, all zeroes. *)
Definition blank_save : SaveBuffer :=
  mkSaveBuffer (replicate (Z.to_nat Gen1Layout.ExpectedSize) x00).

(** How many characters of [s] are [c]. *)
Fixpoint count_char (c : ascii) (s : string) : nat :=
  match s with
  | EmptyString => O
  | String x rest =>
      ((if Ascii.eqb x c then 1 else 0) + count_char c rest)%nat
  end.

(** The case normalisation of names: lowercase letters to uppercase. *)
Definition to_upper (c : ascii) : ascii :=
  if (char_code c >=? char_code "a") && (char_code c <=? char_code "z")
  then to_char (char_code c - char_code "a" + char_code "A")
  else c.

Fixpoint uppercase (s : string) : string :=
  match s with
  | EmptyString => EmptyString
  | String c rest => String (to_upper c) (uppercase rest)
  end.

(** The characters the text codec carries: letters, digits, space. *)
Definition is_name_char (c : ascii) : bool :=
  ((char_code c >=? char_code "A") && (char_code c <=? char_code "Z"))
  || ((char_code c >=? char_code "a") && (char_code c <=? char_code "z"))
  || ((char_code c >=? char_code "0") && (char_code c <=? char_code "9"))
  || Ascii.eqb c " ".

Fixpoint all_name_chars (s : string) : bool :=
  match s with
  | EmptyString => true
  | String c rest => is_name_char c && all_name_chars rest
  end.

(** The terminator byte of the text codec. *)
Definition TERMINATOR : u8 := to_u8 0x50.

(** The bytes [EncodeName] prepares for a field of [len] bytes: the codes
    of the first [min (size, len - 1)] characters, then terminators. *)
Definition encoded_field (name : string) (len : nat) : list byte :=
  let n := Nat.min (String.length name) (len - 1) in
  ((Gen1TextCodec.AsciiToByte <$> (Gen1TextCodec.char_at name <$> seq 0 n))
     ++ replicate (len - n) TERMINATOR)%list.

(** The Hall of Fame region lies within the buffer: the range check that
    [GetHallOfFame] makes before scanning succeeds. *)
Definition hof_in_range (sb : SaveBuffer) : Prop :=
  RequireRange sb Gen1Layout.HallOfFameOff Gen1Layout.HallOfFameLen = Ok tt.

(** Offset of member slot [j] of record [i]. *)
Definition slot_off (i j : Z) : Z :=
  Gen1Layout.HallOfFameOff + i * Gen1Layout.HallOfFameRecordSize
  + j * Gen1Layout.HallOfFameMonEntrySize.

(** What a member slot holds, in the words of the scanner's rules: an
    end-of-team sentinel (species 0 or 0xFF), a slot that fails the
    species, level or name check, or a valid member. *)
Inductive slot_view : Type :=
| Sentinel
| Implausible
| Member (mon : HallOfFamePokemon).

Definition view_slot (sb : SaveBuffer) (i j : Z) : result slot_view :=
  do species <- ReadU8 sb (slot_off i j);
  do level <- ReadU8 sb (slot_off i j + 1);
  do name <- Gen1TextCodec.DecodeName sb (slot_off i j + 2) 11;
  Ok (if (u8_to_Z species =? 0) || (u8_to_Z species =? 255) then Sentinel
      else if ReadOnlyData.IsLikelyValidGen1SpeciesId species
              && ((1 <=? u8_to_Z level) && (u8_to_Z level <=? 100))
              && ReadOnlyData.NameLooksReasonable name
      then Member (mkHallOfFamePokemon species
                     (Gen1SpeciesLookup.NameFromId species) level name)
      else Implausible).

(** The record indices in scan order, 0..49. *)
Definition record_indices : list Z :=
  Z.of_nat <$> seq 0 (Z.to_nat Gen1Layout.HallOfFameMaxRecords).

(** What record [i] adds to the list of valid records: its entry when the
    scan of the record collected at least one member, nothing otherwise. *)
Definition record_contribution (sb : SaveBuffer) (i : Z)
  : list HallOfFameEntry :=
  match ReadOnlyData.scan_record sb i with
  | Ok (m :: ms) => [mkHallOfFameEntry (i + 1) (m :: ms)]
  | _ => []
  end.

(** Entries renumbered 1, 2, ... in their order. *)
Definition renumbered (l : list HallOfFameEntry) : list HallOfFameEntry :=
  imap (fun k e => set_entryIndex (Z.of_nat k + 1) e) l.

(** A sample Hall of Fame for the worked examples.  A slot is written as
    species, level and the start of the name field. *)
Definition put (bs : list byte) (off : Z) (sb : SaveBuffer) : SaveBuffer :=
  mkSaveBuffer (Gen1TextCodec.copy_to bs (bytes_ sb) (Z.to_nat off)).

(** Species 0x54 at level 50, named PIKA. *)
Definition pika_slot : list byte := [x54; x32; x8f; x88; x8a; x80; x50].
(** The same with the level byte at 200. *)
Definition overlevelled_slot : list byte :=
  [x54; xc8; x8f; x88; x8a; x80; x50].

Definition pika : HallOfFamePokemon :=
  mkHallOfFamePokemon x54 "PIKACHU" x32 "PIKA".

(** A buffer of zeroes that ends with the count-hint byte: the shortest
    one [GetHallOfFame] can read ([SaveBuffer] does not enforce the
    expected size). *)
Definition short_save : SaveBuffer :=
  mkSaveBuffer
    (replicate (Z.to_nat (Gen1Layout.HallOfFameRecordCountOff + 1)) x00).

(** Record 0: a member, an overlevelled slot, a member, then the end of the
    team.  Records 1 and 2: one member each.  Record 3: an overlevelled
    first slot in front of a member.  Every other record is blank.  The
    count hint is [hint]. *)
Definition sample_hall (hint : u8) : SaveBuffer :=
  store Gen1Layout.HallOfFameRecordCountOff hint
    (put pika_slot (slot_off 3 1)
    (put overlevelled_slot (slot_off 3 0)
    (put pika_slot (slot_off 2 0)
    (put pika_slot (slot_off 1 0)
    (put pika_slot (slot_off 0 2)
    (put overlevelled_slot (slot_off 0 1)
    (put pika_slot (slot_off 0 0) short_save))))))).

(** The valid records of the sample, as scanned. *)
Definition sample_valid : list HallOfFameEntry :=
  [mkHallOfFameEntry 1 [pika; pika];
   mkHallOfFameEntry 2 [pika];
   mkHallOfFameEntry 3 [pika]].

(** [same_outside sb sb' off len]: [sb'] has the size of [sb] and the same
    byte as [sb] at every offset outside [off, off + len). *)
Definition same_outside (sb sb' : SaveBuffer) (off len : Z) : Prop :=
  Size sb' = Size sb /\
  forall i, 0 <= i -> i < off \/ off + len <= i ->
    at_ (bytes_ sb') i = at_ (bytes_ sb) i.

(** The hard-coded offsets [Box1Off] .. [Box12Off], by box index. *)
Definition named_box_offsets : list Z :=
  [Gen1Layout.Box1Off; Gen1Layout.Box2Off; Gen1Layout.Box3Off;
   Gen1Layout.Box4Off; Gen1Layout.Box5Off; Gen1Layout.Box6Off;
   Gen1Layout.Box7Off; Gen1Layout.Box8Off; Gen1Layout.Box9Off;
   Gen1Layout.Box10Off; Gen1Layout.Box11Off; Gen1Layout.Box12Off].

(** The bank a box index belongs to: 2 for boxes 1..6, 3 for 7..12. *)
Definition bank_of_box (boxIndex1to12 : Z) : Z :=
  if boxIndex1to12 <=? 6 then 2 else 3.

Definition bank_base (bank : Z) : Z :=
  if bank =? 2 then Gen1Layout.Bank2Base else Gen1Layout.Bank3Base.

(** What a character becomes on its way through the text codec. *)
Definition normalise_char (c : ascii) : ascii :=
  if is_name_char c then to_upper c else " "%char.

Fixpoint normalised (s : string) : string :=
  match s with
  | EmptyString => EmptyString
  | String c rest => String (normalise_char c) (normalised rest)
  end.

(** The characters [DecodeName] can produce: uppercase letters, digits,
    the space and the placeholder. *)
Definition is_decoded_char (c : ascii) : bool :=
  ((char_code c >=? char_code "A") && (char_code c <=? char_code "Z"))
  || ((char_code c >=? char_code "0") && (char_code c <=? char_code "9"))
  || Ascii.eqb c " " || Ascii.eqb c "?".

Fixpoint string_forallb (p : ascii -> bool) (s : string) : bool :=
  match s with
  | EmptyString => true
  | String c rest => p c && string_forallb p rest
  end.

(** The bytes that stand for a character: 0x80..0x99, 0xA0..0xA9, 0x7F. *)
Definition is_content_byte (b : u8) : bool :=
  ((u8_to_Z b >=? 0x80) && (u8_to_Z b <=? 0x99))
  || ((u8_to_Z b >=? 0xA0) && (u8_to_Z b <=? 0xA9))
  || (u8_to_Z b =? 0x7F).

(** Both nibbles of the byte are decimal digits. *)
Definition is_bcd_byte (b : u8) : bool :=
  (u8_to_Z (BcdCodec.hi_nibble b) <=? 9)
  && (u8_to_Z (BcdCodec.lo_nibble b) <=? 9).

(** The fifteen checksums of a save: the main one, one for each of the two
    box banks, one for each of the twelve boxes. *)
Inductive checksum_scope : Type :=
  | MainScope
  | BankScope (bank : Z)
  | BoxScope (box : Z).

Definition scope_valid (sc : checksum_scope) : Prop :=
  match sc with
  | MainScope => True
  | BankScope bank => bank = 2 \/ bank = 3
  | BoxScope box => 1 <= box <= 12
  end.

(** First and last byte of the summed range, and the offset of the stored
    checksum byte. *)
Definition scope_first (sc : checksum_scope) : Z :=
  match sc with
  | MainScope => Gen1Layout.MainChecksumStart
  | BankScope bank => bank_base bank
  | BoxScope box =>
      if box <=? 6 then 0x4000 + (box - 1) * 0x462
      else 0x6000 + (box - 7) * 0x462
  end.

Definition scope_last (sc : checksum_scope) : Z :=
  match sc with
  | MainScope => Gen1Layout.MainChecksumEnd
  | BankScope bank => Gen1Checksum.bank_checksum_off bank - 1
  | BoxScope box => scope_first sc + Gen1Layout.BoxBlockSize - 1
  end.

Definition scope_stored (sc : checksum_scope) : Z :=
  match sc with
  | MainScope => Gen1Layout.MainChecksumOff
  | BankScope bank => Gen1Checksum.bank_checksum_off bank
  | BoxScope box => box_checksum_off box
  end.

Definition scope_compute (sc : checksum_scope) (sb : SaveBuffer)
  : result u8 :=
  match sc with
  | MainScope => Gen1Checksum.ComputeMain sb
  | BankScope bank => Gen1Checksum.ComputeBankAll sb bank
  | BoxScope box => Gen1Checksum.ComputeBox sb box
  end.

Definition scope_validate (sc : checksum_scope) (sb : SaveBuffer)
  : result bool :=
  match sc with
  | MainScope => Gen1Checksum.ValidateMain sb
  | BankScope bank => Gen1Checksum.ValidateBankAll sb bank
  | BoxScope box => Gen1Checksum.ValidateBox sb box
  end.

Definition scope_repair (sc : checksum_scope) : M unit :=
  match sc with
  | MainScope => Gen1Checksum.FixMain
  | BankScope bank => Gen1Checksum.FixBankAll bank
  | BoxScope box => Gen1Checksum.FixBox box
  end.

(** The repairs of the listed checksums, one after the other. *)
Fixpoint repair_each (scs : list checksum_scope) : M unit :=
  match scs with
  | [] => ret tt
  | sc :: rest => exec scope_repair sc; repair_each rest
  end.

(** The sum of the bytes as natural numbers, and the bytes [first .. last]
    of a buffer. *)
Definition byte_sum (bs : Bytes) : Z :=
  foldr (fun b acc => u8_to_Z b + acc) 0 bs.

Definition range_bytes (sb : SaveBuffer) (first last : Z) : Bytes :=
  take (Z.to_nat (last - first + 1)) (drop (Z.to_nat first) (bytes_ sb)).

(** A blank save with the main checksum of its all-zero range stored. *)
Definition settled_blank_save : SaveBuffer :=
  store Gen1Layout.MainChecksumOff xff blank_save.

#[global] Instance checksum_scope_eq_dec : EqDecision checksum_scope.
Proof. solve_decision. Defined.

(** All fifteen checksums, per-box ones first. *)
Definition all_scopes : list checksum_scope :=
  map BoxScope [1; 2; 3; 4; 5; 6; 7; 8; 9; 10; 11; 12]
  ++ [BankScope 2; BankScope 3; MainScope].

(** Bit [k] of the bit field that starts at [base]: bit [k mod 8] of the
    byte at [base + k / 8]. *)
Definition field_bit (sb : SaveBuffer) (base k : Z) : bool :=
  Z.testbit (u8_to_Z (at_ (bytes_ sb) (base + k / 8))) (k mod 8).

(** The event flags that are set, and the Pokedex numbers whose bit is set
    in the field at [base]. *)
Definition set_flags (sb : SaveBuffer) : list Z :=
  List.filter (field_bit sb ReadOnlyData.kEventFlagsOff) (seqZ 0 2560).

Definition dex_numbers (sb : SaveBuffer) (base : Z) : list Z :=
  List.filter (fun dexNo => field_bit sb base (dexNo - 1)) (seqZ 1 151).

(** The byte ranges [GetTrainerSummary] reads, as offset and length. *)
Definition trainer_fields : list (Z * Z) :=
  [(Gen1Layout.TrainerNameOff, Gen1Layout.TrainerNameLen);
   (Gen1Layout.RivalNameOff, Gen1Layout.RivalNameLen);
   (Gen1Layout.TrainerIdOff, 2);
   (Gen1Layout.MoneyOff, 3);
   (Gen1Layout.CoinsOff, 2);
   (Gen1Layout.BadgesOff, 1);
   (Gen1Layout.MapIdOff, 1);
   (Gen1Layout.XCoordOff, 1);
   (Gen1Layout.YCoordOff, 1);
   (Gen1Layout.PlayTimeHoursOff, 1);
   (Gen1Layout.PlayTimeMinutesOff, 1);
   (Gen1Layout.PlayTimeSecondsOff, 1)].

Definition in_fields (fields : list (Z * Z)) (i : Z) : bool :=
  existsb (fun f => (fst f <=? i) && (i <? fst f + snd f)) fields.

(** A trainer summary with one field replaced. *)
Definition with_trainerName (s : string) (t : ReadOnlyData.TrainerSummary)
  : ReadOnlyData.TrainerSummary :=
  ReadOnlyData.mkTrainerSummary s (ReadOnlyData.rivalName t)
    (ReadOnlyData.trainerId t) (ReadOnlyData.money t) (ReadOnlyData.coins t)
    (ReadOnlyData.badges t) (ReadOnlyData.mapId t) (ReadOnlyData.x t)
    (ReadOnlyData.y t) (ReadOnlyData.playHours t)
    (ReadOnlyData.playMinutes t) (ReadOnlyData.playSeconds t).

Definition with_money (v : Z) (t : ReadOnlyData.TrainerSummary)
  : ReadOnlyData.TrainerSummary :=
  ReadOnlyData.mkTrainerSummary (ReadOnlyData.trainerName t)
    (ReadOnlyData.rivalName t) (ReadOnlyData.trainerId t) v
    (ReadOnlyData.coins t) (ReadOnlyData.badges t) (ReadOnlyData.mapId t)
    (ReadOnlyData.x t) (ReadOnlyData.y t) (ReadOnlyData.playHours t)
    (ReadOnlyData.playMinutes t) (ReadOnlyData.playSeconds t).

Definition with_coins (v : Z) (t : ReadOnlyData.TrainerSummary)
  : ReadOnlyData.TrainerSummary :=
  ReadOnlyData.mkTrainerSummary (ReadOnlyData.trainerName t)
    (ReadOnlyData.rivalName t) (ReadOnlyData.trainerId t)
    (ReadOnlyData.money t) v (ReadOnlyData.badges t) (ReadOnlyData.mapId t)
    (ReadOnlyData.x t) (ReadOnlyData.y t) (ReadOnlyData.playHours t)
    (ReadOnlyData.playMinutes t) (ReadOnlyData.playSeconds t).

Definition with_badges (b : u8) (t : ReadOnlyData.TrainerSummary)
  : ReadOnlyData.TrainerSummary :=
  ReadOnlyData.mkTrainerSummary (ReadOnlyData.trainerName t)
    (ReadOnlyData.rivalName t) (ReadOnlyData.trainerId t)
    (ReadOnlyData.money t) (ReadOnlyData.coins t) b (ReadOnlyData.mapId t)
    (ReadOnlyData.x t) (ReadOnlyData.y t) (ReadOnlyData.playHours t)
    (ReadOnlyData.playMinutes t) (ReadOnlyData.playSeconds t).

(** [GetTrainerSummary] as a function of the results of its reads, in the
    order it makes them. *)
Definition assemble_trainer (trainerName rivalName : result string)
  (hi lo : result u8) (money coins : result Z)
  (badges mapId x y playHours playMinutes playSeconds : result u8)
  : result ReadOnlyData.TrainerSummary :=
  do trainerName <- trainerName;
  do rivalName <- rivalName;
  do hi <- hi;
  do lo <- lo;
  do money <- money;
  do coins <- coins;
  do badges <- badges;
  do mapId <- mapId;
  do x <- x;
  do y <- y;
  do playHours <- playHours;
  do playMinutes <- playMinutes;
  do playSeconds <- playSeconds;
  Ok (ReadOnlyData.mkTrainerSummary trainerName rivalName
        (to_u16 (Z.lor (Z.shiftl (u8_to_Z hi) 8) (u8_to_Z lo)))
        money coins badges mapId x y playHours playMinutes playSeconds).

(** The trainer summary of a blank save: a zero byte is no terminator and
    decodes as a question mark. *)
Definition blank_summary : ReadOnlyData.TrainerSummary :=
  ReadOnlyData.mkTrainerSummary "???????????" "???????????" 0 0 0
    x00 x00 x00 x00 x00 x00 x00.

(** Every byte range the four reports of [ReadOnlyData] read: the trainer
    fields, the Hall of Fame with its count hint, the event flags and the
    two Pokedex bit fields. *)
Definition report_fields : list (Z * Z) :=
  (trainer_fields
   ++ [(Gen1Layout.HallOfFameOff, Gen1Layout.HallOfFameLen);
       (Gen1Layout.HallOfFameRecordCountOff, 1);
       (ReadOnlyData.kEventFlagsOff, ReadOnlyData.kEventFlagsLen);
       (Gen1Layout.PokedexOwnedOff, Gen1Layout.PokedexBitsLen);
       (Gen1Layout.PokedexSeenOff, Gen1Layout.PokedexBitsLen)])%list.

(** What the scanner demands of a member: an internal species id in
    1..151, a level in 1..100, a plausible name, and the species name the
    lookup table gives for the id. *)
Definition plausible_member (m : HallOfFamePokemon) : Prop :=
  1 <= u8_to_Z (speciesId m) <= 151 /\
  1 <= u8_to_Z (level m) <= 100 /\
  ReadOnlyData.NameLooksReasonable (name m) = true /\
  speciesName m = Gen1SpeciesLookup.NameFromId (speciesId m).

(** A record entry as the scanner may report it: one to six members, each
    plausible. *)
Definition well_formed_entry (e : HallOfFameEntry) : Prop :=
  team e <> [] /\ (length (team e) <= 6)%nat /\
  Forall plausible_member (team e).

(** The Pokedex numbers whose internal species id is above 151. *)
Definition hof_excluded_dex : list Z :=
  [1; 3; 4; 5; 6; 7; 8; 19; 20; 30; 33; 43; 44; 45; 69; 70; 71; 73; 74;
   77; 78; 81; 118; 119; 121; 137; 142].

(** The internal species id of a Pokedex number. *)
Definition dex_species (dexNo : Z) : Z :=
  nth (Z.to_nat dexNo) Gen1SpeciesLookup.PokeDex 0.

(** The facts of the Pokedex table at one number, as a check that
    evaluates. *)
Definition dex_entry_ok (d : Z) : bool :=
  (1 <=? dex_species d) && (dex_species d <=? 190)
  && String.eqb (ReadOnlyData.dex_name d)
       (nth (Z.to_nat (dex_species d)) Gen1SpeciesLookup.SpeciesName "")
  && negb (String.eqb (ReadOnlyData.dex_name d) "INVALID")
  && negb (String.eqb (ReadOnlyData.dex_name d) "MISSINGNO")
  && forallb (fun d' => implb (dex_species d' =? dex_species d) (d' =? d))
       (seqZ 1 151)
  && Bool.eqb
       (ReadOnlyData.IsLikelyValidGen1SpeciesId (to_u8 (dex_species d)))
       (negb (existsb (Z.eqb d) hof_excluded_dex)).

Definition with_trainerId (v : Z) (t : ReadOnlyData.TrainerSummary)
  : ReadOnlyData.TrainerSummary :=
  ReadOnlyData.mkTrainerSummary (ReadOnlyData.trainerName t)
    (ReadOnlyData.rivalName t) v (ReadOnlyData.money t)
    (ReadOnlyData.coins t) (ReadOnlyData.badges t) (ReadOnlyData.mapId t)
    (ReadOnlyData.x t) (ReadOnlyData.y t) (ReadOnlyData.playHours t)
    (ReadOnlyData.playMinutes t) (ReadOnlyData.playSeconds t).

(** A buffer of zeroes that ends where the Hall of Fame region ends: the
    region is in range, the count-hint byte at 0x284E is not. *)
Definition hall_only_save : SaveBuffer :=
  mkSaveBuffer
    (replicate
       (Z.to_nat (Gen1Layout.HallOfFameOff + Gen1Layout.HallOfFameLen)) x00).

(* ===================================================================== *)
(** * Properties *)
(* ===================================================================== *)

(** ** Bytes and machine integers *)

Lemma u8_to_Z_range (b : u8) : 0 <= u8_to_Z b < 256.
Proof.
  unfold u8_to_Z. pose proof (Byte.to_N_bounded b). lia.
Qed.

Lemma u8_to_Z_to_u8 (z : Z) : u8_to_Z (to_u8 z) = z mod 256.
Proof.
  unfold u8_to_Z, to_u8.
  assert (Hr : 0 <= z mod 256 < 256) by (apply Z.mod_pos_bound; lia).
  destruct (Byte.of_N (Z.to_N (z mod 256))) as [b|] eqn:E.
  - apply Byte.to_of_N in E. rewrite E. lia.
  - apply Byte.of_N_None_iff in E. lia.
Qed.

Lemma to_u8_u8_to_Z (b : u8) : to_u8 (u8_to_Z b) = b.
Proof.
  unfold to_u8, u8_to_Z.
  pose proof (Byte.to_N_bounded b).
  rewrite Z.mod_small by lia.
  rewrite N2Z.id, Byte.of_to_N. reflexivity.
Qed.

Lemma to_size_t_small (z : Z) : is_size_t z -> to_size_t z = z.
Proof. unfold is_size_t, to_size_t. intros. apply Z.mod_small. lia. Qed.

Lemma size_add_small (a b : Z) : is_size_t (a + b) -> size_add a b = a + b.
Proof. apply to_size_t_small. Qed.

Lemma two_to_size_width : 2 ^ SIZE_WIDTH = 18446744073709551616.
Proof. reflexivity. Qed.

(** Rewrites every wrapped [std::size_t] sum that visibly does not wrap. *)
Ltac size_t_simpl :=
  unfold size_add, is_size_t in *;
  repeat match goal with
    | H : context [2 ^ SIZE_WIDTH] |- _ => rewrite two_to_size_width in H
    end;
  repeat match goal with
    | |- context [to_size_t ?z] =>
        rewrite (to_size_t_small z)
          by (unfold is_size_t; rewrite two_to_size_width; lia)
    end.

(** ** The range check *)

Lemma RequireRange_zero (sb : SaveBuffer) (off : Z) :
  RequireRange sb off 0 = Ok tt.
Proof. reflexivity. Qed.

Lemma RequireRange_ok (sb : SaveBuffer) (off len : Z) :
  0 <= off -> 0 <= len -> off + len <= Size sb -> is_size_t (off + len) ->
  RequireRange sb off len = Ok tt.
Proof.
  intros Hoff Hlen Hin Hsz. unfold RequireRange.
  destruct (len =? 0) eqn:E0; [reflexivity|].
  destruct (off >? Size sb) eqn:E1; [lia|].
  rewrite size_add_small by assumption.
  destruct (off + len <? off) eqn:E2; [lia|].
  destruct (off + len >? Size sb) eqn:E3; [lia|].
  reflexivity.
Qed.

Lemma RequireRange_fails (sb : SaveBuffer) (off len : Z) :
  is_size_t off -> is_size_t len -> 1 <= len -> off + len > Size sb ->
  is_out_of_range (RequireRange sb off len).
Proof.
  unfold is_size_t. rewrite two_to_size_width.
  intros Hoff Hlen Hpos Hout. unfold RequireRange, is_out_of_range.
  destruct (len =? 0) eqn:E0; [lia|].
  destruct (off >? Size sb) eqn:E1; [eauto|].
  assert (Hwrap : size_add off len < off \/ size_add off len > Size sb).
  { unfold size_add, to_size_t. rewrite two_to_size_width.
    destruct (Z_lt_ge_dec (off + len) 18446744073709551616) as [Hs|Hl].
    - right. rewrite Z.mod_small by lia. lia.
    - left.
      replace (off + len) with (off + len - 18446744073709551616
                                + 1 * 18446744073709551616) by lia.
      rewrite Z.mod_add by lia. rewrite Z.mod_small by lia. lia. }
  destruct Hwrap as [Hw|Hw].
  - assert (E2 : (size_add off len <? off) = true) by lia.
    rewrite E2. simpl. eauto.
  - assert (E3 : (size_add off len >? Size sb) = true) by lia.
    rewrite E3, orb_true_r. eauto.
Qed.

(** A successful check tells where the range lies. *)
Lemma RequireRange_inv (sb : SaveBuffer) (off len : Z) :
  0 <= off -> 1 <= len -> is_size_t (off + len) ->
  RequireRange sb off len = Ok tt -> off + len <= Size sb.
Proof.
  intros Hoff Hlen Hsz. unfold RequireRange.
  destruct (len =? 0) eqn:E0; [lia|].
  destruct (off >? Size sb) eqn:E1; [discriminate|].
  rewrite size_add_small by assumption.
  destruct (off + len <? off) eqn:E2; [discriminate|].
  destruct (off + len >? Size sb) eqn:E3; [discriminate|].
  lia.
Qed.

Lemma guarded_write_fails {A : Type} (sb : SaveBuffer) (off len : Z)
  (k : M A) :
  is_out_of_range (RequireRange sb off len) ->
  fails_unchanged
    (bindM (reading (fun sb => RequireRange sb off len)) (fun _ => k)) sb.
Proof.
  intros [what E]. exists what. unfold bindM, reading. now rewrite E.
Qed.

Lemma guarded_read_fails {A : Type} (sb : SaveBuffer) (off len : Z)
  (k : unit -> result A) :
  is_out_of_range (RequireRange sb off len) ->
  is_out_of_range (bind (RequireRange sb off len) k).
Proof.
  intros [what E]. exists what. now rewrite E.
Qed.

(** ** Bounded buffer: zero-length and out-of-range accesses *)

(** C10. A zero-length access never fails, whatever the offset: for every
    buffer and every offset (also one beyond the end of the buffer) the
    range check with length 0 succeeds and [Slice sb off 0] returns the
    empty byte sequence. *)
Theorem zero_length_access_never_fails (sb : SaveBuffer) (off : Z) :
  RequireRange sb off 0 = Ok tt /\ Slice sb off 0 = Ok [].
Proof.
  split; [reflexivity|].
  unfold Slice. rewrite RequireRange_zero. reflexivity.
Qed.

(** C4, as the claim states it, fails for [Slice] with length 0: on the
    empty buffer, offset 1 and length 0 have [1 + 0 > 0], and yet the
    slice succeeds. *)
Lemma slice_zero_length_beyond_end :
  1 + 0 > Size (mkSaveBuffer []) /\
  ~ is_out_of_range (Slice (mkSaveBuffer []) 1 0).
Proof.
  split; [reflexivity|].
  intros [what H]. discriminate H.
Qed.

(** C4, amended. For every buffer and offset, an accessor whose range has
    at least one byte and reaches beyond the end of the buffer throws
    [std::out_of_range], and the buffer is the same afterwards: the 8-bit
    and bit accessors when [off + 1 > size], the 16-bit ones when
    [off + 2 > size], the 24-bit ones when [off + 3 > size], and [Slice]
    for every length [len >= 1] with [off + len > size]. *)
Theorem accessors_fail_out_of_range (sb : SaveBuffer) (off : Z) :
  is_size_t off ->
  (off + 1 > Size sb ->
     is_out_of_range (ReadU8 sb off) /\
     (forall v, fails_unchanged (WriteU8 off v) sb) /\
     (forall bit, is_out_of_range (GetBit sb off bit)) /\
     (forall bit value, fails_unchanged (SetBit off bit value) sb)) /\
  (off + 2 > Size sb ->
     is_out_of_range (ReadU16LE sb off) /\
     (forall v, fails_unchanged (WriteU16LE off v) sb)) /\
  (off + 3 > Size sb ->
     is_out_of_range (ReadU24BE sb off) /\
     (forall v, fails_unchanged (WriteU24BE off v) sb)) /\
  (forall len, is_size_t len -> 1 <= len -> off + len > Size sb ->
     is_out_of_range (Slice sb off len)).
Proof.
  intros Hoff.
  assert (Hk : forall len, is_size_t len -> 1 <= len -> off + len > Size sb ->
                 is_out_of_range (RequireRange sb off len))
    by (intros; now apply RequireRange_fails).
  assert (Hsmall : forall len, 1 <= len <= 3 -> is_size_t len)
    by (unfold is_size_t; rewrite two_to_size_width; lia).
  repeat split.
  - apply guarded_read_fails, Hk; auto with zarith.
  - intros v. apply guarded_write_fails, Hk; auto with zarith.
  - intros bit. unfold GetBit.
    destruct (u8_to_Z bit >=? 8); [red; eauto|].
    apply guarded_read_fails, Hk; auto with zarith.
  - intros bit value. unfold SetBit.
    destruct (u8_to_Z bit >=? 8); [red; unfold throw; eauto|].
    apply guarded_write_fails, Hk; auto with zarith.
  - apply guarded_read_fails, Hk; auto with zarith.
  - intros v. apply guarded_write_fails, Hk; auto with zarith.
  - apply guarded_read_fails, Hk; auto with zarith.
  - intros v. apply guarded_write_fails, Hk; auto with zarith.
  - intros len Hl Hpos Hout. apply guarded_read_fails, Hk; assumption.
Qed.

(** The amended C4 at work on a four-byte buffer. *)
Lemma accessors_fail_out_of_range_witness :
  let sb := mkSaveBuffer [x01; x02; x03; x04] in
  (is_out_of_range (ReadU8 sb 4) /\
   fails_unchanged (WriteU8 4 xff) sb /\
   is_out_of_range (GetBit sb 4 x00) /\
   fails_unchanged (SetBit 4 x00 true) sb) /\
  (is_out_of_range (ReadU16LE sb 3) /\
   fails_unchanged (WriteU16LE 3 0xABCD) sb) /\
  (is_out_of_range (ReadU24BE sb 2) /\
   fails_unchanged (WriteU24BE 2 0xABCDEF) sb) /\
  is_out_of_range (Slice sb 1 4).
Proof.
  intros sb.
  assert (Hsz : forall z, 0 <= z <= 4 -> is_size_t z)
    by (unfold is_size_t; rewrite two_to_size_width; lia).
  pose proof (accessors_fail_out_of_range sb 4 (Hsz 4 ltac:(lia))) as H4.
  pose proof (accessors_fail_out_of_range sb 3 (Hsz 3 ltac:(lia))) as H3.
  pose proof (accessors_fail_out_of_range sb 2 (Hsz 2 ltac:(lia))) as H2.
  pose proof (accessors_fail_out_of_range sb 1 (Hsz 1 ltac:(lia))) as H1.
  destruct H4 as [H4 _]. destruct H3 as [_ [H3 _]].
  destruct H2 as [_ [_ [H2 _]]]. destruct H1 as [_ [_ [_ H1]]].
  destruct (H4 ltac:(reflexivity)) as (Ha & Hb & Hc & Hd).
  destruct (H3 ltac:(reflexivity)) as (He & Hf).
  destruct (H2 ltac:(reflexivity)) as (Hg & Hh).
  repeat split; auto.
  apply H1; [apply Hsz; lia | lia | reflexivity].
Defined.

(** ** Layout: box offsets *)

(** C9. [BoxBaseOffsetByIndex1to12] maps an index in 1..6 to
    [Box1Off + (i-1) * BoxBlockSize], an index in 7..12 to
    [Box7Off + (i-7) * BoxBlockSize], and throws for every other index; so
    index 1 gives the base of bank 2 and index 7 the base of bank 3, and 0
    and 13 throw.  With an index outside 1..12 the box checksum routines
    throw that same exception whatever the buffer (even an empty one), and
    [FixBox] leaves the buffer as it was: no byte is read or written. *)
Theorem box_base_offset_formula (i : Z) :
  Gen1Layout.BoxBaseOffsetByIndex1to12 i =
    (if (1 <=? i) && (i <=? 6)
     then Ok (Gen1Layout.Box1Off + (i - 1) * Gen1Layout.BoxBlockSize)
     else if (7 <=? i) && (i <=? 12)
     then Ok (Gen1Layout.Box7Off + (i - 7) * Gen1Layout.BoxBlockSize)
     else Throw (out_of_range "Gen1Layout: box index must be 1..12")) /\
  Gen1Layout.BoxBaseOffsetByIndex1to12 1 = Ok Gen1Layout.Bank2Base /\
  Gen1Layout.BoxBaseOffsetByIndex1to12 7 = Ok Gen1Layout.Bank3Base /\
  Gen1Layout.BoxBaseOffsetByIndex1to12 0 =
    Throw (out_of_range "Gen1Layout: box index must be 1..12") /\
  Gen1Layout.BoxBaseOffsetByIndex1to12 13 =
    Throw (out_of_range "Gen1Layout: box index must be 1..12") /\
  (if (1 <=? i) && (i <=? 12) then True
   else forall sb : SaveBuffer,
     Gen1Checksum.ComputeBox sb i =
       Throw (out_of_range "Gen1Layout: box index must be 1..12") /\
     Gen1Checksum.ValidateBox sb i =
       Throw (out_of_range "Gen1Layout: box index must be 1..12") /\
     Gen1Checksum.FixBox i sb =
       (Throw (out_of_range "Gen1Layout: box index must be 1..12"), sb)).
Proof.
  split; [|repeat split; try reflexivity].
  - unfold Gen1Layout.BoxBaseOffsetByIndex1to12,
      Gen1Layout.Box1Off, Gen1Layout.Box7Off, Gen1Layout.BoxBlockSize.
    destruct (i <? 1) eqn:E1; destruct (i >? 12) eqn:E2;
      destruct (i <=? 6) eqn:E3; destruct (1 <=? i) eqn:E4;
      destruct (7 <=? i) eqn:E5; destruct (i <=? 12) eqn:E6;
      cbn [andb orb]; try lia; try reflexivity; f_equal; size_t_simpl; lia.
  - destruct ((1 <=? i) && (i <=? 12)) eqn:E; [exact I|].
    assert (Hbad : (i <? 1) || (i >? 12) = true) by lia.
    intros sb.
    unfold Gen1Checksum.ComputeBox, Gen1Checksum.ValidateBox,
      Gen1Checksum.FixBox, Gen1Layout.BoxBaseOffsetByIndex1to12,
      Gen1Layout.BankPerBoxChecksumsBaseOffsetForBoxIndex1to12,
      bindM, reading.
    rewrite Hbad. simpl. auto.
Qed.

(** ** Reading and writing single bytes *)

Lemma Size_store (sb : SaveBuffer) (off : Z) (v : u8) :
  Size (store off v sb) = Size sb.
Proof. unfold Size, store. cbn [bytes_]. now rewrite length_insert. Qed.

Lemma RequireRange_store (sb : SaveBuffer) (o : Z) (v : u8) (off len : Z) :
  RequireRange (store o v sb) off len = RequireRange sb off len.
Proof. unfold RequireRange. now rewrite Size_store. Qed.

Lemma at_store_eq (sb : SaveBuffer) (off : Z) (v : u8) :
  0 <= off < Size sb -> at_ (bytes_ (store off v sb)) off = v.
Proof.
  unfold Size, at_, store. cbn [bytes_]. intros H.
  rewrite list_lookup_insert_eq by lia. reflexivity.
Qed.

Lemma at_store_ne (sb : SaveBuffer) (off i : Z) (v : u8) :
  0 <= off -> 0 <= i -> off <> i ->
  at_ (bytes_ (store off v sb)) i = at_ (bytes_ sb) i.
Proof.
  unfold at_, store. cbn [bytes_]. intros Ho Hi Hne.
  rewrite list_lookup_insert_ne by lia. reflexivity.
Qed.

Lemma ReadU8_ok (sb : SaveBuffer) (off : Z) :
  0 <= off < Size sb -> is_size_t (off + 1) ->
  ReadU8 sb off = Ok (at_ (bytes_ sb) off).
Proof.
  intros H Hs. unfold ReadU8. rewrite RequireRange_ok by (assumption || lia).
  reflexivity.
Qed.

Lemma WriteU8_ok (sb : SaveBuffer) (off : Z) (v : u8) :
  0 <= off < Size sb -> is_size_t (off + 1) ->
  WriteU8 off v sb = (Ok tt, store off v sb).
Proof.
  intros H Hs. unfold WriteU8, bindM, reading.
  rewrite RequireRange_ok by (assumption || lia). reflexivity.
Qed.

Lemma ReadU8_store_eq (sb : SaveBuffer) (off : Z) (v : u8) :
  0 <= off < Size sb -> is_size_t (off + 1) ->
  ReadU8 (store off v sb) off = Ok v.
Proof.
  intros H Hs. rewrite ReadU8_ok by (rewrite ?Size_store; assumption).
  now rewrite at_store_eq.
Qed.

Lemma ReadU8_store_ne (sb : SaveBuffer) (off i : Z) (v : u8) :
  0 <= off -> 0 <= i -> off <> i ->
  ReadU8 (store off v sb) i = ReadU8 sb i.
Proof.
  intros Ho Hi Hne. unfold ReadU8.
  rewrite RequireRange_store, at_store_ne by assumption. reflexivity.
Qed.

(** ** Packed decimal *)

Ltac enum_digit d :=
  let H := fresh in
  assert (H : d = 0 \/ d = 1 \/ d = 2 \/ d = 3 \/ d = 4 \/
              d = 5 \/ d = 6 \/ d = 7 \/ d = 8 \/ d = 9) by lia;
  repeat (destruct H as [H|H]; [subst d|]); [..|subst d].

Lemma bcd_byte_digits (hi lo : Z) :
  0 <= hi <= 9 -> 0 <= lo <= 9 ->
  BcdCodec.bcdDigit (BcdCodec.hi_nibble (to_u8 (Z.lor (Z.shiftl hi 4) lo)))
    = hi /\
  BcdCodec.bcdDigit (BcdCodec.lo_nibble (to_u8 (Z.lor (Z.shiftl hi 4) lo)))
    = lo.
Proof.
  intros Hhi Hlo. enum_digit hi; enum_digit lo; split; reflexivity.
Qed.

Lemma decimal_digit_range (v k : Z) : 0 <= (v / k) mod 10 <= 9.
Proof. pose proof (Z.mod_pos_bound (v / k) 10). lia. Qed.

Lemma six_digits (v : Z) :
  0 <= v <= 999999 ->
  (v / 100000) mod 10 * 100000 + (v / 10000) mod 10 * 10000 +
  (v / 1000) mod 10 * 1000 + (v / 100) mod 10 * 100 +
  (v / 10) mod 10 * 10 + v mod 10 = v.
Proof.
  intros Hv.
  assert (H5 : v / 100000 = (v / 10000) / 10)
    by (rewrite Z.div_div by lia; reflexivity).
  assert (H4 : v / 10000 = (v / 1000) / 10)
    by (rewrite Z.div_div by lia; reflexivity).
  assert (H3 : v / 1000 = (v / 100) / 10)
    by (rewrite Z.div_div by lia; reflexivity).
  assert (H2 : v / 100 = (v / 10) / 10)
    by (rewrite Z.div_div by lia; reflexivity).
  pose proof (Z.div_mod v 10 ltac:(lia)).
  pose proof (Z.div_mod (v / 10) 10 ltac:(lia)).
  pose proof (Z.div_mod (v / 100) 10 ltac:(lia)).
  pose proof (Z.div_mod (v / 1000) 10 ltac:(lia)).
  pose proof (Z.div_mod (v / 10000) 10 ltac:(lia)).
  assert (Hs : (v / 100000) mod 10 = v / 100000).
  { apply Z.mod_small. split; [apply Z.div_pos; lia|].
    apply Z.div_lt_upper_bound; lia. }
  lia.
Qed.

Lemma four_digits (v : Z) :
  0 <= v <= 9999 ->
  (v / 1000) mod 10 * 1000 + (v / 100) mod 10 * 100 +
  (v / 10) mod 10 * 10 + v mod 10 = v.
Proof.
  intros Hv.
  assert (H3 : v / 1000 = (v / 100) / 10)
    by (rewrite Z.div_div by lia; reflexivity).
  assert (H2 : v / 100 = (v / 10) / 10)
    by (rewrite Z.div_div by lia; reflexivity).
  pose proof (Z.div_mod v 10 ltac:(lia)).
  pose proof (Z.div_mod (v / 10) 10 ltac:(lia)).
  pose proof (Z.div_mod (v / 100) 10 ltac:(lia)).
  assert (Hs : (v / 1000) mod 10 = v / 1000).
  { apply Z.mod_small. split; [apply Z.div_pos; lia|].
    apply Z.div_lt_upper_bound; lia. }
  lia.
Qed.

Lemma WriteBcd3_ok (sb : SaveBuffer) (off v : Z) :
  is_size_t (Size sb) -> 0 <= off -> off + 3 <= Size sb ->
  0 <= v <= 999999 ->
  BcdCodec.WriteBcd3 off v sb =
    (Ok tt,
     store (off + 2) (to_u8 (Z.lor (Z.shiftl ((v / 10) mod 10) 4) (v mod 10)))
       (store (off + 1)
          (to_u8 (Z.lor (Z.shiftl ((v / 1000) mod 10) 4) ((v / 100) mod 10)))
          (store off
             (to_u8 (Z.lor (Z.shiftl ((v / 100000) mod 10) 4)
                       ((v / 10000) mod 10))) sb))).
Proof.
  intros Hsz Hoff Hin Hv. unfold BcdCodec.WriteBcd3.
  destruct (v >? 999999) eqn:E; [lia|].
  unfold bindM. size_t_simpl.
  rewrite WriteU8_ok by (unfold is_size_t; rewrite ?two_to_size_width; lia).
  rewrite WriteU8_ok
    by (unfold is_size_t; rewrite ?Size_store, ?two_to_size_width; lia).
  rewrite WriteU8_ok
    by (unfold is_size_t; rewrite ?Size_store, ?two_to_size_width; lia).
  reflexivity.
Qed.

Lemma WriteBcd2_ok (sb : SaveBuffer) (off v : Z) :
  is_size_t (Size sb) -> 0 <= off -> off + 2 <= Size sb ->
  0 <= v <= 9999 ->
  BcdCodec.WriteBcd2 off v sb =
    (Ok tt,
     store (off + 1) (to_u8 (Z.lor (Z.shiftl ((v / 10) mod 10) 4) (v mod 10)))
       (store off
          (to_u8 (Z.lor (Z.shiftl ((v / 1000) mod 10) 4) ((v / 100) mod 10)))
          sb)).
Proof.
  intros Hsz Hoff Hin Hv. unfold BcdCodec.WriteBcd2.
  destruct (v >? 9999) eqn:E; [lia|].
  unfold to_u32. rewrite (Z.mod_small v) by lia.
  unfold bindM. size_t_simpl.
  rewrite WriteU8_ok by (unfold is_size_t; rewrite ?two_to_size_width; lia).
  rewrite WriteU8_ok
    by (unfold is_size_t; rewrite ?Size_store, ?two_to_size_width; lia).
  reflexivity.
Qed.

(** C6. Packed-decimal round trip and range failure.  On a buffer whose
    size is a [std::size_t], for an offset with the three (two) bytes in
    range and a value in 0..999999 (0..9999), [WriteBcd3] ([WriteBcd2])
    succeeds and [ReadBcd3] ([ReadBcd2]) of the written buffer returns the
    value; with 1000000 ([WriteBcd3]) or 10000 ([WriteBcd2]) the write
    throws [std::out_of_range] for the value, at any offset, and the buffer
    is returned as it was. *)
Theorem bcd_round_trip (sb : SaveBuffer) (off : Z) :
  is_size_t (Size sb) -> 0 <= off ->
  (forall v, off + 3 <= Size sb -> 0 <= v <= 999999 ->
     exists sb', BcdCodec.WriteBcd3 off v sb = (Ok tt, sb') /\
                 BcdCodec.ReadBcd3 sb' off = Ok v) /\
  (forall v, off + 2 <= Size sb -> 0 <= v <= 9999 ->
     exists sb', BcdCodec.WriteBcd2 off v sb = (Ok tt, sb') /\
                 BcdCodec.ReadBcd2 sb' off = Ok v) /\
  BcdCodec.WriteBcd3 off 1000000 sb =
    (Throw (out_of_range "WriteBcd3: value must be 0..999999"), sb) /\
  BcdCodec.WriteBcd2 off 10000 sb =
    (Throw (out_of_range "WriteBcd2: value must be 0..9999"), sb).
Proof.
  intros Hsz Hoff. repeat split.
  - intros v Hin Hv. eexists. split; [now apply WriteBcd3_ok|].
    unfold BcdCodec.ReadBcd3. size_t_simpl.
    rewrite ReadU8_store_ne, ReadU8_store_ne, ReadU8_store_eq
      by (unfold is_size_t; rewrite ?Size_store, ?two_to_size_width; lia).
    rewrite ReadU8_store_ne, ReadU8_store_eq
      by (unfold is_size_t; rewrite ?Size_store, ?two_to_size_width; lia).
    rewrite ReadU8_store_eq
      by (unfold is_size_t; rewrite ?Size_store, ?two_to_size_width; lia).
    cbn [bind].
    destruct (bcd_byte_digits ((v / 100000) mod 10) ((v / 10000) mod 10))
      as [-> ->]; try apply decimal_digit_range.
    destruct (bcd_byte_digits ((v / 1000) mod 10) ((v / 100) mod 10))
      as [-> ->]; try apply decimal_digit_range.
    destruct (bcd_byte_digits ((v / 10) mod 10) (v mod 10))
      as [-> ->]; try apply decimal_digit_range.
    { pose proof (Z.mod_pos_bound v 10). lia. }
    rewrite six_digits by assumption.
    unfold to_u32. rewrite Z.mod_small by lia. reflexivity.
  - intros v Hin Hv. eexists. split; [now apply WriteBcd2_ok|].
    unfold BcdCodec.ReadBcd2. size_t_simpl.
    rewrite ReadU8_store_ne, ReadU8_store_eq
      by (unfold is_size_t; rewrite ?Size_store, ?two_to_size_width; lia).
    rewrite ReadU8_store_eq
      by (unfold is_size_t; rewrite ?Size_store, ?two_to_size_width; lia).
    cbn [bind].
    destruct (bcd_byte_digits ((v / 1000) mod 10) ((v / 100) mod 10))
      as [-> ->]; try apply decimal_digit_range.
    destruct (bcd_byte_digits ((v / 10) mod 10) (v mod 10))
      as [-> ->]; try apply decimal_digit_range.
    { pose proof (Z.mod_pos_bound v 10). lia. }
    rewrite four_digits by assumption.
    unfold to_u32, to_u16.
    rewrite (Z.mod_small v (2 ^ 32)) by lia.
    rewrite (Z.mod_small v (2 ^ 16)) by lia. reflexivity.
Qed.

(** C6 at work: money 123456 and coins 9876 in a six-byte buffer. *)
Lemma bcd_round_trip_witness :
  let sb := mkSaveBuffer [x00; x00; x00; x00; x00; x00] in
  (exists sb', BcdCodec.WriteBcd3 1 123456 sb = (Ok tt, sb') /\
               BcdCodec.ReadBcd3 sb' 1 = Ok 123456) /\
  (exists sb', BcdCodec.WriteBcd2 1 9876 sb = (Ok tt, sb') /\
               BcdCodec.ReadBcd2 sb' 1 = Ok 9876).
Proof.
  intros sb.
  assert (Hsz : is_size_t (Size sb)) by (split; [|reflexivity]; discriminate).
  destruct (bcd_round_trip sb 1 Hsz ltac:(lia)) as (H3 & H2 & _).
  split.
  - apply H3; [discriminate | lia].
  - apply H2; [discriminate | lia].
Defined.

(** ** Multi-byte writes and partial mutation *)

(** The writes that check their whole range first are all-or-nothing: when
    they throw, the buffer is the one they were given. *)
Lemma guarded_writes_atomic (sb sb' : SaveBuffer) (off : Z) (e : exception) :
  (forall v, WriteU16LE off v sb = (Throw e, sb') -> sb' = sb) /\
  (forall v, WriteU24BE off v sb = (Throw e, sb') -> sb' = sb) /\
  (forall len name,
     Gen1TextCodec.EncodeName off len name sb = (Throw e, sb') -> sb' = sb).
Proof.
  repeat split.
  - intros v. unfold WriteU16LE, bindM, reading.
    destruct (RequireRange sb off 2); intros H; now inversion H.
  - intros v. unfold WriteU24BE, bindM, reading.
    destruct (RequireRange sb off 3); intros H; now inversion H.
  - intros len name. unfold Gen1TextCodec.EncodeName, ret, bindM, reading.
    destruct (len =? 0); [intros H; now inversion H|].
    destruct (Gen1TextCodec.scratch_vector sb len);
      [|intros H; now inversion H].
    destruct (RequireRange sb off len); intros H; now inversion H.
Qed.

(** C5 (the code departs from it). [WriteBcd3] and [WriteBcd2] check the
    value and then write byte by byte through [WriteU8], each byte with its
    own range check.  At an offset whose first bytes are in range and whose
    last byte is not, the leading bytes are written before the throw: the
    buffer is left partially mutated. *)
Theorem bcd_write_partial_mutation :
  let sb := mkSaveBuffer [x00; x00; x00; x00] in
  BcdCodec.WriteBcd3 2 123456 sb =
    (Throw (out_of_range "SaveBuffer: range out of range"),
     mkSaveBuffer [x00; x00; x12; x34]) /\
  BcdCodec.WriteBcd2 3 1234 sb =
    (Throw (out_of_range "SaveBuffer: range out of range"),
     mkSaveBuffer [x00; x00; x00; x12]) /\
  WriteU24BE 2 0x123456 sb =
    (Throw (out_of_range "SaveBuffer: range out of range"), sb).
Proof.
  repeat split; vm_compute; reflexivity.
Qed.

(** ** Checksums *)

Lemma sum_loop_store (sb : SaveBuffer) (o : Z) (v : u8) :
  0 <= o ->
  forall (fuel : nat) (i acc : Z),
    0 <= i -> is_size_t (i + Z.of_nat fuel) ->
    o < i \/ i + Z.of_nat fuel <= o ->
    Gen1Checksum.sum_loop (store o v sb) i fuel acc =
    Gen1Checksum.sum_loop sb i fuel acc.
Proof.
  intros Ho. induction fuel as [|fuel IH]; intros i acc Hi Hsz Hout.
  - reflexivity.
  - cbn [Gen1Checksum.sum_loop].
    rewrite ReadU8_store_ne by lia.
    destruct (ReadU8 sb i) as [b|e]; [|reflexivity]. cbn [bind].
    replace (size_add i 1) with (i + 1) by (size_t_simpl; lia).
    apply IH; [lia| |lia].
    unfold is_size_t in *. lia.
Qed.

Lemma sum_loop_ok (sb : SaveBuffer) :
  forall (fuel : nat) (i acc : Z),
    0 <= i -> i + Z.of_nat fuel <= Size sb ->
    is_size_t (i + Z.of_nat fuel) ->
    exists s, Gen1Checksum.sum_loop sb i fuel acc = Ok s.
Proof.
  induction fuel as [|fuel IH]; intros i acc Hi Hin Hsz.
  - eexists. reflexivity.
  - cbn [Gen1Checksum.sum_loop].
    rewrite ReadU8_ok by (unfold is_size_t in *; lia). cbn [bind].
    replace (size_add i 1) with (i + 1) by (size_t_simpl; lia).
    apply IH; [lia|lia|]. unfold is_size_t in *. lia.
Qed.

(** The checksum of a range in bounds exists, and a byte stored after the
    range does not change it. *)
Lemma checksum_outside_store (sb : SaveBuffer) (s e off : Z) :
  0 <= s <= e -> e < off -> off < Size sb -> is_size_t (off + 1) ->
  exists c, Gen1Checksum.sumAndInvert8 sb s e = Ok c /\
            forall v, Gen1Checksum.sumAndInvert8 (store off v sb) s e = Ok c.
Proof.
  intros Hse Heo Hin Hsz. unfold Gen1Checksum.sumAndInvert8.
  destruct (e <? s) eqn:E; [lia|].
  destruct (sum_loop_ok sb (Z.to_nat (e - s + 1)) s 0) as [sum Hsum];
    [lia|lia|unfold is_size_t in *; lia|].
  eexists. split.
  - rewrite Hsum. reflexivity.
  - intros v. rewrite sum_loop_store
      by (try lia; unfold is_size_t in *; lia).
    rewrite Hsum. reflexivity.
Qed.

(** The shape shared by the three repairs: compute over [s..e], store the
    result at [off], beyond the range. *)
Lemma scope_settles (sb : SaveBuffer) (s e off : Z)
  (compute : SaveBuffer -> result u8) :
  0 <= s <= e -> e < off -> off < Size sb -> is_size_t (off + 1) ->
  (forall sb', compute sb' = Gen1Checksum.sumAndInvert8 sb' s e) ->
  exists c,
    bindM (reading compute) (fun c => WriteU8 off c) sb
      = (Ok tt, store off c sb) /\
    compute (store off c sb) = Ok c /\
    ReadU8 (store off c sb) off = Ok c /\
    bindM (reading compute) (fun c => WriteU8 off c) (store off c sb)
      = (Ok tt, store off c (store off c sb)) /\
    ReadU8 (store off c (store off c sb)) off = Ok c.
Proof.
  intros Hse Heo Hin Hsz Hc.
  destruct (checksum_outside_store sb s e off Hse Heo Hin Hsz)
    as (c & Hc0 & Hc1).
  exists c. unfold bindM, reading. rewrite !Hc, Hc0, Hc1.
  rewrite !WriteU8_ok by (rewrite ?Size_store; (assumption || lia)).
  rewrite !ReadU8_store_eq by (rewrite ?Size_store; (assumption || lia)).
  repeat split.
Qed.

Lemma byte_eqb_refl (b : u8) : Byte.eqb b b = true.
Proof. now apply Byte.byte_dec_lb. Qed.

Lemma box_base_in_range (box : Z) :
  1 <= box <= 12 ->
  Gen1Layout.BoxBaseOffsetByIndex1to12 box =
    Ok (if box <=? 6 then 0x4000 + (box - 1) * 0x462
        else 0x6000 + (box - 7) * 0x462).
Proof.
  intros Hb. unfold Gen1Layout.BoxBaseOffsetByIndex1to12,
    Gen1Layout.Box1Off, Gen1Layout.Box7Off, Gen1Layout.BoxBlockSize.
  destruct (box <? 1) eqn:E1; [lia|].
  destruct (box >? 12) eqn:E2; [lia|]. cbn [orb].
  destruct (box <=? 6) eqn:E3; f_equal; size_t_simpl; lia.
Qed.

Lemma box_table_in_range (box : Z) :
  1 <= box <= 12 ->
  Gen1Layout.BankPerBoxChecksumsBaseOffsetForBoxIndex1to12 box =
    Ok (if box <=? 6 then Gen1Layout.Bank2BoxChecksumsOff
        else Gen1Layout.Bank3BoxChecksumsOff).
Proof.
  intros Hb. unfold Gen1Layout.BankPerBoxChecksumsBaseOffsetForBoxIndex1to12.
  destruct (box <? 1) eqn:E1; [lia|].
  destruct (box >? 12) eqn:E2; [lia|]. reflexivity.
Qed.

Lemma box_checksum_off_value (box : Z) :
  1 <= box <= 12 ->
  box_checksum_off box =
    (if box <=? 6 then 0x5A4D + (box - 1) else 0x7A4D + (box - 7)) /\
  size_add (if box <=? 6 then Gen1Layout.Bank2BoxChecksumsOff
            else Gen1Layout.Bank3BoxChecksumsOff)
           (to_size_t (Gen1Checksum.within_bank box))
    = box_checksum_off box.
Proof.
  intros Hb. unfold box_checksum_off, Gen1Checksum.within_bank,
    Gen1Layout.Bank2BoxChecksumsOff, Gen1Layout.Bank3BoxChecksumsOff.
  destruct (box <=? 6) eqn:E; split; try reflexivity; size_t_simpl; lia.
Qed.

(** C3. Checksum repair, for each of the three scopes and every buffer that
    holds the stored checksum byte (and with it the summed range, which lies
    before that byte): the repair succeeds; validation of the repaired buffer
    returns true; a second repair succeeds and the stored byte after it is
    the byte stored by the first.  Main checksum; bank-all checksum of banks
    2 and 3; per-box checksum of boxes 1..12. *)
Theorem checksum_repair_settles (sb : SaveBuffer) :
  (Gen1Layout.MainChecksumOff < Size sb ->
   repair_settles Gen1Checksum.FixMain Gen1Checksum.ValidateMain
     Gen1Layout.MainChecksumOff sb) /\
  (forall bank, bank = 2 \/ bank = 3 ->
   Gen1Checksum.bank_checksum_off bank < Size sb ->
   repair_settles (Gen1Checksum.FixBankAll bank)
     (fun sb' => Gen1Checksum.ValidateBankAll sb' bank)
     (Gen1Checksum.bank_checksum_off bank) sb) /\
  (forall box, 1 <= box <= 12 ->
   box_checksum_off box < Size sb ->
   repair_settles (Gen1Checksum.FixBox box)
     (fun sb' => Gen1Checksum.ValidateBox sb' box)
     (box_checksum_off box) sb).
Proof.
  assert (Hsmall : forall z, 0 <= z <= 0x10000 -> is_size_t z)
    by (unfold is_size_t; rewrite two_to_size_width; lia).
  split; [|split].
  - intros Hin.
    destruct (scope_settles sb Gen1Layout.MainChecksumStart
                Gen1Layout.MainChecksumEnd Gen1Layout.MainChecksumOff
                Gen1Checksum.ComputeMain)
      as (c & H1 & H2 & H3 & H4 & H5);
      try (unfold Gen1Layout.MainChecksumStart, Gen1Layout.MainChecksumEnd,
             Gen1Layout.MainChecksumOff; lia);
      [assumption | apply Hsmall; unfold Gen1Layout.MainChecksumOff; lia
       | reflexivity |].
    exists (store Gen1Layout.MainChecksumOff c sb),
      (store Gen1Layout.MainChecksumOff c
         (store Gen1Layout.MainChecksumOff c sb)), c.
    repeat split; try assumption.
    unfold Gen1Checksum.ValidateMain. rewrite H2, H3. cbn [bind].
    now rewrite byte_eqb_refl.
  - intros bank Hbank Hin.
    assert (Hscope : exists s e,
               0 <= s <= e /\ e < Gen1Checksum.bank_checksum_off bank /\
               Gen1Checksum.bank_checksum_off bank <= 0x8000 /\
               forall sb', Gen1Checksum.ComputeBankAll sb' bank =
                           Gen1Checksum.sumAndInvert8 sb' s e).
    { destruct Hbank as [-> | ->].
      - exists 0x4000, 0x5A4B. repeat split; try discriminate; reflexivity.
      - exists 0x6000, 0x7A4B. repeat split; try discriminate; reflexivity. }
    destruct Hscope as (s & e & Hse & Heo & Hmax & Hcomp).
    destruct (scope_settles sb s e (Gen1Checksum.bank_checksum_off bank)
                (fun sb' => Gen1Checksum.ComputeBankAll sb' bank))
      as (c & H1 & H2 & H3 & H4 & H5);
      [assumption | assumption | assumption | apply Hsmall; lia
       | exact Hcomp |].
    exists (store (Gen1Checksum.bank_checksum_off bank) c sb),
      (store (Gen1Checksum.bank_checksum_off bank) c
         (store (Gen1Checksum.bank_checksum_off bank) c sb)), c.
    repeat split; try assumption.
    unfold Gen1Checksum.ValidateBankAll. rewrite H2, H3. cbn [bind].
    now rewrite byte_eqb_refl.
  - intros box Hbox Hin.
    destruct (box_checksum_off_value box Hbox) as [Hoff Hadd].
    set (s := if box <=? 6 then 0x4000 + (box - 1) * 0x462
              else 0x6000 + (box - 7) * 0x462).
    assert (Hs : 0 <= s /\ s + 0x462 - 1 < box_checksum_off box /\
                 box_checksum_off box <= 0x8000).
    { rewrite Hoff. subst s. destruct (box <=? 6) eqn:E; lia. }
    assert (Hcomp : forall sb', Gen1Checksum.ComputeBox sb' box =
                      Gen1Checksum.sumAndInvert8 sb' s (s + 0x462 - 1)).
    { intros sb'. unfold Gen1Checksum.ComputeBox.
      rewrite box_base_in_range by assumption. cbn [bind]. fold s.
      unfold Gen1Layout.BoxBlockSize.
      replace (to_size_t (size_add s 1122 - 1)) with (s + 0x462 - 1)
        by (size_t_simpl; lia).
      reflexivity. }
    assert (Hfix : forall sb', Gen1Checksum.FixBox box sb' =
              bindM (reading (fun sb'' => Gen1Checksum.ComputeBox sb'' box))
                (fun c => WriteU8 (box_checksum_off box) c) sb').
    { intros sb'. unfold Gen1Checksum.FixBox.
      unfold bindM at 1. unfold reading at 1.
      rewrite box_table_in_range by assumption. now rewrite Hadd. }
    destruct (scope_settles sb s (s + 0x462 - 1) (box_checksum_off box)
                (fun sb' => Gen1Checksum.ComputeBox sb' box))
      as (c & H1 & H2 & H3 & H4 & H5);
      [lia | lia | assumption | apply Hsmall; lia | exact Hcomp |].
    exists (store (box_checksum_off box) c sb),
      (store (box_checksum_off box) c (store (box_checksum_off box) c sb)), c.
    rewrite !Hfix. repeat split; try assumption.
    unfold Gen1Checksum.ValidateBox.
    rewrite box_table_in_range by assumption. cbn [bind].
    rewrite Hadd, H2, H3. cbn [bind]. now rewrite byte_eqb_refl.
Qed.

(** C3 at work on a blank save of the expected size. *)
Lemma checksum_repair_settles_witness :
  repair_settles Gen1Checksum.FixMain Gen1Checksum.ValidateMain
    Gen1Layout.MainChecksumOff blank_save /\
  repair_settles (Gen1Checksum.FixBankAll 3)
    (fun sb' => Gen1Checksum.ValidateBankAll sb' 3)
    (Gen1Checksum.bank_checksum_off 3) blank_save /\
  repair_settles (Gen1Checksum.FixBox 12)
    (fun sb' => Gen1Checksum.ValidateBox sb' 12)
    (box_checksum_off 12) blank_save.
Proof.
  destruct (checksum_repair_settles blank_save) as (Hmain & Hbank & Hbox).
  split; [|split].
  - apply Hmain. vm_compute. reflexivity.
  - apply Hbank; [right; reflexivity | vm_compute; reflexivity].
  - apply Hbox; [lia | vm_compute; reflexivity].
Defined.

(** ** The name-plausibility heuristic *)

Lemma count_char_le (c : ascii) (s : string) :
  (count_char c s <= String.length s)%nat.
Proof.
  induction s as [|x rest IH]; cbn [count_char String.length]; [lia|].
  destruct (Ascii.eqb x c); lia.
Qed.

Lemma count_loop_counts (s : string) (q nonSpace : Z) :
  ReadOnlyData.count_loop s q nonSpace =
    (q + Z.of_nat (count_char "?" s),
     nonSpace + Z.of_nat (String.length s - count_char " " s)).
Proof.
  revert q nonSpace.
  induction s as [|x rest IH]; intros q nonSpace;
    cbn [ReadOnlyData.count_loop count_char String.length].
  - f_equal; lia.
  - rewrite IH. pose proof (count_char_le " " rest).
    destruct (Ascii.eqb x "?"); destruct (Ascii.eqb x " ");
      cbn [negb]; f_equal; lia.
Qed.

(** C8, as the claim states it, fails on a name made of spaces only: such
    a name is non-empty and holds no placeholder at all, and the heuristic
    rejects it.  The scanner can meet such a name: the bytes 7F 7F 50
    decode to two spaces. *)
Lemma all_space_name_rejected :
  Gen1TextCodec.DecodeName (mkSaveBuffer [x7f; x7f; x50]) 0 3 = Ok "  " /\
  ~ (ReadOnlyData.NameLooksReasonable "  " = true <->
     "  " <> "" /\ (2 * count_char "?" "  " < String.length "  ")%nat).
Proof.
  split; [reflexivity|].
  intros [_ H].
  assert (Hacc : ReadOnlyData.NameLooksReasonable "  " = true).
  { apply H. split; [discriminate | cbn; lia]. }
  discriminate Hacc.
Qed.

(** C8, amended. [NameLooksReasonable] accepts a name if and only if the
    name is non-empty, at least one of its characters is not a space, and
    fewer than half of its characters are the placeholder '?'. *)
Theorem name_heuristic_accepts (s : string) :
  ReadOnlyData.NameLooksReasonable s = true <->
  s <> "" /\
  (count_char " " s < String.length s)%nat /\
  (2 * count_char "?" s < String.length s)%nat.
Proof.
  unfold ReadOnlyData.NameLooksReasonable.
  rewrite count_loop_counts.
  pose proof (count_char_le " " s) as Hsp.
  destruct s as [|x rest].
  - cbn. split; [discriminate | intros [H _]; now contradiction H].
  - remember (String x rest) as s eqn:Es.
    assert (Hlen : (String.length s <> 0)%nat) by (subst s; cbn; lia).
    destruct (Nat.eqb_spec (String.length s) 0) as [E|_]; [lia|].
    destruct (Z.eqb_spec (0 + Z.of_nat (String.length s - count_char " " s)) 0)
      as [E0|E0].
    + split; [discriminate | intros (_ & H & _); lia].
    + rewrite Z.ltb_lt. split.
      * intros H. repeat split; [subst s; discriminate | lia | lia].
      * intros (_ & _ & H). lia.
Qed.

(** ** Text codec *)

Lemma codec_char (c : ascii) :
  is_name_char c = true ->
  Gen1TextCodec.ByteToAscii (Gen1TextCodec.AsciiToByte c) = to_upper c /\
  Ascii.eqb (Gen1TextCodec.ByteToAscii (Gen1TextCodec.AsciiToByte c)) NUL
    = false.
Proof.
  destruct c as [[] [] [] [] [] [] [] []]; vm_compute; intros H;
    solve [discriminate H | split; reflexivity].
Qed.

Lemma string_app_cons (acc : string) (c : ascii) (t : string) :
  ((acc ++ String c "") ++ t)%string = (acc ++ String c t)%string.
Proof. induction acc as [|x acc IH]; cbn; [reflexivity | now rewrite IH]. Qed.

Lemma string_app_nil (acc : string) : (acc ++ "")%string = acc.
Proof. induction acc as [|x acc IH]; cbn; [reflexivity | now rewrite IH]. Qed.

(** Decoding the codes of a name followed by a terminator gives the
    case-normalised name. *)
Lemma decode_encoded (name : string) :
  all_name_chars name = true ->
  forall (rest : list byte) (acc : string),
    Gen1TextCodec.decode_loop
      ((Gen1TextCodec.AsciiToByte <$> list_ascii_of_string name)
         ++ TERMINATOR :: rest)%list acc
    = (acc ++ uppercase name)%string.
Proof.
  induction name as [|c name IH]; intros Hall rest acc.
  - cbn. now rewrite string_app_nil.
  - cbn [all_name_chars] in Hall. apply andb_true_iff in Hall as [Hc Hall].
    destruct (codec_char c Hc) as [Hup Hnz].
    cbn [list_ascii_of_string fmap list_fmap app Gen1TextCodec.decode_loop
         uppercase].
    rewrite Hnz, Hup, IH by assumption.
    apply string_app_cons.
Qed.

Lemma char_at_seq (name : string) :
  Gen1TextCodec.char_at name <$> seq 0 (String.length name)
    = list_ascii_of_string name.
Proof.
  induction name as [|c name IH]; [reflexivity|].
  cbn [String.length seq list_ascii_of_string]. rewrite fmap_cons.
  rewrite <- fmap_S_seq, <- list_fmap_compose. f_equal. exact IH.
Qed.

Lemma encode_loop_app (name : string) :
  forall (fuel : nat) (pre suf : list byte),
    (fuel <= length suf)%nat ->
    Gen1TextCodec.encode_loop name (length pre) fuel (pre ++ suf)%list
    = (pre
       ++ (Gen1TextCodec.AsciiToByte
             <$> (Gen1TextCodec.char_at name <$> seq (length pre) fuel))
       ++ drop fuel suf)%list.
Proof.
  induction fuel as [|fuel IH]; intros pre suf Hlen.
  - reflexivity.
  - destruct suf as [|y suf]; [cbn in Hlen; lia|].
    cbn [Gen1TextCodec.encode_loop seq drop]. rewrite !fmap_cons.
    rewrite insert_app_r_alt by lia. rewrite Nat.sub_diag.
    cbn [insert list_insert].
    set (x := Gen1TextCodec.AsciiToByte
                (Gen1TextCodec.char_at name (length pre))).
    replace (pre ++ x :: suf)%list with ((pre ++ [x]) ++ suf)%list
      by (now rewrite <- app_assoc).
    replace (S (length pre)) with (length (pre ++ [x])%list)
      by (rewrite length_app; cbn; lia).
    rewrite IH by (cbn in Hlen; lia).
    now rewrite <- app_assoc.
Qed.

Lemma copy_to_spec :
  forall (src dst : list byte) (pos : nat),
    (pos + length src <= length dst)%nat ->
    Gen1TextCodec.copy_to src dst pos
    = (take pos dst ++ src ++ drop (pos + length src) dst)%list.
Proof.
  induction src as [|b src IH]; intros dst pos Hlen;
    cbn [Gen1TextCodec.copy_to length] in *.
  - cbn [app]. rewrite Nat.add_0_r. now rewrite take_drop.
  - rewrite IH by (rewrite length_insert; lia).
    rewrite (insert_take_drop dst pos b) by lia.
    assert (Ht : length (take pos dst) = pos)
      by (rewrite length_take; lia).
    replace (S pos) with (pos + 1)%nat by lia.
    rewrite (take_app_add' (take pos dst) _ pos 1) by (now rewrite Ht).
    replace (pos + 1 + length src)%nat with (pos + S (length src))%nat by lia.
    rewrite (drop_app_add' (take pos dst) _ pos (S (length src)))
      by (now rewrite Ht).
    cbn [take drop]. rewrite drop_drop. rewrite <- app_assoc. cbn [app].
    rewrite take_0. cbn [app]. do 4 f_equal. lia.
Qed.

Lemma length_encoded_field (name : string) (len : nat) :
  (1 <= len)%nat -> length (encoded_field name len) = len.
Proof.
  intros H. unfold encoded_field.
  rewrite length_app, !length_fmap, length_seq, length_replicate. lia.
Qed.

Lemma scratch_vector_ok (sb : SaveBuffer) (len : Z) :
  len <= Size sb \/ len <= 2 ^ 63 - 1 ->
  Gen1TextCodec.scratch_vector sb len =
    Ok (replicate (Z.to_nat len) (to_u8 0x50)).
Proof.
  intros H. unfold Gen1TextCodec.scratch_vector,
    Gen1TextCodec.vector_max_size.
  destruct (Z.gtb_spec len (Z.max (2 ^ 63 - 1) (Size sb))); [lia|].
  reflexivity.
Qed.

(** What [EncodeName] does to a field that lies within the buffer. *)
Lemma EncodeName_ok (sb : SaveBuffer) (off len : Z) (name : string) :
  is_size_t (Size sb) -> 0 <= off -> 1 <= len -> off + len <= Size sb ->
  Gen1TextCodec.EncodeName off len name sb =
    (Ok tt,
     mkSaveBuffer
       (take (Z.to_nat off) (bytes_ sb)
        ++ encoded_field name (Z.to_nat len)
        ++ drop (Z.to_nat off + Z.to_nat len) (bytes_ sb))%list).
Proof.
  intros Hsz Hoff Hlen Hin. unfold Gen1TextCodec.EncodeName.
  destruct (len =? 0) eqn:E; [lia|].
  unfold bindM, reading.
  rewrite scratch_vector_ok by lia.
  rewrite RequireRange_ok by (unfold is_size_t in *; lia).
  set (n := Z.min (Z.of_nat (String.length name)) (len - 1)).
  assert (Hn : Z.to_nat n
               = Nat.min (String.length name) (Z.to_nat len - 1)) by lia.
  assert (Hout :
    <[Z.to_nat n := to_u8 80]>
      (Gen1TextCodec.encode_loop name 0 (Z.to_nat n)
         (replicate (Z.to_nat len) (to_u8 80)))
    = encoded_field name (Z.to_nat len)).
  { pose proof (encode_loop_app name (Z.to_nat n) []
                  (replicate (Z.to_nat len) (to_u8 80))) as Henc.
    cbn [app length] in Henc.
    rewrite Henc by (rewrite length_replicate; lia).
    rewrite drop_replicate.
    unfold encoded_field. rewrite <- Hn. fold TERMINATOR.
    rewrite insert_app_r_alt
      by (rewrite !length_fmap, length_seq; lia).
    rewrite !length_fmap, length_seq, Nat.sub_diag.
    f_equal. apply list_insert_id. apply lookup_replicate_2. lia. }
  rewrite Hout.
  rewrite copy_to_spec
    by (rewrite length_encoded_field by lia; unfold Size in Hin; lia).
  rewrite length_encoded_field by lia. reflexivity.
Qed.

(** C7. Text round trip on a name field of 11 bytes lying within the
    buffer.  [EncodeName] succeeds for every name; the last byte of the
    field is then the terminator (for every name, so also for those of 10
    characters or more, which fill the field); and for a name of at most 10
    characters, all of them letters, digits or spaces, [DecodeName] of the
    field returns the name with its lowercase letters turned to
    uppercase. *)
Theorem name_round_trip (sb : SaveBuffer) (off : Z) (name : string) :
  is_size_t (Size sb) -> 0 <= off -> off + 11 <= Size sb ->
  exists sb',
    Gen1TextCodec.EncodeName off 11 name sb = (Ok tt, sb') /\
    ReadU8 sb' (off + 10) = Ok TERMINATOR /\
    ((String.length name <= 10)%nat -> all_name_chars name = true ->
     Gen1TextCodec.DecodeName sb' off 11 = Ok (uppercase name)).
Proof.
  intros Hsz Hoff Hin.
  eexists. split; [apply EncodeName_ok; (assumption || lia)|].
  set (field := encoded_field name (Z.to_nat 11)).
  set (pre := take (Z.to_nat off) (bytes_ sb)).
  set (post := drop (Z.to_nat off + Z.to_nat 11) (bytes_ sb)).
  assert (Hfield : length field = 11%nat)
    by (subst field; now rewrite length_encoded_field by lia).
  assert (Hpre : length pre = Z.to_nat off)
    by (subst pre; rewrite length_take; unfold Size in Hin; lia).
  assert (Hsize : Size (mkSaveBuffer (pre ++ field ++ post)) = Size sb).
  { unfold Size in *. cbn [bytes_]. subst post.
    rewrite !length_app, length_drop, Hpre, Hfield. lia. }
  split.
  - rewrite ReadU8_ok
      by (rewrite ?Hsize; unfold is_size_t in *; lia).
    unfold at_. cbn [bytes_].
    replace (Z.to_nat (off + 10)) with (length pre + 10)%nat by lia.
    rewrite lookup_app_r by lia.
    replace (length pre + 10 - length pre)%nat with 10%nat by lia.
    rewrite lookup_app_l by lia.
    subst field. unfold encoded_field.
    set (n := Nat.min (String.length name) (Z.to_nat 11 - 1)).
    assert (Hn : (n <= 10)%nat) by lia.
    rewrite lookup_app_r by (rewrite !length_fmap, length_seq; lia).
    rewrite !length_fmap, length_seq.
    rewrite lookup_replicate_2 by lia. reflexivity.
  - intros Hlen Hall. unfold Gen1TextCodec.DecodeName, Slice.
    rewrite RequireRange_ok
      by (rewrite ?Hsize; unfold is_size_t in *; lia).
    cbn [bind bytes_].
    rewrite (drop_app_length' pre _ (Z.to_nat off)) by (now rewrite Hpre).
    rewrite (take_app_length' field post (Z.to_nat 11))
      by (now rewrite Hfield).
    f_equal. subst field. unfold encoded_field.
    replace (Nat.min (String.length name) (Z.to_nat 11 - 1))
      with (String.length name) by lia.
    rewrite char_at_seq.
    replace (Z.to_nat 11 - String.length name)%nat
      with (S (10 - String.length name)) by lia.
    cbn [replicate]. now rewrite decode_encoded.
Qed.

(** C7 at work: a ten-character name in mixed case, in a field at offset 3
    of a sixteen-byte buffer. *)
Lemma name_round_trip_witness :
  let sb := mkSaveBuffer (replicate 16 xff) in
  exists sb',
    Gen1TextCodec.EncodeName 3 11 "Nidoran 29" sb = (Ok tt, sb') /\
    ReadU8 sb' (3 + 10) = Ok TERMINATOR /\
    Gen1TextCodec.DecodeName sb' 3 11 = Ok "NIDORAN 29".
Proof.
  intros sb.
  assert (Hsz : is_size_t (Size sb)) by (split; [|reflexivity]; discriminate).
  destruct (name_round_trip sb 3 "Nidoran 29" Hsz ltac:(lia)
              ltac:(discriminate)) as (sb' & Henc & Hterm & Hdec).
  exists sb'. split; [exact Henc|]. split; [exact Hterm|].
  apply Hdec; [cbn; lia | reflexivity].
Defined.

(** ** The Hall of Fame scanner *)

Lemma hof_in_range_size (sb : SaveBuffer) :
  hof_in_range sb -> 0x1858 <= Size sb.
Proof.
  intros H. apply RequireRange_inv in H;
    unfold Gen1Layout.HallOfFameOff, Gen1Layout.HallOfFameLen in *;
    try lia.
  unfold is_size_t. rewrite two_to_size_width. lia.
Qed.

Lemma slot_off_range (i j : Z) :
  0 <= i < 50 -> 0 <= j < 6 -> 0x598 <= slot_off i j <= 0x1848.
Proof.
  unfold slot_off, Gen1Layout.HallOfFameOff, Gen1Layout.HallOfFameRecordSize,
    Gen1Layout.HallOfFameMonEntrySize. lia.
Qed.

Lemma record_offset_value (i : Z) :
  0 <= i < 50 -> ReadOnlyData.record_offset i = slot_off i 0.
Proof.
  intros Hi. unfold ReadOnlyData.record_offset, slot_off,
    Gen1Layout.HallOfFameOff, Gen1Layout.HallOfFameRecordSize,
    Gen1Layout.HallOfFameMonEntrySize.
  size_t_simpl. lia.
Qed.

Lemma mon_offset_value (i j : Z) :
  0 <= i < 50 -> 0 <= j < 6 ->
  ReadOnlyData.mon_offset (ReadOnlyData.record_offset i) j = slot_off i j.
Proof.
  intros Hi Hj. rewrite record_offset_value by assumption.
  unfold ReadOnlyData.mon_offset, slot_off,
    Gen1Layout.HallOfFameOff, Gen1Layout.HallOfFameRecordSize,
    Gen1Layout.HallOfFameMonEntrySize.
  size_t_simpl. lia.
Qed.

Lemma DecodeName_ok (sb : SaveBuffer) (off len : Z) :
  0 <= off -> 0 <= len -> off + len <= Size sb -> is_size_t (off + len) ->
  Gen1TextCodec.DecodeName sb off len =
    Ok (Gen1TextCodec.decode_loop
          (take (Z.to_nat len) (drop (Z.to_nat off) (bytes_ sb))) "").
Proof.
  intros. unfold Gen1TextCodec.DecodeName, Slice.
  now rewrite RequireRange_ok by assumption.
Qed.

Ltac hof_bounds :=
  unfold is_size_t, slot_off, Gen1Layout.HallOfFameOff,
    Gen1Layout.HallOfFameRecordSize, Gen1Layout.HallOfFameMonEntrySize in *;
  rewrite ?two_to_size_width; lia.

(** One turn of the slot loop, read off the view of the slot. *)
Lemma scan_step (sb : SaveBuffer) (i j : Z)
  (team : list HallOfFamePokemon) :
  hof_in_range sb -> 0 <= i < 50 -> 0 <= j < 6 ->
  exists v,
    view_slot sb i j = Ok v /\
    ReadOnlyData.scan_from sb i j team =
      match v with
      | Sentinel => Ok team
      | Implausible =>
          if j =? 0 then Ok [] else ReadOnlyData.scan_from sb i (j + 1) team
      | Member mon => ReadOnlyData.scan_from sb i (j + 1) (team ++ [mon])
      end.
Proof.
  intros Hin Hi Hj.
  pose proof (hof_in_range_size sb Hin) as Hsize.
  pose proof (slot_off_range i j Hi Hj) as Hoff.
  unfold view_slot, ReadOnlyData.scan_from.
  unfold Gen1Layout.HallOfFameMonsPerRecord.
  replace (Z.to_nat (6 - j)) with (S (Z.to_nat (6 - (j + 1)))) by lia.
  cbn [ReadOnlyData.scan_slots].
  rewrite mon_offset_value by assumption.
  unfold Gen1Layout.HallOfFameMonEntrySize.
  replace (size_add (slot_off i j) 0) with (slot_off i j)
    by (size_t_simpl; lia).
  replace (size_add (slot_off i j) 1) with (slot_off i j + 1)
    by (size_t_simpl; lia).
  replace (size_add (slot_off i j) 2) with (slot_off i j + 2)
    by (size_t_simpl; lia).
  rewrite RequireRange_ok by hof_bounds.
  rewrite !ReadU8_ok by hof_bounds.
  rewrite DecodeName_ok by hof_bounds.
  cbn [bind].
  set (species := at_ (bytes_ sb) (slot_off i j)).
  set (level := at_ (bytes_ sb) (slot_off i j + 1)).
  set (name := Gen1TextCodec.decode_loop _ _).
  eexists. split; [reflexivity|].
  destruct ((u8_to_Z species =? 0) || (u8_to_Z species =? 255));
    [reflexivity|].
  destruct (ReadOnlyData.IsLikelyValidGen1SpeciesId species);
    cbn [negb andb]; [|reflexivity].
  destruct (Z.ltb_spec (u8_to_Z level) 1) as [Hlo|Hlo];
    destruct (Z.gtb_spec (u8_to_Z level) 100) as [Hhi|Hhi];
    destruct (Z.leb_spec 1 (u8_to_Z level)) as [Hlo'|Hlo'];
    destruct (Z.leb_spec (u8_to_Z level) 100) as [Hhi'|Hhi'];
    try lia; cbn [orb andb]; try reflexivity.
  destruct (ReadOnlyData.NameLooksReasonable name);
    cbn [negb]; reflexivity.
Qed.

Lemma scan_from_end (sb : SaveBuffer) (i : Z)
  (team : list HallOfFamePokemon) :
  ReadOnlyData.scan_from sb i 6 team = Ok team.
Proof. reflexivity. Qed.

(** The slot loop never throws on a region in range. *)
Lemma scan_from_total (sb : SaveBuffer) (i : Z) :
  hof_in_range sb -> 0 <= i < 50 ->
  forall (n : nat) (j : Z) (team : list HallOfFamePokemon),
    j = 6 - Z.of_nat n -> 0 <= j ->
    exists t, ReadOnlyData.scan_from sb i j team = Ok t.
Proof.
  intros Hin Hi. induction n as [|n IH]; intros j team Hj Hpos.
  - replace j with 6 by lia. eexists. apply scan_from_end.
  - destruct (scan_step sb i j team Hin Hi ltac:(lia)) as (v & _ & Hstep).
    rewrite Hstep. destruct v as [| |mon].
    + eauto.
    + destruct (j =? 0); [eauto|]. apply IH; lia.
    + apply IH; lia.
Qed.

Lemma scan_record_total (sb : SaveBuffer) (i : Z) :
  hof_in_range sb -> 0 <= i < 50 ->
  exists team,
    ReadOnlyData.scan_record sb i = Ok team /\
    ReadOnlyData.scan_from sb i 0 [] = Ok team.
Proof.
  intros Hin Hi.
  pose proof (hof_in_range_size sb Hin) as Hsize.
  pose proof (slot_off_range i 0 Hi ltac:(lia)) as Hoff.
  destruct (scan_from_total sb i Hin Hi 6 0 [] ltac:(lia) ltac:(lia))
    as [team Hteam].
  exists team. split; [|exact Hteam].
  unfold ReadOnlyData.scan_record.
  rewrite record_offset_value by assumption.
  unfold Gen1Layout.HallOfFameRecordSize.
  rewrite RequireRange_ok by hof_bounds.
  exact Hteam.
Qed.

Lemma scan_records_spec (sb : SaveBuffer) :
  hof_in_range sb ->
  forall (fuel a : nat) (valid : list HallOfFameEntry),
    (a + fuel <= 50)%nat ->
    ReadOnlyData.scan_records sb (Z.of_nat a) fuel valid =
      Ok (valid
          ++ concat (record_contribution sb <$> (Z.of_nat <$> seq a fuel)))%list.
Proof.
  intros Hin. induction fuel as [|fuel IH]; intros a valid Hle.
  - cbn. now rewrite app_nil_r.
  - cbn [ReadOnlyData.scan_records seq]. rewrite !fmap_cons, concat_cons.
    destruct (scan_record_total sb (Z.of_nat a) Hin ltac:(lia))
      as (team & Hrec & _).
    unfold record_contribution at 1. rewrite Hrec. cbn [bind].
    replace (Z.of_nat a + 1) with (Z.of_nat (S a)) by lia.
    destruct team as [|m ms]; cbn [length Nat.eqb negb].
    + rewrite IH by lia. reflexivity.
    + rewrite IH by lia. now rewrite <- app_assoc.
Qed.

Lemma scan_all_spec (sb : SaveBuffer) :
  hof_in_range sb ->
  ReadOnlyData.scan_all sb =
    Ok (concat (record_contribution sb <$> record_indices)).
Proof.
  intros Hin. unfold ReadOnlyData.scan_all, record_indices.
  change 0 with (Z.of_nat 0) at 1.
  rewrite scan_records_spec by (assumption || (vm_compute; lia)).
  reflexivity.
Qed.

(** C2. On a buffer whose Hall of Fame region is in range, for each of the
    50 records and each of its 6 member slots the three reads of the slot
    succeed, and one turn of the slot loop, entered at slot [j] with the
    members [team] collected so far, goes by what the slot holds:
    - a sentinel species (0 or 0xFF): the loop stops and the record keeps
      [team];
    - a slot failing the species, level or name check: at slot 0 the
      record ends with no member at all; at a later slot the loop goes on
      with the next slot and the same [team];
    - a valid member: the loop goes on with the next slot and [team] with
      the member appended.
    After the sixth slot the loop ends with [team].  The scan of a record
    is this loop from slot 0 on the empty team, and the list of valid
    records is, in scan order, the entry of each record whose scan
    collected at least one member, and nothing for the others. *)
Theorem record_scan_rules (sb : SaveBuffer) :
  hof_in_range sb ->
  (forall i j team, 0 <= i < 50 -> 0 <= j < 6 ->
     exists v,
       view_slot sb i j = Ok v /\
       ReadOnlyData.scan_from sb i j team =
         match v with
         | Sentinel => Ok team
         | Implausible =>
             if j =? 0 then Ok []
             else ReadOnlyData.scan_from sb i (j + 1) team
         | Member mon => ReadOnlyData.scan_from sb i (j + 1) (team ++ [mon])
         end) /\
  (forall i team, ReadOnlyData.scan_from sb i 6 team = Ok team) /\
  (forall i, 0 <= i < 50 ->
     exists team,
       ReadOnlyData.scan_record sb i = Ok team /\
       ReadOnlyData.scan_from sb i 0 [] = Ok team /\
       record_contribution sb i =
         match team with
         | [] => []
         | _ :: _ => [mkHallOfFameEntry (i + 1) team]
         end) /\
  ReadOnlyData.scan_all sb =
    Ok (concat (record_contribution sb <$> record_indices)).
Proof.
  intros Hin. repeat split.
  - intros i j team Hi Hj. now apply scan_step.
  - intros i Hi.
    destruct (scan_record_total sb i Hin Hi) as (team & Hrec & Hfrom).
    exists team. repeat split; try assumption.
    unfold record_contribution. rewrite Hrec. now destruct team.
  - now apply scan_all_spec.
Qed.

Lemma sample_hall_in_range (hint : u8) : hof_in_range (sample_hall hint).
Proof.
  unfold hof_in_range, sample_hall. rewrite RequireRange_store.
  vm_compute. reflexivity.
Qed.

(** C2 at work on the sample: slot 1 of record 0 is overlevelled and only
    skipped; slot 0 of record 3 is overlevelled and the record is
    dropped. *)
Lemma record_scan_rules_witness :
  let sb := sample_hall x02 in
  ReadOnlyData.scan_from sb 0 1 [pika]
    = ReadOnlyData.scan_from sb 0 (1 + 1) [pika]
  /\ ReadOnlyData.scan_from sb 3 0 [] = Ok []
  /\ ReadOnlyData.scan_all sb =
       Ok (concat (record_contribution sb <$> record_indices)).
Proof.
  intros sb.
  destruct (record_scan_rules sb (sample_hall_in_range x02))
    as (Hstep & _ & _ & Hall).
  split; [|split].
  - destruct (Hstep 0 1 [pika] ltac:(lia) ltac:(lia)) as (v & Hv & Hs).
    assert (Hview : view_slot sb 0 1 = Ok Implausible)
      by (vm_compute; reflexivity).
    rewrite Hview in Hv. injection Hv as <-.
    rewrite (eq_refl : (1 =? 0) = false) in Hs. exact Hs.
  - destruct (Hstep 3 0 [] ltac:(lia) ltac:(lia)) as (v & Hv & Hs).
    assert (Hview : view_slot sb 3 0 = Ok Implausible)
      by (vm_compute; reflexivity).
    rewrite Hview in Hv. injection Hv as <-.
    rewrite (eq_refl : (0 =? 0) = true) in Hs. exact Hs.
  - exact Hall.
Defined.

(** ** The count-hint window *)

Lemma renumber_loop_spec :
  forall (fuel : nat) (pre suf : list HallOfFameEntry),
    length suf = fuel ->
    ReadOnlyData.renumber_loop (pre ++ suf) (length pre) fuel =
      (pre ++ imap (fun k e =>
                      set_entryIndex (Z.of_nat (length pre + k) + 1) e) suf)%list.
Proof.
  induction fuel as [|fuel IH]; intros pre suf Hlen.
  - destruct suf; [reflexivity | discriminate].
  - destruct suf as [|y suf]; [discriminate|].
    cbn [ReadOnlyData.renumber_loop].
    rewrite alter_app_r_alt by lia. rewrite Nat.sub_diag.
    cbn [alter list_alter].
    set (y' := set_entryIndex (Z.of_nat (length pre) + 1) y).
    replace (pre ++ y' :: suf)%list with ((pre ++ [y']) ++ suf)%list
      by (now rewrite <- app_assoc).
    replace (S (length pre)) with (length (pre ++ [y'])%list)
      by (rewrite length_app; cbn; lia).
    rewrite IH by (cbn in Hlen; lia).
    rewrite imap_cons, <- app_assoc. cbn [app].
    f_equal. f_equal.
    + subst y'. do 2 f_equal. lia.
    + apply imap_ext. intros k e _. cbn. do 2 f_equal.
      rewrite length_app. cbn. lia.
Qed.

Lemma renumber_loop_all (valid : list HallOfFameEntry) :
  ReadOnlyData.renumber_loop valid 0 (length valid) = renumbered valid.
Proof.
  exact (renumber_loop_spec (length valid) [] valid eq_refl).
Qed.

Lemma newest_loop_spec (valid : list HallOfFameEntry) :
  forall (fuel i : nat) (out : list HallOfFameEntry),
    (i + fuel)%nat = length valid ->
    ReadOnlyData.newest_loop valid i fuel out =
      (out ++ imap (fun k e =>
                      set_entryIndex (Z.of_nat (length out + k) + 1) e)
                (drop i valid))%list.
Proof.
  induction fuel as [|fuel IH]; intros i out Hlen.
  - cbn [ReadOnlyData.newest_loop]. rewrite drop_ge by lia.
    now rewrite imap_nil, app_nil_r.
  - cbn [ReadOnlyData.newest_loop].
    destruct (lookup_lt_is_Some_2 valid i ltac:(lia)) as [e He].
    rewrite He, IH by lia. rewrite (drop_S valid e i He).
    rewrite imap_cons, <- app_assoc. cbn [app].
    f_equal. f_equal.
    + do 2 f_equal. lia.
    + apply imap_ext. intros k x _. cbn. do 2 f_equal.
      rewrite length_app. cbn. lia.
Qed.

Lemma newest_loop_last (valid : list HallOfFameEntry) (start : nat) :
  (start <= length valid)%nat ->
  ReadOnlyData.newest_loop valid start (length valid - start) [] =
    renumbered (drop start valid).
Proof.
  intros H. rewrite newest_loop_spec by lia. reflexivity.
Qed.

Lemma clamp_range (v lo hi : Z) : lo <= hi -> lo <= clamp v lo hi <= hi.
Proof.
  intros H. unfold clamp.
  destruct (Z.ltb_spec v lo); [lia|]. destruct (Z.ltb_spec hi v); lia.
Qed.

Lemma length_renumbered (l : list HallOfFameEntry) :
  length (renumbered l) = length l.
Proof. unfold renumbered. apply length_imap. Qed.

(** C1, as the claim states it, fails on a buffer that holds the Hall of
    Fame region and not the count-hint byte: the region is in range, and
    [GetHallOfFame], which reads the hint first, throws
    [std::out_of_range] and returns no list. *)
Lemma hall_of_fame_hint_beyond_end :
  hof_in_range hall_only_save /\
  ReadOnlyData.GetHallOfFame hall_only_save =
    Throw (out_of_range "SaveBuffer: offset out of range") /\
  ~ exists out, ReadOnlyData.GetHallOfFame hall_only_save = Ok out.
Proof.
  assert (H : ReadOnlyData.GetHallOfFame hall_only_save =
              Throw (out_of_range "SaveBuffer: offset out of range"))
    by (vm_compute; reflexivity).
  split; [vm_compute; reflexivity|]. split; [exact H|].
  intros [out Hout]. rewrite H in Hout. discriminate Hout.
Qed.

(** C1, amended.  On a buffer whose Hall of Fame region is in range and
    whose count-hint byte is in range too, being read as [raw], let [h] be
    [raw] clamped to 0..50 and [V] the valid records of the scan, in scan
    order.  [GetHallOfFame] returns: the empty list when [h = 0], whatever
    [V]; all of [V] renumbered 1..|V| when [|V| <= h]; and otherwise the
    last [h] entries of [V], in order, renumbered 1..h. *)
Theorem hall_of_fame_window (sb : SaveBuffer) (raw : u8) :
  hof_in_range sb ->
  ReadU8 sb Gen1Layout.HallOfFameRecordCountOff = Ok raw ->
  let h := clamp (u8_to_Z raw) 0 Gen1Layout.HallOfFameMaxRecords in
  exists V out,
    ReadOnlyData.scan_all sb = Ok V /\
    ReadOnlyData.GetHallOfFame sb = Ok out /\
    0 <= h <= 50 /\
    (h = 0 -> out = []) /\
    (h <> 0 -> Z.of_nat (length V) <= h -> out = renumbered V) /\
    (h <> 0 -> Z.of_nat (length V) > h ->
       out = renumbered (drop (length V - Z.to_nat h) V) /\
       length out = Z.to_nat h).
Proof.
  intros Hin Hraw h.
  pose proof (scan_all_spec sb Hin) as Hscan.
  set (V := concat (record_contribution sb <$> record_indices)) in Hscan.
  assert (Hh : 0 <= h <= 50) by (apply clamp_range; discriminate).
  exists V.
  exists (if h =? 0 then []
          else if Z.of_nat (length V) <=? h
          then ReadOnlyData.renumber_loop V 0 (length V)
          else ReadOnlyData.newest_loop V (length V - Z.to_nat h)
                 (length V - (length V - Z.to_nat h)) []).
  split; [exact Hscan|]. split.
  - unfold ReadOnlyData.GetHallOfFame. rewrite Hraw. cbn [bind].
    unfold hof_in_range in Hin. rewrite Hin. cbn [bind].
    rewrite Hscan. cbn [bind]. fold h.
    destruct (h =? 0); [reflexivity|].
    destruct (Z.of_nat (length V) <=? h); reflexivity.
  - split; [exact Hh|]. repeat split.
    + intros H0. destruct (Z.eqb_spec h 0); [reflexivity | contradiction].
    + intros Hnz Hle. destruct (Z.eqb_spec h 0); [contradiction|].
      destruct (Z.leb_spec (Z.of_nat (length V)) h); [|lia].
      apply renumber_loop_all.
    + destruct (Z.eqb_spec h 0); [contradiction|].
      destruct (Z.leb_spec (Z.of_nat (length V)) h); [lia|].
      apply newest_loop_last. lia.
    + destruct (Z.eqb_spec h 0); [contradiction|].
      destruct (Z.leb_spec (Z.of_nat (length V)) h); [lia|].
      rewrite newest_loop_last by lia.
      rewrite length_renumbered, length_drop. lia.
Qed.

Lemma sample_hall_hint (hint : u8) :
  ReadU8 (sample_hall hint) Gen1Layout.HallOfFameRecordCountOff = Ok hint.
Proof.
  unfold sample_hall. apply ReadU8_store_eq.
  - vm_compute. split; [discriminate | reflexivity].
  - unfold Gen1Layout.HallOfFameRecordCountOff. hof_bounds.
Qed.

(** The scan of the sample finds three valid records, whatever the hint
    says. *)
Lemma sample_hall_scan_5 :
  ReadOnlyData.scan_all (sample_hall x05) = Ok sample_valid.
Proof. vm_compute. reflexivity. Qed.

Lemma sample_hall_scan_2 :
  ReadOnlyData.scan_all (sample_hall x02) = Ok sample_valid.
Proof. vm_compute. reflexivity. Qed.

(** C1 at work on the sample, which holds three valid records: with a
    count hint of 0 nothing is returned; with a hint of 5 all three come
    back, renumbered; with a hint of 2 the last two come back, renumbered
    1 and 2. *)
Lemma hall_of_fame_window_witness :
  ReadOnlyData.GetHallOfFame (sample_hall x00) = Ok [] /\
  ReadOnlyData.GetHallOfFame (sample_hall x05) =
    Ok [mkHallOfFameEntry 1 [pika; pika];
        mkHallOfFameEntry 2 [pika];
        mkHallOfFameEntry 3 [pika]] /\
  ReadOnlyData.GetHallOfFame (sample_hall x02) =
    Ok [mkHallOfFameEntry 1 [pika]; mkHallOfFameEntry 2 [pika]].
Proof.
  split; [|split].
  - destruct (hall_of_fame_window (sample_hall x00) x00
                (sample_hall_in_range x00) (sample_hall_hint x00))
      as (V & out & _ & Hout & _ & H0 & _).
    rewrite Hout. f_equal. apply H0. reflexivity.
  - destruct (hall_of_fame_window (sample_hall x05) x05
                (sample_hall_in_range x05) (sample_hall_hint x05))
      as (V & out & HV & Hout & _ & _ & Hle & _).
    rewrite sample_hall_scan_5 in HV. injection HV as <-.
    rewrite Hout. f_equal.
    rewrite Hle; [reflexivity | discriminate | discriminate].
  - destruct (hall_of_fame_window (sample_hall x02) x02
                (sample_hall_in_range x02) (sample_hall_hint x02))
      as (V & out & HV & Hout & _ & _ & _ & Hgt).
    rewrite sample_hall_scan_2 in HV. injection HV as <-.
    rewrite Hout. f_equal.
    destruct Hgt as [Hlast _]; [discriminate | reflexivity |].
    rewrite Hlast. reflexivity.
Defined.

(* ===================================================================== *)
(** * Further properties of the save-structure core *)
(* ===================================================================== *)

(** ** Bounded buffer: round trips, byte order, frame *)

Lemma RequireRange_ok_inv (sb : SaveBuffer) (off len : Z) :
  is_size_t off -> is_size_t len -> 1 <= len ->
  RequireRange sb off len = Ok tt -> off + len <= Size sb.
Proof.
  intros Hoff Hlen Hpos Hok.
  destruct (Z_le_gt_dec (off + len) (Size sb)) as [Hle|Hgt]; [exact Hle|].
  destruct (RequireRange_fails sb off len Hoff Hlen Hpos Hgt) as [what E].
  rewrite E in Hok. discriminate.
Qed.

Lemma small_is_size_t (z : Z) : 0 <= z <= 0x100000000 -> is_size_t z.
Proof. unfold is_size_t. rewrite two_to_size_width. lia. Qed.

Lemma same_outside_refl (sb : SaveBuffer) (off len : Z) :
  same_outside sb sb off len.
Proof. split; [reflexivity | intros; reflexivity]. Qed.

Lemma same_outside_store (sb : SaveBuffer) (o off len : Z) (v : u8) :
  0 <= o -> off <= o < off + len ->
  same_outside sb (store o v sb) off len.
Proof.
  intros Ho Hin. split; [apply Size_store|].
  intros i Hi Hout. apply at_store_ne; lia.
Qed.

Lemma same_outside_trans (sb1 sb2 sb3 : SaveBuffer) (off len : Z) :
  same_outside sb1 sb2 off len -> same_outside sb2 sb3 off len ->
  same_outside sb1 sb3 off len.
Proof.
  intros [S12 H12] [S23 H23]. split; [congruence|].
  intros i Hi Hout. rewrite H23, H12 by assumption. reflexivity.
Qed.

Lemma land_255 (v : Z) : Z.land v 255 = v mod 256.
Proof. change 255 with (Z.ones 8). now rewrite Z.land_ones by lia. Qed.

Lemma lor_low_high (a b n : Z) :
  0 <= n -> 0 <= a < 2 ^ n -> Z.lor a (Z.shiftl b n) = a + Z.shiftl b n.
Proof.
  intros Hn Ha.
  assert (Hland : Z.land a (Z.shiftl b n) = 0).
  { apply Z.bits_inj'. intros k Hk. rewrite Z.land_spec, Z.bits_0.
    destruct (Z_lt_le_dec k n) as [Hlt|Hge].
    - rewrite Z.shiftl_spec_low by assumption. apply andb_false_r.
    - replace a with (a mod 2 ^ n) by (apply Z.mod_small; lia).
      rewrite Z.mod_pow2_bits_high by lia. reflexivity. }
  pose proof (Z.add_lor_land a (Z.shiftl b n)) as H.
  rewrite Hland in H. lia.
Qed.

Lemma u8_of_small (z : Z) : 0 <= z < 256 -> u8_to_Z (to_u8 z) = z.
Proof. intros H. rewrite u8_to_Z_to_u8. now apply Z.mod_small. Qed.

Lemma ReadU16LE_value (sb : SaveBuffer) (off : Z) :
  0 <= off -> off + 2 <= Size sb -> is_size_t (off + 2) ->
  ReadU16LE sb off =
    Ok (u8_to_Z (at_ (bytes_ sb) off)
        + 256 * u8_to_Z (at_ (bytes_ sb) (off + 1))).
Proof.
  intros Hoff Hin Hsz. unfold ReadU16LE.
  rewrite RequireRange_ok by (assumption || lia). cbn [bind].
  pose proof (u8_to_Z_range (at_ (bytes_ sb) off)) as H0.
  pose proof (u8_to_Z_range (at_ (bytes_ sb) (off + 1))) as H1.
  set (b0 := u8_to_Z (at_ (bytes_ sb) off)) in *.
  set (b1 := u8_to_Z (at_ (bytes_ sb) (off + 1))) in *.
  unfold to_u16. rewrite (Z.mod_small b0), (Z.mod_small b1) by lia.
  rewrite (Z.shiftl_mul_pow2 b1 8) by lia.
  rewrite (Z.mod_small (b1 * 2 ^ 8)) by lia.
  rewrite <- (Z.shiftl_mul_pow2 b1 8) by lia.
  rewrite lor_low_high by lia.
  rewrite Z.shiftl_mul_pow2 by lia. f_equal. lia.
Qed.

Lemma ReadU24BE_value (sb : SaveBuffer) (off : Z) :
  0 <= off -> off + 3 <= Size sb -> is_size_t (off + 3) ->
  ReadU24BE sb off =
    Ok (65536 * u8_to_Z (at_ (bytes_ sb) off)
        + 256 * u8_to_Z (at_ (bytes_ sb) (off + 1))
        + u8_to_Z (at_ (bytes_ sb) (off + 2))).
Proof.
  intros Hoff Hin Hsz. unfold ReadU24BE.
  rewrite RequireRange_ok by (assumption || lia). cbn [bind].
  pose proof (u8_to_Z_range (at_ (bytes_ sb) off)) as H0.
  pose proof (u8_to_Z_range (at_ (bytes_ sb) (off + 1))) as H1.
  pose proof (u8_to_Z_range (at_ (bytes_ sb) (off + 2))) as H2.
  set (b0 := u8_to_Z (at_ (bytes_ sb) off)) in *.
  set (b1 := u8_to_Z (at_ (bytes_ sb) (off + 1))) in *.
  set (b2 := u8_to_Z (at_ (bytes_ sb) (off + 2))) in *.
  unfold to_u32.
  rewrite (Z.shiftl_mul_pow2 b0 16), (Z.shiftl_mul_pow2 b1 8) by lia.
  rewrite (Z.mod_small (b0 * 2 ^ 16)), (Z.mod_small (b1 * 2 ^ 8)) by lia.
  rewrite <- (Z.shiftl_mul_pow2 b0 16), <- (Z.shiftl_mul_pow2 b1 8) by lia.
  assert (Hhi : Z.lor (Z.shiftl b0 16) (Z.shiftl b1 8)
                = Z.shiftl (b1 + Z.shiftl b0 8) 8).
  { rewrite <- (lor_low_high b1 b0 8) by lia.
    rewrite Z.shiftl_lor, Z.shiftl_shiftl by lia.
    apply Z.lor_comm. }
  rewrite Hhi, Z.lor_comm, lor_low_high by lia.
  rewrite !Z.shiftl_mul_pow2 by lia. f_equal. lia.
Qed.


Lemma to_u8_mod (z : Z) : to_u8 (z mod 256) = to_u8 z.
Proof. unfold to_u8. now rewrite Zmod_mod. Qed.

Lemma WriteU16LE_ok (sb : SaveBuffer) (off v : Z) :
  0 <= off -> off + 2 <= Size sb -> is_size_t (off + 2) ->
  WriteU16LE off v sb =
    (Ok tt, store (off + 1) (to_u8 (v / 256)) (store off (to_u8 v) sb)).
Proof.
  intros Hoff Hin Hsz. unfold WriteU16LE, bindM, reading.
  rewrite RequireRange_ok by (assumption || lia).
  rewrite !land_255, Z.shiftr_div_pow2 by lia.
  now rewrite !to_u8_mod.
Qed.

Lemma WriteU24BE_ok (sb : SaveBuffer) (off v : Z) :
  0 <= off -> off + 3 <= Size sb -> is_size_t (off + 3) ->
  WriteU24BE off v sb =
    (Ok tt,
     store (off + 2) (to_u8 v)
       (store (off + 1) (to_u8 (v / 256))
          (store off (to_u8 (v / 65536)) sb))).
Proof.
  intros Hoff Hin Hsz. unfold WriteU24BE, bindM, reading.
  rewrite RequireRange_ok by (assumption || lia).
  rewrite !land_255, !Z.shiftr_div_pow2 by lia.
  now rewrite !to_u8_mod.
Qed.

Ltac store_bounds :=
  rewrite ?Size_store; unfold is_size_t in *;
  rewrite ?two_to_size_width in *; lia.

(** X1. Read after write.  On a buffer whose size is a [std::size_t], at
    an offset with the bytes in range: [ReadU8] returns the byte written
    by [WriteU8]; [ReadU16LE] returns the 16-bit value written by
    [WriteU16LE]; [ReadU24BE] returns the value written by [WriteU24BE]
    when it fits in 24 bits. *)
Theorem write_read_round_trip (sb : SaveBuffer) (off : Z) :
  is_size_t (Size sb) -> 0 <= off ->
  (forall v, off + 1 <= Size sb ->
     exists sb', WriteU8 off v sb = (Ok tt, sb') /\ ReadU8 sb' off = Ok v) /\
  (forall v, off + 2 <= Size sb -> 0 <= v < 2 ^ 16 ->
     exists sb', WriteU16LE off v sb = (Ok tt, sb') /\
                 ReadU16LE sb' off = Ok v) /\
  (forall v, off + 3 <= Size sb -> 0 <= v < 2 ^ 24 ->
     exists sb', WriteU24BE off v sb = (Ok tt, sb') /\
                 ReadU24BE sb' off = Ok v).
Proof.
  intros Hsz Hoff. split; [|split].
  - intros v Hin. eexists. split; [apply WriteU8_ok; store_bounds|].
    apply ReadU8_store_eq; store_bounds.
  - intros v Hin Hv. eexists.
    split; [apply WriteU16LE_ok; store_bounds|].
    rewrite ReadU16LE_value by store_bounds.
    rewrite at_store_ne, at_store_eq, at_store_eq by store_bounds.
    rewrite !u8_to_Z_to_u8. f_equal.
    pose proof (Z.div_mod v 256 ltac:(lia)).
    rewrite (Z.mod_small (v / 256)); [lia|].
    split; [apply Z.div_pos; lia | apply Z.div_lt_upper_bound; lia].
  - intros v Hin Hv. eexists.
    split; [apply WriteU24BE_ok; store_bounds|].
    rewrite ReadU24BE_value by store_bounds.
    rewrite (at_store_ne _ (off + 2) off), (at_store_ne _ (off + 1) off),
      at_store_eq by store_bounds.
    rewrite (at_store_ne _ (off + 2) (off + 1)), at_store_eq
      by store_bounds.
    rewrite at_store_eq by store_bounds.
    rewrite !u8_to_Z_to_u8. f_equal.
    assert (H16 : v / 65536 = v / 256 / 256)
      by (rewrite Z.div_div by lia; reflexivity).
    pose proof (Z.div_mod v 256 ltac:(lia)).
    pose proof (Z.div_mod (v / 256) 256 ltac:(lia)).
    rewrite (Z.mod_small (v / 65536)); [lia|].
    split; [apply Z.div_pos; lia | apply Z.div_lt_upper_bound; lia].
Qed.

(** X1 at work on an eight-byte buffer. *)
Lemma write_read_round_trip_witness :
  let sb := mkSaveBuffer (replicate 8 xff) in
  (exists sb', WriteU8 7 xab sb = (Ok tt, sb') /\ ReadU8 sb' 7 = Ok xab) /\
  (exists sb', WriteU16LE 6 0xBEEF sb = (Ok tt, sb') /\
               ReadU16LE sb' 6 = Ok 0xBEEF) /\
  (exists sb', WriteU24BE 5 0x123456 sb = (Ok tt, sb') /\
               ReadU24BE sb' 5 = Ok 0x123456).
Proof.
  intros sb.
  assert (Hsz : is_size_t (Size sb)) by (split; [|reflexivity]; discriminate).
  split; [|split].
  - destruct (write_read_round_trip sb 7 Hsz ltac:(lia)) as (H & _ & _).
    apply H. discriminate.
  - destruct (write_read_round_trip sb 6 Hsz ltac:(lia)) as (_ & H & _).
    apply H; [discriminate | lia].
  - destruct (write_read_round_trip sb 5 Hsz ltac:(lia)) as (_ & _ & H).
    apply H; [discriminate | lia].
Defined.

(** X2. Byte order.  [WriteU16LE] stores the low byte of the value at
    [off] and the next byte at [off + 1]; [WriteU24BE] stores bits 16..23
    at [off], bits 8..15 at [off + 1] and the low byte at [off + 2], and
    drops the bits above 23: reading back gives the value modulo 2^24. *)
Theorem multi_byte_layout (sb : SaveBuffer) (off v : Z) :
  is_size_t (Size sb) -> 0 <= off -> 0 <= v ->
  (off + 2 <= Size sb ->
     exists sb', WriteU16LE off v sb = (Ok tt, sb') /\
       ReadU8 sb' off = Ok (to_u8 v) /\
       ReadU8 sb' (off + 1) = Ok (to_u8 (v / 256))) /\
  (off + 3 <= Size sb ->
     exists sb', WriteU24BE off v sb = (Ok tt, sb') /\
       ReadU8 sb' off = Ok (to_u8 (v / 65536)) /\
       ReadU8 sb' (off + 1) = Ok (to_u8 (v / 256)) /\
       ReadU8 sb' (off + 2) = Ok (to_u8 v) /\
       ReadU24BE sb' off = Ok (v mod 2 ^ 24)).
Proof.
  intros Hsz Hoff Hv. split.
  - intros Hin. eexists. split; [apply WriteU16LE_ok; store_bounds|].
    split.
    + rewrite ReadU8_store_ne by lia. apply ReadU8_store_eq; store_bounds.
    + apply ReadU8_store_eq; store_bounds.
  - intros Hin. eexists. split; [apply WriteU24BE_ok; store_bounds|].
    repeat split.
    + rewrite !ReadU8_store_ne by lia. apply ReadU8_store_eq; store_bounds.
    + rewrite ReadU8_store_ne by lia. apply ReadU8_store_eq; store_bounds.
    + apply ReadU8_store_eq; store_bounds.
    + rewrite ReadU24BE_value by store_bounds.
      rewrite (at_store_ne _ (off + 2) off), (at_store_ne _ (off + 1) off),
        at_store_eq by store_bounds.
      rewrite (at_store_ne _ (off + 2) (off + 1)), at_store_eq
        by store_bounds.
      rewrite at_store_eq by store_bounds.
      rewrite !u8_to_Z_to_u8. f_equal.
      assert (H16 : v / 65536 = v / 256 / 256)
        by (rewrite Z.div_div by lia; reflexivity).
      assert (H24 : v / 2 ^ 24 = v / 65536 / 256)
        by (rewrite Z.div_div by lia; reflexivity).
      pose proof (Z.div_mod v 256 ltac:(lia)).
      pose proof (Z.div_mod (v / 256) 256 ltac:(lia)).
      pose proof (Z.div_mod (v / 65536) 256 ltac:(lia)).
      pose proof (Z.div_mod v (2 ^ 24) ltac:(lia)).
      pose proof (Z.mod_pos_bound v 256 ltac:(lia)).
      pose proof (Z.mod_pos_bound (v / 256) 256 ltac:(lia)).
      pose proof (Z.mod_pos_bound (v / 65536) 256 ltac:(lia)).
      pose proof (Z.mod_pos_bound v (2 ^ 24) ltac:(lia)).
      lia.
Qed.

(** X2 at work: the trainer-ID style value 0xABCD and a 32-bit value with
    bits above 23. *)
Lemma multi_byte_layout_witness :
  let sb := mkSaveBuffer (replicate 4 x00) in
  (exists sb', WriteU16LE 1 0xABCD sb = (Ok tt, sb') /\
     ReadU8 sb' 1 = Ok xcd /\ ReadU8 sb' (1 + 1) = Ok xab) /\
  (exists sb', WriteU24BE 1 0xFF123456 sb = (Ok tt, sb') /\
     ReadU8 sb' 1 = Ok x12 /\ ReadU8 sb' (1 + 1) = Ok x34 /\
     ReadU8 sb' (1 + 2) = Ok x56 /\ ReadU24BE sb' 1 = Ok 0x123456).
Proof.
  intros sb.
  assert (Hsz : is_size_t (Size sb)) by (split; [|reflexivity]; discriminate).
  split.
  - destruct (multi_byte_layout sb 1 0xABCD Hsz ltac:(lia) ltac:(lia))
      as (H & _).
    apply H. discriminate.
  - destruct (multi_byte_layout sb 1 0xFF123456 Hsz ltac:(lia) ltac:(lia))
      as (_ & H).
    apply H. discriminate.
Defined.

Lemma WriteU8_cases (sb : SaveBuffer) (o : Z) (v : u8) :
  is_size_t o ->
  (WriteU8 o v sb = (Ok tt, store o v sb) /\ o + 1 <= Size sb) \/
  (exists e, WriteU8 o v sb = (Throw e, sb)).
Proof.
  intros Ho. unfold WriteU8, bindM, reading.
  destruct (RequireRange sb o 1) as [[]|e] eqn:E.
  - left. split; [reflexivity|].
    apply RequireRange_ok_inv in E; try assumption; try lia.
    apply small_is_size_t. lia.
  - right. eauto.
Qed.

Lemma lookup_splice (bytes field : list byte) (o i : nat) :
  (o + length field <= length bytes)%nat ->
  (i < o \/ o + length field <= i)%nat ->
  (take o bytes ++ field ++ drop (o + length field) bytes)%list !! i
    = bytes !! i.
Proof.
  intros Hlen Hout.
  assert (Ht : length (take o bytes) = o) by (rewrite length_take; lia).
  destruct Hout as [Hlo|Hhi].
  - rewrite lookup_app_l by lia. rewrite lookup_take.
    destruct (decide (i < o)%nat); [reflexivity | lia].
  - rewrite lookup_app_r by lia. rewrite lookup_app_r by lia.
    rewrite lookup_drop. f_equal. lia.
Qed.

Lemma EncodeName_frame (sb sb' : SaveBuffer) (off len : Z) (name : string)
  (r : result unit) :
  is_size_t (Size sb) -> is_size_t off -> is_size_t len ->
  Gen1TextCodec.EncodeName off len name sb = (r, sb') ->
  same_outside sb sb' off len.
Proof.
  intros Hsz Hoff Hlen Henc.
  destruct (Z.eq_dec len 0) as [-> | Hnz].
  - cbn in Henc. injection Henc as _ <-. apply same_outside_refl.
  - destruct (RequireRange sb off len) as [[]|e] eqn:E.
    + apply RequireRange_ok_inv in E;
        try assumption; [|unfold is_size_t in Hlen; lia].
      rewrite EncodeName_ok in Henc
        by (try assumption; unfold is_size_t in *; lia).
      injection Henc as _ <-.
      assert (Hfield : length (encoded_field name (Z.to_nat len))
                       = Z.to_nat len)
        by (apply length_encoded_field; unfold is_size_t in *; lia).
      split.
      * unfold Size in *. cbn [bytes_].
        rewrite !length_app, length_take, length_drop, Hfield.
        unfold is_size_t in *. lia.
      * intros i Hi Hout. unfold at_. cbn [bytes_].
        rewrite <- Hfield at 2.
        rewrite lookup_splice;
          [reflexivity | | ]; rewrite Hfield; unfold Size, is_size_t in *; lia.
    + unfold Gen1TextCodec.EncodeName, bindM, reading in Henc.
      destruct (len =? 0) eqn:E0; [lia|].
      destruct (Gen1TextCodec.scratch_vector sb len);
        [rewrite E in Henc|];
        injection Henc as _ <-; apply same_outside_refl.
Qed.

(** X3. Frame.  Whatever their outcome, the writes change no byte outside
    their own range and never change the size of the buffer: [WriteU8] and
    [SetBit] within one byte, [WriteU16LE] and [WriteBcd2] within two,
    [WriteU24BE] and [WriteBcd3] within three, [EncodeName] within the [len]
    bytes of its field.  For [WriteBcd2] and [WriteBcd3] this also bounds
    what a failed call may have written. *)
Theorem writes_touch_only_their_range (sb : SaveBuffer) (off : Z) :
  is_size_t (Size sb) -> is_size_t off ->
  (forall v r sb', WriteU8 off v sb = (r, sb') -> same_outside sb sb' off 1)
  /\ (forall bit value r sb',
        SetBit off bit value sb = (r, sb') -> same_outside sb sb' off 1)
  /\ (forall v r sb',
        WriteU16LE off v sb = (r, sb') -> same_outside sb sb' off 2)
  /\ (forall v r sb',
        WriteU24BE off v sb = (r, sb') -> same_outside sb sb' off 3)
  /\ (forall v r sb',
        BcdCodec.WriteBcd2 off v sb = (r, sb') -> same_outside sb sb' off 2)
  /\ (forall v r sb',
        BcdCodec.WriteBcd3 off v sb = (r, sb') -> same_outside sb sb' off 3)
  /\ (forall len name r sb', is_size_t len ->
        Gen1TextCodec.EncodeName off len name sb = (r, sb') ->
        same_outside sb sb' off len).
Proof.
  intros Hsz Hoff.
  assert (Hoff0 : 0 <= off) by (unfold is_size_t in Hoff; lia).
  split; [|split; [|split; [|split; [|split; [|split]]]]].
  - intros v r sb' H.
    destruct (WriteU8_cases sb off v Hoff) as [[E _]|[e E]];
      rewrite E in H; injection H as _ <-;
      [apply same_outside_store; lia | apply same_outside_refl].
  - intros bit value r sb' H. unfold SetBit in H.
    destruct (u8_to_Z bit >=? 8).
    { injection H as _ <-. apply same_outside_refl. }
    unfold bindM, reading in H.
    destruct (RequireRange sb off 1) as [[]|e].
    + destruct value; injection H as _ <-; apply same_outside_store; lia.
    + injection H as _ <-. apply same_outside_refl.
  - intros v r sb' H. unfold WriteU16LE, bindM, reading in H.
    destruct (RequireRange sb off 2) as [[]|e].
    + injection H as _ <-.
      eapply same_outside_trans; apply same_outside_store; lia.
    + injection H as _ <-. apply same_outside_refl.
  - intros v r sb' H. unfold WriteU24BE, bindM, reading in H.
    destruct (RequireRange sb off 3) as [[]|e].
    + injection H as _ <-.
      eapply same_outside_trans;
        [eapply same_outside_trans|]; apply same_outside_store; lia.
    + injection H as _ <-. apply same_outside_refl.
  - intros v r sb' H. unfold BcdCodec.WriteBcd2 in H.
    destruct (v >? 9999).
    { injection H as _ <-. apply same_outside_refl. }
    unfold bindM in H.
    match type of H with context [WriteU8 off ?b sb] =>
      destruct (WriteU8_cases sb off b Hoff) as [[E Hin]|[e E]];
        rewrite E in H
    end; [|injection H as _ <-; apply same_outside_refl].
    replace (size_add off 1) with (off + 1) in H
      by (symmetry; apply size_add_small; store_bounds).
    match type of H with context [WriteU8 (off + 1) ?b ?s] =>
      destruct (WriteU8_cases s (off + 1) b) as [[E1 _]|[e E1]];
        [store_bounds | |]; rewrite E1 in H
    end; injection H as _ <-.
    + eapply same_outside_trans; apply same_outside_store; lia.
    + apply same_outside_store; lia.
  - intros v r sb' H. unfold BcdCodec.WriteBcd3 in H.
    destruct (v >? 999999).
    { injection H as _ <-. apply same_outside_refl. }
    unfold bindM in H.
    match type of H with context [WriteU8 off ?b sb] =>
      destruct (WriteU8_cases sb off b Hoff) as [[E Hin]|[e E]];
        rewrite E in H
    end; [|injection H as _ <-; apply same_outside_refl].
    replace (size_add off 1) with (off + 1) in H
      by (symmetry; apply size_add_small; store_bounds).
    match type of H with context [WriteU8 (off + 1) ?b ?s] =>
      destruct (WriteU8_cases s (off + 1) b) as [[E1 Hin1]|[e E1]];
        [store_bounds | |]; rewrite E1 in H
    end; [|injection H as _ <-; apply same_outside_store; lia].
    rewrite Size_store in Hin1.
    replace (size_add off 2) with (off + 2) in H
      by (symmetry; apply size_add_small; store_bounds).
    match type of H with context [WriteU8 (off + 2) ?b ?s] =>
      destruct (WriteU8_cases s (off + 2) b) as [[E2 _]|[e E2]];
        [store_bounds | |]; rewrite E2 in H
    end; injection H as _ <-.
    + eapply same_outside_trans;
        [eapply same_outside_trans|]; apply same_outside_store; lia.
    + eapply same_outside_trans; apply same_outside_store; lia.
  - intros len name r sb' Hlen H. eapply EncodeName_frame; eassumption.
Qed.

(** X3 at work on a four-byte buffer; the last two writes fail, the
    packed-decimal one after writing two bytes. *)
Lemma writes_touch_only_their_range_witness :
  let sb := mkSaveBuffer [x00; x00; x00; x00] in
  same_outside sb (mkSaveBuffer [x00; xab; x00; x00]) 1 1 /\
  same_outside sb (mkSaveBuffer [x00; x80; x00; x00]) 1 1 /\
  same_outside sb (mkSaveBuffer [x00; xcd; xab; x00]) 1 2 /\
  same_outside sb (mkSaveBuffer [x00; x12; x34; x56]) 1 3 /\
  same_outside sb (mkSaveBuffer [x00; x12; x34; x00]) 1 2 /\
  same_outside sb (mkSaveBuffer [x00; x00; x12; x34]) 2 3 /\
  same_outside sb sb 3 2.
Proof.
  intros sb.
  assert (Hsz : is_size_t (Size sb)) by (split; [|reflexivity]; discriminate).
  assert (Ho : forall z, 0 <= z <= 4 -> is_size_t z)
    by (intros; apply small_is_size_t; lia).
  destruct (writes_touch_only_their_range sb 1 Hsz (Ho 1 ltac:(lia)))
    as (H8 & Hbit & H16 & H24 & Hb2 & _ & _).
  destruct (writes_touch_only_their_range sb 2 Hsz (Ho 2 ltac:(lia)))
    as (_ & _ & _ & _ & _ & Hb3 & _).
  destruct (writes_touch_only_their_range sb 3 Hsz (Ho 3 ltac:(lia)))
    as (_ & _ & _ & _ & _ & _ & Hname).
  split; [|split; [|split; [|split; [|split; [|split]]]]].
  - apply (H8 xab (Ok tt)). reflexivity.
  - apply (Hbit x07 true (Ok tt)). reflexivity.
  - apply (H16 0xABCD (Ok tt)). reflexivity.
  - apply (H24 0x123456 (Ok tt)). reflexivity.
  - apply (Hb2 1234 (Ok tt)). reflexivity.
  - apply (Hb3 123456
             (Throw (out_of_range "SaveBuffer: range out of range"))).
    reflexivity.
  - apply (Hname 2 "AB"
             (Throw (out_of_range "SaveBuffer: range out of range")));
      [apply Ho; lia | reflexivity].
Defined.

(** ** Bounded buffer: bits *)

Lemma land_pow2 (x k : Z) :
  0 <= k -> Z.land x (2 ^ k) = if Z.testbit x k then 2 ^ k else 0.
Proof.
  intros Hk. apply Z.bits_inj'. intros n Hn.
  rewrite Z.land_spec, Z.pow2_bits_eqb by assumption.
  destruct (Z.eqb_spec k n) as [->|Hne].
  - destruct (Z.testbit x n); cbn [andb].
    + now rewrite Z.pow2_bits_true.
    + now rewrite Z.bits_0.
  - rewrite andb_false_r.
    destruct (Z.testbit x k);
      [now rewrite Z.pow2_bits_false | now rewrite Z.bits_0].
Qed.

Lemma bit_mask_value (bit : u8) :
  u8_to_Z bit < 8 -> bit_mask bit = 2 ^ u8_to_Z bit.
Proof.
  intros Hb. pose proof (u8_to_Z_range bit) as Hr.
  unfold bit_mask. rewrite u8_to_Z_to_u8, Z.shiftl_mul_pow2 by lia.
  rewrite Z.mul_1_l. apply Z.mod_small. split; [lia|].
  change 256 with (2 ^ 8). apply Z.pow_lt_mono_r; lia.
Qed.

Lemma GetBit_value (sb : SaveBuffer) (off : Z) (bit : u8) :
  0 <= off < Size sb -> is_size_t (off + 1) -> u8_to_Z bit < 8 ->
  GetBit sb off bit =
    Ok (Z.testbit (u8_to_Z (at_ (bytes_ sb) off)) (u8_to_Z bit)).
Proof.
  intros Hin Hsz Hb. pose proof (u8_to_Z_range bit) as Hr.
  unfold GetBit. destruct (Z.geb_spec (u8_to_Z bit) 8); [lia|].
  rewrite RequireRange_ok by (assumption || lia). cbn [bind].
  rewrite bit_mask_value, land_pow2 by lia. f_equal.
  destruct (Z.testbit _ _); [|reflexivity].
  destruct (Z.eqb_spec (2 ^ u8_to_Z bit) 0) as [E|_]; [|reflexivity].
  pose proof (Z.pow_pos_nonneg 2 (u8_to_Z bit)). lia.
Qed.

Lemma SetBit_value (sb : SaveBuffer) (off : Z) (bit : u8) (value : bool) :
  0 <= off < Size sb -> is_size_t (off + 1) -> u8_to_Z bit < 8 ->
  exists b,
    SetBit off bit value sb = (Ok tt, store off b sb) /\
    forall k, 0 <= k < 8 ->
      Z.testbit (u8_to_Z b) k =
        if k =? u8_to_Z bit then value
        else Z.testbit (u8_to_Z (at_ (bytes_ sb) off)) k.
Proof.
  intros Hin Hsz Hb. pose proof (u8_to_Z_range bit) as Hr.
  unfold SetBit. destruct (Z.geb_spec (u8_to_Z bit) 8); [lia|].
  unfold bindM, reading.
  rewrite RequireRange_ok by (assumption || lia).
  rewrite bit_mask_value by assumption.
  set (old := u8_to_Z (at_ (bytes_ sb) off)).
  destruct value; eexists; (split; [reflexivity|]); intros k Hk;
    rewrite !u8_to_Z_to_u8; change 256 with (2 ^ 8);
    rewrite !Z.testbit_mod_pow2 by lia;
    destruct (Z.ltb_spec k 8); try lia; cbn [andb].
  - rewrite Z.lor_spec, Z.pow2_bits_eqb by lia.
    rewrite (Z.eqb_sym k). destruct (u8_to_Z bit =? k);
      [apply orb_true_r | apply orb_false_r].
  - rewrite Z.land_spec, Z.testbit_mod_pow2 by lia.
    destruct (Z.ltb_spec k 8); try lia; cbn [andb].
    rewrite Z.lnot_spec, Z.pow2_bits_eqb by lia.
    rewrite (Z.eqb_sym k). destruct (u8_to_Z bit =? k); cbn [negb];
      [apply andb_false_r | apply andb_true_r].
Qed.

(** X4. Bits.  At an offset in range and with a bit index 0..7, [GetBit]
    returns bit [bit] of the byte; after [SetBit off bit value] it returns
    [value] for that bit and what it returned before for the other seven.
    With a bit index of 8 or more both throw [std::out_of_range] for the
    index, and [SetBit] leaves the buffer alone. *)
Theorem bit_round_trip (sb : SaveBuffer) (off : Z) (bit : u8) (value : bool) :
  is_size_t (Size sb) -> 0 <= off < Size sb ->
  (u8_to_Z bit < 8 ->
     GetBit sb off bit =
       Ok (Z.testbit (u8_to_Z (at_ (bytes_ sb) off)) (u8_to_Z bit)) /\
     exists sb',
       SetBit off bit value sb = (Ok tt, sb') /\
       GetBit sb' off bit = Ok value /\
       forall bit', u8_to_Z bit' < 8 -> bit' <> bit ->
         GetBit sb' off bit' = GetBit sb off bit') /\
  (8 <= u8_to_Z bit ->
     GetBit sb off bit =
       Throw (out_of_range "SaveBuffer: bitIndex must be 0..7") /\
     SetBit off bit value sb =
       (Throw (out_of_range "SaveBuffer: bitIndex must be 0..7"), sb)).
Proof.
  intros Hsz Hin. split.
  - intros Hb. pose proof (u8_to_Z_range bit) as Hr.
    assert (Hs1 : is_size_t (off + 1)) by store_bounds.
    split; [now apply GetBit_value|].
    destruct (SetBit_value sb off bit value Hin Hs1 Hb) as (b & Hset & Hbits).
    exists (store off b sb). split; [exact Hset|]. split.
    + rewrite GetBit_value by (rewrite ?Size_store; assumption).
      rewrite at_store_eq by assumption. rewrite Hbits by lia.
      now rewrite Z.eqb_refl.
    + intros bit' Hb' Hne. pose proof (u8_to_Z_range bit') as Hr'.
      rewrite !GetBit_value by (rewrite ?Size_store; assumption).
      rewrite at_store_eq by assumption. rewrite Hbits by lia.
      destruct (Z.eqb_spec (u8_to_Z bit') (u8_to_Z bit)) as [E|_];
        [|reflexivity].
      exfalso. apply Hne.
      rewrite <- (to_u8_u8_to_Z bit'), <- (to_u8_u8_to_Z bit). now rewrite E.
  - intros Hb. unfold GetBit, SetBit, throw.
    destruct (Z.geb_spec (u8_to_Z bit) 8); [split; reflexivity | lia].
Qed.

(** X4 at work: bit 3 of a byte 0xF0 is set, bit 9 is refused. *)
Lemma bit_round_trip_witness :
  let sb := mkSaveBuffer [xf0] in
  (GetBit sb 0 x03 = Ok false /\
   exists sb', SetBit 0 x03 true sb = (Ok tt, sb') /\
     GetBit sb' 0 x03 = Ok true /\
     forall bit', u8_to_Z bit' < 8 -> bit' <> x03 ->
       GetBit sb' 0 bit' = GetBit sb 0 bit') /\
  (GetBit sb 0 x09 =
     Throw (out_of_range "SaveBuffer: bitIndex must be 0..7") /\
   SetBit 0 x09 true sb =
     (Throw (out_of_range "SaveBuffer: bitIndex must be 0..7"), sb)).
Proof.
  intros sb.
  assert (Hsz : is_size_t (Size sb)) by (split; [|reflexivity]; discriminate).
  assert (Hin : 0 <= 0 < Size sb) by (split; [lia | reflexivity]).
  split.
  - destruct (bit_round_trip sb 0 x03 true Hsz Hin) as (H & _).
    apply H. reflexivity.
  - destruct (bit_round_trip sb 0 x09 true Hsz Hin) as (_ & H).
    apply H. discriminate.
Defined.

(** ** Bounded buffer: slices *)

Lemma Slice_ok (sb : SaveBuffer) (off len : Z) :
  0 <= off -> 0 <= len -> off + len <= Size sb -> is_size_t (off + len) ->
  Slice sb off len =
    Ok (take (Z.to_nat len) (drop (Z.to_nat off) (bytes_ sb))).
Proof.
  intros. unfold Slice. now rewrite RequireRange_ok by assumption.
Qed.

(** X5. Slices.  For a range within the buffer, [Slice] returns exactly
    [len] bytes, the byte at position [i] being the one [ReadU8] returns at
    [off + i]; and a slice is the concatenation of the slices of two
    adjacent parts of its range. *)
Theorem slice_contents (sb : SaveBuffer) (off len : Z) :
  is_size_t (Size sb) -> 0 <= off -> 0 <= len -> off + len <= Size sb ->
  exists bs,
    Slice sb off len = Ok bs /\
    Z.of_nat (length bs) = len /\
    (forall i, 0 <= i < len -> ReadU8 sb (off + i) = Ok (at_ bs i)) /\
    (forall a b, 0 <= a -> 0 <= b -> a + b = len ->
       exists x y, Slice sb off a = Ok x /\ Slice sb (off + a) b = Ok y /\
                   bs = (x ++ y)%list).
Proof.
  intros Hsz Hoff Hlen Hin.
  eexists. split; [apply Slice_ok; store_bounds|].
  split; [|split].
  - rewrite length_take, length_drop. unfold Size in *. lia.
  - intros i Hi. rewrite ReadU8_ok by store_bounds. f_equal.
    unfold at_. rewrite lookup_take, lookup_drop.
    destruct (decide (Z.to_nat i < Z.to_nat len)%nat); [|lia].
    replace (Z.to_nat off + Z.to_nat i)%nat with (Z.to_nat (off + i)) by lia.
    reflexivity.
  - intros a b Ha Hb Hab.
    exists (take (Z.to_nat a) (drop (Z.to_nat off) (bytes_ sb))),
      (take (Z.to_nat b) (drop (Z.to_nat (off + a)) (bytes_ sb))).
    split; [apply Slice_ok; store_bounds|].
    split; [apply Slice_ok; store_bounds|].
    replace (Z.to_nat len) with (Z.to_nat a + Z.to_nat b)%nat by lia.
    rewrite <- take_take_drop. f_equal.
    rewrite drop_drop. f_equal. f_equal. lia.
Qed.

(** X5 at work: bytes 1..4 of a six-byte buffer. *)
Lemma slice_contents_witness :
  let sb := mkSaveBuffer [x10; x11; x12; x13; x14; x15] in
  exists bs,
    Slice sb 1 4 = Ok bs /\
    Z.of_nat (length bs) = 4 /\
    (forall i, 0 <= i < 4 -> ReadU8 sb (1 + i) = Ok (at_ bs i)) /\
    (forall a b, 0 <= a -> 0 <= b -> a + b = 4 ->
       exists x y, Slice sb 1 a = Ok x /\ Slice sb (1 + a) b = Ok y /\
                   bs = (x ++ y)%list).
Proof.
  intros sb.
  assert (Hsz : is_size_t (Size sb)) by (split; [|reflexivity]; discriminate).
  apply (slice_contents sb 1 4 Hsz); [lia | lia | discriminate].
Defined.

(** ** Layout: the twelve box blocks *)

(** X6. Box layout.  For box indices 1..12: the computed base offset is
    the hard-coded [BoxNOff] constant of the box; the block of [0x462]
    bytes starts at or after the base of the box's bank and ends before the
    bank's all-checksum byte, which the helper
    [BankAllChecksumOffsetForBoxIndex1to12] returns; the box's own checksum
    byte comes after the all-checksum byte and still inside the bank; and
    the blocks, and the checksum bytes, of two different boxes never
    overlap. *)
Theorem box_blocks_layout (i j : Z) :
  1 <= i <= 12 -> 1 <= j <= 12 ->
  exists bi bj,
    Gen1Layout.BoxBaseOffsetByIndex1to12 i = Ok bi /\
    Gen1Layout.BoxBaseOffsetByIndex1to12 j = Ok bj /\
    nth (Z.to_nat (i - 1)) named_box_offsets 0 = bi /\
    Gen1Layout.BankAllChecksumOffsetForBoxIndex1to12 i
      = Ok (Gen1Checksum.bank_checksum_off (bank_of_box i)) /\
    bank_base (bank_of_box i) <= bi /\
    bi + Gen1Layout.BoxBlockSize
      <= Gen1Checksum.bank_checksum_off (bank_of_box i) /\
    Gen1Checksum.bank_checksum_off (bank_of_box i) < box_checksum_off i /\
    box_checksum_off i
      < bank_base (bank_of_box i) + Gen1Layout.BankSize /\
    (i <> j ->
       (bi + Gen1Layout.BoxBlockSize <= bj \/
        bj + Gen1Layout.BoxBlockSize <= bi) /\
       box_checksum_off i <> box_checksum_off j).
Proof.
  intros Hi Hj.
  rewrite !box_base_in_range by assumption.
  destruct (box_checksum_off_value i Hi) as [Hci _].
  destruct (box_checksum_off_value j Hj) as [Hcj _].
  eexists _, _. split; [reflexivity|]. split; [reflexivity|].
  rewrite Hci, Hcj.
  unfold Gen1Layout.BankAllChecksumOffsetForBoxIndex1to12, bank_of_box,
    bank_base, Gen1Checksum.bank_checksum_off, Gen1Layout.BoxBlockSize,
    Gen1Layout.BankSize, Gen1Layout.Bank2Base, Gen1Layout.Bank3Base,
    Gen1Layout.Bank2AllChecksumOff, Gen1Layout.Bank3AllChecksumOff.
  destruct (i <? 1) eqn:E1; [lia|]. destruct (i >? 12) eqn:E2; [lia|].
  cbn [orb].
  split.
  { assert (Hcases : i = 1 \/ i = 2 \/ i = 3 \/ i = 4 \/ i = 5 \/ i = 6 \/
                     i = 7 \/ i = 8 \/ i = 9 \/ i = 10 \/ i = 11 \/ i = 12)
      by lia.
    repeat (destruct Hcases as [->|Hcases]; [reflexivity|]).
    subst i. reflexivity. }
  destruct (Z.leb_spec i 6); destruct (Z.leb_spec j 6);
    cbn [Z.eqb Pos.eqb]; repeat split; try lia.
Qed.

(** X6 at work: boxes 6 and 7, the last of bank 2 and the first of
    bank 3. *)
Lemma box_blocks_layout_witness :
  exists bi bj,
    Gen1Layout.BoxBaseOffsetByIndex1to12 6 = Ok bi /\
    Gen1Layout.BoxBaseOffsetByIndex1to12 7 = Ok bj /\
    nth (Z.to_nat (6 - 1)) named_box_offsets 0 = bi /\
    Gen1Layout.BankAllChecksumOffsetForBoxIndex1to12 6
      = Ok (Gen1Checksum.bank_checksum_off (bank_of_box 6)) /\
    bank_base (bank_of_box 6) <= bi /\
    bi + Gen1Layout.BoxBlockSize
      <= Gen1Checksum.bank_checksum_off (bank_of_box 6) /\
    Gen1Checksum.bank_checksum_off (bank_of_box 6) < box_checksum_off 6 /\
    box_checksum_off 6
      < bank_base (bank_of_box 6) + Gen1Layout.BankSize /\
    (bi + Gen1Layout.BoxBlockSize <= bj \/
     bj + Gen1Layout.BoxBlockSize <= bi) /\
    box_checksum_off 6 <> box_checksum_off 7.
Proof.
  destruct (box_blocks_layout 6 7 ltac:(lia) ltac:(lia))
    as (bi & bj & H1 & H2 & H3 & H4 & H5 & H6 & H7 & H8 & H9).
  exists bi, bj. repeat split; try assumption; apply H9; lia.
Defined.

(** ** Text codec: alphabet, truncation, padding *)

(** X7. The two character maps.  [AsciiToByte] never produces the
    terminator: it always gives a content byte, which decodes to the
    case-normalised character when the character is a letter, a digit or a
    space, and to a space otherwise.  [ByteToAscii] gives an uppercase
    letter, a digit or a space on a content byte, NUL on the terminator
    and the placeholder '?' on every other byte; and [AsciiToByte] undoes
    it on content bytes. *)
Theorem char_maps (c : ascii) (b : u8) :
  (is_content_byte (Gen1TextCodec.AsciiToByte c) = true /\
   Gen1TextCodec.AsciiToByte c <> TERMINATOR /\
   Gen1TextCodec.ByteToAscii (Gen1TextCodec.AsciiToByte c)
     = normalise_char c /\
   Gen1TextCodec.AsciiToByte
     (Gen1TextCodec.ByteToAscii (Gen1TextCodec.AsciiToByte c))
     = Gen1TextCodec.AsciiToByte c) /\
  (if is_content_byte b
   then Gen1TextCodec.AsciiToByte (Gen1TextCodec.ByteToAscii b) = b /\
        is_name_char (Gen1TextCodec.ByteToAscii b) = true /\
        to_upper (Gen1TextCodec.ByteToAscii b) = Gen1TextCodec.ByteToAscii b
   else Gen1TextCodec.ByteToAscii b
          = (if Byte.eqb b TERMINATOR then NUL else "?"%char)).
Proof.
  split.
  - destruct c as [[] [] [] [] [] [] [] []]; vm_compute;
      (split; [reflexivity|]); (split; [discriminate|]); split; reflexivity.
  - destruct b; vm_compute; try reflexivity; repeat split; reflexivity.
Qed.

Lemma codec_char_any (c : ascii) :
  Gen1TextCodec.ByteToAscii (Gen1TextCodec.AsciiToByte c) = normalise_char c
  /\ Ascii.eqb (normalise_char c) NUL = false.
Proof.
  destruct c as [[] [] [] [] [] [] [] []]; vm_compute; split; reflexivity.
Qed.

Lemma decode_encoded_any (cs : list ascii) :
  forall (rest : list byte) (acc : string),
    Gen1TextCodec.decode_loop
      ((Gen1TextCodec.AsciiToByte <$> cs) ++ TERMINATOR :: rest)%list acc
    = (acc ++ normalised (string_of_list_ascii cs))%string.
Proof.
  induction cs as [|c cs IH]; intros rest acc.
  - cbn. now rewrite string_app_nil.
  - destruct (codec_char_any c) as [Hn Hnz].
    cbn [fmap list_fmap app Gen1TextCodec.decode_loop
         string_of_list_ascii normalised].
    rewrite Hn, Hnz, IH. apply string_app_cons.
Qed.

Lemma char_at_prefix (name : string) :
  forall m : nat,
    Gen1TextCodec.char_at name <$> seq 0 (Nat.min (String.length name) m)
    = list_ascii_of_string (substring 0 m name).
Proof.
  induction name as [|c name IH]; intros m.
  - destruct m; reflexivity.
  - destruct m as [|m]; [reflexivity|].
    cbn [String.length Nat.min seq substring list_ascii_of_string].
    rewrite fmap_cons, <- fmap_S_seq, <- list_fmap_compose.
    f_equal. apply IH.
Qed.

Lemma DecodeName_encoded (sb : SaveBuffer) (off len : Z) (name : string) :
  is_size_t (Size sb) -> 0 <= off -> 1 <= len -> off + len <= Size sb ->
  Gen1TextCodec.DecodeName
    (mkSaveBuffer
       (take (Z.to_nat off) (bytes_ sb)
        ++ encoded_field name (Z.to_nat len)
        ++ drop (Z.to_nat off + Z.to_nat len) (bytes_ sb))%list) off len =
    Ok (normalised (substring 0 (Z.to_nat (len - 1)) name)).
Proof.
  intros Hsz Hoff Hlen Hin.
  set (field := encoded_field name (Z.to_nat len)).
  set (pre := take (Z.to_nat off) (bytes_ sb)).
  set (post := drop (Z.to_nat off + Z.to_nat len) (bytes_ sb)).
  assert (Hfield : length field = Z.to_nat len)
    by (subst field; apply length_encoded_field; lia).
  assert (Hpre : length pre = Z.to_nat off)
    by (subst pre; rewrite length_take; unfold Size in Hin; lia).
  assert (Hsize : Size (mkSaveBuffer (pre ++ field ++ post)) = Size sb).
  { unfold Size in *. cbn [bytes_]. subst post.
    rewrite !length_app, length_drop, Hpre, Hfield. lia. }
  unfold Gen1TextCodec.DecodeName.
  rewrite Slice_ok by (rewrite ?Hsize; store_bounds).
  cbn [bind bytes_].
  rewrite (drop_app_length' pre _ (Z.to_nat off)) by (now rewrite Hpre).
  rewrite (take_app_length' field post (Z.to_nat len))
    by (now rewrite Hfield).
  f_equal. subst field. unfold encoded_field.
  replace (Z.to_nat len - 1)%nat with (Z.to_nat (len - 1)) by lia.
  rewrite char_at_prefix.
  set (n := Nat.min (String.length name) (Z.to_nat (len - 1))).
  replace (Z.to_nat len - n)%nat with (S (Z.to_nat len - n - 1)) by lia.
  cbn [replicate]. rewrite decode_encoded_any.
  now rewrite string_of_list_ascii_of_string.
Qed.

(** X8. Encode, then decode, for any name and any field.  On a field of
    [len >= 1] bytes within the buffer, [EncodeName] succeeds and
    [DecodeName] of the field then returns the first [len - 1] characters
    of the name (all of it when it is shorter), each letter in uppercase,
    digits and spaces kept, every other character turned into a space. *)
Theorem encode_decode_any (sb : SaveBuffer) (off len : Z) (name : string) :
  is_size_t (Size sb) -> 0 <= off -> 1 <= len -> off + len <= Size sb ->
  exists sb',
    Gen1TextCodec.EncodeName off len name sb = (Ok tt, sb') /\
    Gen1TextCodec.DecodeName sb' off len =
      Ok (normalised (substring 0 (Z.to_nat (len - 1)) name)).
Proof.
  intros Hsz Hoff Hlen Hin.
  exists (mkSaveBuffer
            (take (Z.to_nat off) (bytes_ sb)
             ++ encoded_field name (Z.to_nat len)
             ++ drop (Z.to_nat off + Z.to_nat len) (bytes_ sb))%list).
  split.
  - now apply EncodeName_ok.
  - now apply DecodeName_encoded.
Qed.

(** X8 at work: a name too long for a six-byte field, with a lowercase
    letter and a hyphen. *)
Lemma encode_decode_any_witness :
  let sb := mkSaveBuffer (replicate 8 x00) in
  exists sb',
    Gen1TextCodec.EncodeName 1 6 "Ho-Oh 2000" sb = (Ok tt, sb') /\
    Gen1TextCodec.DecodeName sb' 1 6 = Ok "HO OH".
Proof.
  intros sb.
  assert (Hsz : is_size_t (Size sb)) by (split; [|reflexivity]; discriminate).
  apply (encode_decode_any sb 1 6 "Ho-Oh 2000" Hsz);
    [lia | lia | discriminate].
Defined.

Lemma lookup_encoded_field (name : string) (len k : nat) :
  (1 <= len)%nat -> (k < len)%nat ->
  encoded_field name len !! k =
    Some (if (k <? Nat.min (String.length name) (len - 1))%nat
          then Gen1TextCodec.AsciiToByte (Gen1TextCodec.char_at name k)
          else TERMINATOR).
Proof.
  intros Hlen Hk. unfold encoded_field.
  set (n := Nat.min (String.length name) (len - 1)).
  destruct (Nat.ltb_spec k n) as [Hlt|Hge].
  - rewrite lookup_app_l by (rewrite !length_fmap, length_seq; lia).
    rewrite !list_lookup_fmap, lookup_seq_lt by lia. reflexivity.
  - rewrite lookup_app_r by (rewrite !length_fmap, length_seq; lia).
    rewrite !length_fmap, length_seq.
    now rewrite lookup_replicate_2 by lia.
Qed.

(** X9. What [EncodeName] leaves in the field.  With [len = 0] it does
    nothing and succeeds at any offset, also beyond the buffer.  The
    scratch vector is built before the range is checked: with a length
    beyond the limit of a vector the call throws [std::length_error],
    whatever the offset, and leaves the buffer alone.  With a field of
    [len >= 1] bytes, no longer than the buffer itself, that reaches past
    the end of the buffer it throws [std::out_of_range] and leaves the
    buffer alone.  With the field in range it succeeds, keeps the size of
    the buffer, stores the codes of the first [min (size, len - 1)]
    characters and fills the rest of the field, up to its last byte, with
    terminators. *)
Theorem encode_name_field (sb : SaveBuffer) (off len : Z) (name : string) :
  Gen1TextCodec.EncodeName off 0 name sb = (Ok tt, sb) /\
  (Size sb <= 2 ^ 63 - 1 -> 2 ^ 63 - 1 < len ->
     exists what,
       Gen1TextCodec.EncodeName off len name sb =
         (Throw (length_error what), sb)) /\
  (is_size_t (Size sb) -> is_size_t off -> 1 <= len <= Size sb ->
   off + len > Size sb ->
     fails_unchanged (Gen1TextCodec.EncodeName off len name) sb) /\
  (is_size_t (Size sb) -> 0 <= off -> 1 <= len -> off + len <= Size sb ->
     exists sb',
       Gen1TextCodec.EncodeName off len name sb = (Ok tt, sb') /\
       Size sb' = Size sb /\
       forall k, 0 <= k < len ->
         ReadU8 sb' (off + k) =
           Ok (if k <? Z.min (Z.of_nat (String.length name)) (len - 1)
               then Gen1TextCodec.AsciiToByte
                      (Gen1TextCodec.char_at name (Z.to_nat k))
               else TERMINATOR)).
Proof.
  split; [reflexivity|]. split; [|split].
  - intros Hsize Hbig. unfold Gen1TextCodec.EncodeName.
    destruct (Z.eqb_spec len 0) as [E|_]; [lia|].
    unfold bindM, reading, Gen1TextCodec.scratch_vector,
      Gen1TextCodec.vector_max_size.
    destruct (Z.gtb_spec len (Z.max (2 ^ 63 - 1) (Size sb))); [|lia].
    eexists. reflexivity.
  - intros Hsz Hoff Hlen Hout.
    unfold fails_unchanged, Gen1TextCodec.EncodeName.
    destruct (Z.eqb_spec len 0) as [E|_]; [lia|].
    unfold bindM, reading. rewrite scratch_vector_ok by lia.
    destruct (RequireRange_fails sb off len) as [what ->];
      [assumption | unfold is_size_t in *; lia | lia | assumption |].
    exists what. reflexivity.
  - intros Hsz Hoff Hlen Hin.
    eexists. split; [apply EncodeName_ok; assumption|].
    set (field := encoded_field name (Z.to_nat len)).
    set (pre := take (Z.to_nat off) (bytes_ sb)).
    set (post := drop (Z.to_nat off + Z.to_nat len) (bytes_ sb)).
    assert (Hfield : length field = Z.to_nat len)
      by (subst field; apply length_encoded_field; lia).
    assert (Hpre : length pre = Z.to_nat off)
      by (subst pre; rewrite length_take; unfold Size in Hin; lia).
    assert (Hsize : Size (mkSaveBuffer (pre ++ field ++ post)) = Size sb).
    { unfold Size in *. cbn [bytes_]. subst post.
      rewrite !length_app, length_drop, Hpre, Hfield. lia. }
    split; [exact Hsize|].
    intros k Hk. rewrite ReadU8_ok by (rewrite ?Hsize; store_bounds).
    f_equal. unfold at_. cbn [bytes_].
    replace (Z.to_nat (off + k)) with (length pre + Z.to_nat k)%nat by lia.
    rewrite lookup_app_r by lia.
    replace (length pre + Z.to_nat k - length pre)%nat with (Z.to_nat k)
      by lia.
    rewrite lookup_app_l by lia.
    subst field. rewrite lookup_encoded_field by lia.
    destruct (Nat.ltb_spec (Z.to_nat k)
                (Nat.min (String.length name) (Z.to_nat len - 1)));
      destruct (Z.ltb_spec k
                  (Z.min (Z.of_nat (String.length name)) (len - 1)));
      try lia; reflexivity.
Qed.

(** X9 at work on a buffer of eight bytes: a length of 2^63, a five-byte
    field that starts at offset 4, and a two-letter name in a five-byte
    field at offset 3. *)
Lemma encode_name_field_witness :
  let sb := mkSaveBuffer (replicate 8 xff) in
  (exists what,
     Gen1TextCodec.EncodeName 0 9223372036854775808 "AB" sb =
       (Throw (length_error what), sb)) /\
  fails_unchanged (Gen1TextCodec.EncodeName 4 5 "AB") sb /\
  exists sb',
    Gen1TextCodec.EncodeName 3 5 "AB" sb = (Ok tt, sb') /\
    Size sb' = Size sb /\
    forall k, 0 <= k < 5 ->
      ReadU8 sb' (3 + k) =
        Ok (if k <? Z.min (Z.of_nat (String.length "AB")) (5 - 1)
            then Gen1TextCodec.AsciiToByte
                   (Gen1TextCodec.char_at "AB" (Z.to_nat k))
            else TERMINATOR).
Proof.
  intros sb.
  assert (Hsz : is_size_t (Size sb)) by (split; [|reflexivity]; discriminate).
  split; [|split].
  - destruct (encode_name_field sb 0 9223372036854775808 "AB")
      as (_ & H & _).
    apply H; [discriminate | reflexivity].
  - destruct (encode_name_field sb 4 5 "AB") as (_ & _ & H & _).
    apply H; [exact Hsz | apply small_is_size_t; lia
             | split; discriminate | reflexivity].
  - destruct (encode_name_field sb 3 5 "AB") as (_ & _ & _ & H).
    apply H; [exact Hsz | lia | lia | discriminate].
Defined.

(** ** Text codec: what decoding returns *)

Lemma string_length_app (a b : string) :
  String.length (a ++ b)%string = (String.length a + String.length b)%nat.
Proof. induction a as [|x a IH]; cbn; [reflexivity | now rewrite IH]. Qed.

Lemma string_forallb_app (p : ascii -> bool) (a b : string) :
  string_forallb p (a ++ b)%string
    = string_forallb p a && string_forallb p b.
Proof.
  induction a as [|x a IH]; cbn; [reflexivity|].
  rewrite IH. now rewrite andb_assoc.
Qed.

Lemma decoded_byte (b : u8) :
  Ascii.eqb (Gen1TextCodec.ByteToAscii b) NUL = Byte.eqb b TERMINATOR /\
  (Byte.eqb b TERMINATOR = false ->
   is_decoded_char (Gen1TextCodec.ByteToAscii b) = true).
Proof. destruct b; vm_compute; split; try reflexivity; discriminate. Qed.

Lemma decode_loop_facts (bytes : list byte) :
  forall acc : string,
    string_forallb is_decoded_char acc = true ->
    (String.length (Gen1TextCodec.decode_loop bytes acc)
       <= String.length acc + length bytes)%nat /\
    string_forallb is_decoded_char (Gen1TextCodec.decode_loop bytes acc)
      = true /\
    (forall k, bytes !! k = Some TERMINATOR ->
       (String.length (Gen1TextCodec.decode_loop bytes acc)
          <= String.length acc + k)%nat).
Proof.
  induction bytes as [|b bytes IH]; intros acc Hacc.
  - cbn. repeat split; [lia | assumption | intros k Hk; discriminate].
  - cbn [Gen1TextCodec.decode_loop length].
    destruct (decoded_byte b) as [Hnul Hdec]. rewrite Hnul.
    destruct (Byte.eqb b TERMINATOR) eqn:Eb.
    + repeat split; [lia | assumption | intros; lia].
    + destruct (IH (acc ++ String (Gen1TextCodec.ByteToAscii b) "")%string)
        as (Hlen & Hall & Hstop).
      { rewrite string_forallb_app, Hacc. cbn. now rewrite Hdec. }
      rewrite string_length_app in *. cbn [String.length] in *.
      repeat split; [lia | assumption |].
      intros k Hk. destruct k as [|k].
      * cbn in Hk. injection Hk as ->.
        now rewrite byte_eqb_refl in Eb.
      * specialize (Hstop k Hk). lia.
Qed.



(** ** Packed decimal: tolerant reads, stable rewrites *)

Lemma bcdDigit_range (n : u8) : 0 <= BcdCodec.bcdDigit n <= 9.
Proof.
  unfold BcdCodec.bcdDigit. pose proof (u8_to_Z_range n).
  destruct (Z.leb_spec (u8_to_Z n) 9); [|lia].
  unfold to_u32. rewrite Z.mod_small by lia. lia.
Qed.

Lemma ReadBcd3_in_range (sb : SaveBuffer) (off : Z) :
  is_size_t (Size sb) -> 0 <= off -> off + 3 <= Size sb ->
  BcdCodec.ReadBcd3 sb off =
    Ok (BcdCodec.bcdDigit (BcdCodec.hi_nibble (at_ (bytes_ sb) off)) * 100000
        + BcdCodec.bcdDigit (BcdCodec.lo_nibble (at_ (bytes_ sb) off)) * 10000
        + BcdCodec.bcdDigit (BcdCodec.hi_nibble (at_ (bytes_ sb) (off + 1)))
          * 1000
        + BcdCodec.bcdDigit (BcdCodec.lo_nibble (at_ (bytes_ sb) (off + 1)))
          * 100
        + BcdCodec.bcdDigit (BcdCodec.hi_nibble (at_ (bytes_ sb) (off + 2)))
          * 10
        + BcdCodec.bcdDigit (BcdCodec.lo_nibble (at_ (bytes_ sb) (off + 2)))).
Proof.
  intros Hsz Hoff Hin. unfold BcdCodec.ReadBcd3.
  replace (size_add off 1) with (off + 1)
    by (symmetry; apply size_add_small; store_bounds).
  replace (size_add off 2) with (off + 2)
    by (symmetry; apply size_add_small; store_bounds).
  rewrite !ReadU8_ok by store_bounds. cbn [bind]. f_equal.
  pose proof (bcdDigit_range (BcdCodec.hi_nibble (at_ (bytes_ sb) off))).
  pose proof (bcdDigit_range (BcdCodec.lo_nibble (at_ (bytes_ sb) off))).
  pose proof (bcdDigit_range
                (BcdCodec.hi_nibble (at_ (bytes_ sb) (off + 1)))).
  pose proof (bcdDigit_range
                (BcdCodec.lo_nibble (at_ (bytes_ sb) (off + 1)))).
  pose proof (bcdDigit_range
                (BcdCodec.hi_nibble (at_ (bytes_ sb) (off + 2)))).
  pose proof (bcdDigit_range
                (BcdCodec.lo_nibble (at_ (bytes_ sb) (off + 2)))).
  unfold to_u32. apply Z.mod_small. lia.
Qed.

Lemma ReadBcd2_in_range (sb : SaveBuffer) (off : Z) :
  is_size_t (Size sb) -> 0 <= off -> off + 2 <= Size sb ->
  BcdCodec.ReadBcd2 sb off =
    Ok (BcdCodec.bcdDigit (BcdCodec.hi_nibble (at_ (bytes_ sb) off)) * 1000
        + BcdCodec.bcdDigit (BcdCodec.lo_nibble (at_ (bytes_ sb) off)) * 100
        + BcdCodec.bcdDigit (BcdCodec.hi_nibble (at_ (bytes_ sb) (off + 1)))
          * 10
        + BcdCodec.bcdDigit (BcdCodec.lo_nibble (at_ (bytes_ sb) (off + 1)))).
Proof.
  intros Hsz Hoff Hin. unfold BcdCodec.ReadBcd2.
  replace (size_add off 1) with (off + 1)
    by (symmetry; apply size_add_small; store_bounds).
  rewrite !ReadU8_ok by store_bounds. cbn [bind]. f_equal.
  pose proof (bcdDigit_range (BcdCodec.hi_nibble (at_ (bytes_ sb) off))).
  pose proof (bcdDigit_range (BcdCodec.lo_nibble (at_ (bytes_ sb) off))).
  pose proof (bcdDigit_range
                (BcdCodec.hi_nibble (at_ (bytes_ sb) (off + 1)))).
  pose proof (bcdDigit_range
                (BcdCodec.lo_nibble (at_ (bytes_ sb) (off + 1)))).
  unfold to_u32, to_u16.
  rewrite (Z.mod_small _ (2 ^ 32)) by lia. apply Z.mod_small. lia.
Qed.



Lemma store_same (sb : SaveBuffer) (off : Z) :
  0 <= off < Size sb -> store off (at_ (bytes_ sb) off) sb = sb.
Proof.
  intros H. destruct sb as [bs]. unfold store, at_, Size in *.
  cbn [bytes_] in *. f_equal.
  destruct (bs !! Z.to_nat off) as [b|] eqn:E.
  - now apply list_insert_id.
  - apply lookup_ge_None in E. lia.
Qed.

Lemma bcd_byte_canonical (b : u8) :
  is_bcd_byte b = true ->
  to_u8 (Z.lor (Z.shiftl (BcdCodec.bcdDigit (BcdCodec.hi_nibble b)) 4)
           (BcdCodec.bcdDigit (BcdCodec.lo_nibble b))) = b.
Proof. destruct b; intros H; try discriminate H; reflexivity. Qed.

Lemma digit_extract (hi d lo k : Z) :
  0 < k -> 0 <= lo < k -> 0 <= d <= 9 ->
  (((hi * 10 + d) * k + lo) / k) mod 10 = d.
Proof.
  intros Hk Hlo Hd.
  rewrite Z.div_add_l by lia. rewrite (Z.div_small lo k) by lia.
  rewrite Z.add_0_r, Z.add_comm, Z.mod_add by lia.
  apply Z.mod_small. lia.
Qed.

Lemma digits_of_six (d0 d1 d2 d3 d4 d5 : Z) :
  0 <= d0 <= 9 -> 0 <= d1 <= 9 -> 0 <= d2 <= 9 ->
  0 <= d3 <= 9 -> 0 <= d4 <= 9 -> 0 <= d5 <= 9 ->
  let v := d0 * 100000 + d1 * 10000 + d2 * 1000 + d3 * 100 + d4 * 10 + d5 in
  (v / 100000) mod 10 = d0 /\ (v / 10000) mod 10 = d1 /\
  (v / 1000) mod 10 = d2 /\ (v / 100) mod 10 = d3 /\
  (v / 10) mod 10 = d4 /\ v mod 10 = d5.
Proof.
  intros H0 H1 H2 H3 H4 H5 v. subst v.
  split; [|split; [|split; [|split; [|split]]]].
  - rewrite <- (digit_extract 0 d0
                  (d1 * 10000 + d2 * 1000 + d3 * 100 + d4 * 10 + d5) 100000)
      at 2 by lia.
    do 2 f_equal. ring.
  - rewrite <- (digit_extract d0 d1
                  (d2 * 1000 + d3 * 100 + d4 * 10 + d5) 10000) at 2 by lia.
    do 2 f_equal. ring.
  - rewrite <- (digit_extract (d0 * 10 + d1) d2
                  (d3 * 100 + d4 * 10 + d5) 1000) at 2 by lia.
    do 2 f_equal. ring.
  - rewrite <- (digit_extract (d0 * 100 + d1 * 10 + d2) d3
                  (d4 * 10 + d5) 100) at 2 by lia.
    do 2 f_equal. ring.
  - rewrite <- (digit_extract (d0 * 1000 + d1 * 100 + d2 * 10 + d3) d4
                  d5 10) at 2 by lia.
    do 2 f_equal. ring.
  - rewrite <- (digit_extract
                  (d0 * 10000 + d1 * 1000 + d2 * 100 + d3 * 10 + d4) d5
                  0 1) at 2 by lia.
    rewrite Z.div_1_r. f_equal. ring.
Qed.

Lemma digits_of_four (d0 d1 d2 d3 : Z) :
  0 <= d0 <= 9 -> 0 <= d1 <= 9 -> 0 <= d2 <= 9 -> 0 <= d3 <= 9 ->
  let v := d0 * 1000 + d1 * 100 + d2 * 10 + d3 in
  (v / 1000) mod 10 = d0 /\ (v / 100) mod 10 = d1 /\
  (v / 10) mod 10 = d2 /\ v mod 10 = d3.
Proof.
  intros H0 H1 H2 H3 v. subst v.
  split; [|split; [|split]].
  - rewrite <- (digit_extract 0 d0 (d1 * 100 + d2 * 10 + d3) 1000)
      at 2 by lia.
    do 2 f_equal. ring.
  - rewrite <- (digit_extract d0 d1 (d2 * 10 + d3) 100) at 2 by lia.
    do 2 f_equal. ring.
  - rewrite <- (digit_extract (d0 * 10 + d1) d2 d3 10) at 2 by lia.
    do 2 f_equal. ring.
  - rewrite <- (digit_extract (d0 * 100 + d1 * 10 + d2) d3 0 1) at 2 by lia.
    rewrite Z.div_1_r. f_equal. ring.
Qed.

(** X12. Reading a packed-decimal field and writing the value back.  With
    the bytes in range the write of a value just read always succeeds, the
    field then reads as the same value, and when every nibble of the field
    is a decimal digit the buffer is exactly what it was. *)
Theorem bcd_rewrite_stable (sb : SaveBuffer) (off : Z) :
  is_size_t (Size sb) -> 0 <= off ->
  (off + 3 <= Size sb ->
     exists v sb',
       BcdCodec.ReadBcd3 sb off = Ok v /\
       BcdCodec.WriteBcd3 off v sb = (Ok tt, sb') /\
       BcdCodec.ReadBcd3 sb' off = Ok v /\
       (forallb is_bcd_byte
          [at_ (bytes_ sb) off; at_ (bytes_ sb) (off + 1);
           at_ (bytes_ sb) (off + 2)] = true -> sb' = sb)) /\
  (off + 2 <= Size sb ->
     exists v sb',
       BcdCodec.ReadBcd2 sb off = Ok v /\
       BcdCodec.WriteBcd2 off v sb = (Ok tt, sb') /\
       BcdCodec.ReadBcd2 sb' off = Ok v /\
       (forallb is_bcd_byte
          [at_ (bytes_ sb) off; at_ (bytes_ sb) (off + 1)] = true ->
        sb' = sb)).
Proof.
  intros Hsz Hoff. split.
  - intros Hin.
    set (b0 := at_ (bytes_ sb) off). set (b1 := at_ (bytes_ sb) (off + 1)).
    set (b2 := at_ (bytes_ sb) (off + 2)).
    pose proof (bcdDigit_range (BcdCodec.hi_nibble b0)) as R0.
    pose proof (bcdDigit_range (BcdCodec.lo_nibble b0)) as R1.
    pose proof (bcdDigit_range (BcdCodec.hi_nibble b1)) as R2.
    pose proof (bcdDigit_range (BcdCodec.lo_nibble b1)) as R3.
    pose proof (bcdDigit_range (BcdCodec.hi_nibble b2)) as R4.
    pose proof (bcdDigit_range (BcdCodec.lo_nibble b2)) as R5.
    pose proof (digits_of_six _ _ _ _ _ _ R0 R1 R2 R3 R4 R5) as D.
    cbv zeta in D. destruct D as (D0 & D1 & D2 & D3 & D4 & D5).
    eexists. eexists. split; [apply ReadBcd3_in_range; assumption|].
    fold b0 b1 b2.
    split; [apply WriteBcd3_ok; try assumption; lia|].
    rewrite D0, D1, D2, D3, D4, D5. split.
    + rewrite ReadBcd3_in_range by store_bounds.
      rewrite at_store_eq by store_bounds.
      rewrite (at_store_ne _ (off + 2) (off + 1)) by lia.
      rewrite at_store_eq by store_bounds.
      rewrite (at_store_ne _ (off + 2) off) by lia.
      rewrite (at_store_ne _ (off + 1) off) by lia.
      rewrite at_store_eq by store_bounds.
      destruct (bcd_byte_digits _ _ R0 R1) as [-> ->].
      destruct (bcd_byte_digits _ _ R2 R3) as [-> ->].
      destruct (bcd_byte_digits _ _ R4 R5) as [-> ->].
      reflexivity.
    + cbn [forallb]. rewrite !andb_true_iff. intros (B0 & B1 & B2 & _).
      rewrite !bcd_byte_canonical by assumption.
      unfold b0. rewrite store_same by lia.
      unfold b1. rewrite store_same by lia.
      unfold b2. apply store_same. lia.
  - intros Hin.
    set (b0 := at_ (bytes_ sb) off). set (b1 := at_ (bytes_ sb) (off + 1)).
    pose proof (bcdDigit_range (BcdCodec.hi_nibble b0)) as R0.
    pose proof (bcdDigit_range (BcdCodec.lo_nibble b0)) as R1.
    pose proof (bcdDigit_range (BcdCodec.hi_nibble b1)) as R2.
    pose proof (bcdDigit_range (BcdCodec.lo_nibble b1)) as R3.
    pose proof (digits_of_four _ _ _ _ R0 R1 R2 R3) as D.
    cbv zeta in D. destruct D as (D0 & D1 & D2 & D3).
    eexists. eexists. split; [apply ReadBcd2_in_range; assumption|].
    fold b0 b1.
    split; [apply WriteBcd2_ok; try assumption; lia|].
    rewrite D0, D1, D2, D3. split.
    + rewrite ReadBcd2_in_range by store_bounds.
      rewrite at_store_eq by store_bounds.
      rewrite (at_store_ne _ (off + 1) off) by lia.
      rewrite at_store_eq by store_bounds.
      destruct (bcd_byte_digits _ _ R0 R1) as [-> ->].
      destruct (bcd_byte_digits _ _ R2 R3) as [-> ->].
      reflexivity.
    + cbn [forallb]. rewrite !andb_true_iff. intros (B0 & B1 & _).
      rewrite !bcd_byte_canonical by assumption.
      unfold b0. rewrite store_same by lia.
      unfold b1. apply store_same. lia.
Qed.

(** X12 at work: the money field 12 34 56 survives a read and rewrite;
    the field 1F 00 reads as 1000 and is rewritten as 10 00. *)
Lemma bcd_rewrite_stable_witness :
  let sb := mkSaveBuffer [x12; x34; x56; x1f; x00] in
  (exists v sb',
     BcdCodec.ReadBcd3 sb 0 = Ok v /\
     BcdCodec.WriteBcd3 0 v sb = (Ok tt, sb') /\
     BcdCodec.ReadBcd3 sb' 0 = Ok v /\ sb' = sb) /\
  (exists v sb',
     BcdCodec.ReadBcd2 sb 3 = Ok v /\
     BcdCodec.WriteBcd2 3 v sb = (Ok tt, sb') /\
     BcdCodec.ReadBcd2 sb' 3 = Ok v).
Proof.
  intros sb.
  assert (Hsz : is_size_t (Size sb)) by (split; [|reflexivity]; discriminate).
  split.
  - destruct (bcd_rewrite_stable sb 0 Hsz ltac:(lia)) as [H _].
    destruct H as (v & sb' & Hr & Hw & Hr' & Hsame); [discriminate|].
    exists v, sb'. repeat split; try assumption.
    apply Hsame. reflexivity.
  - destruct (bcd_rewrite_stable sb 3 Hsz ltac:(lia)) as [_ H].
    destruct H as (v & sb' & Hr & Hw & Hr' & _); [discriminate|].
    exists v, sb'. repeat split; assumption.
Defined.

(** ** Checksums: the formula, detection, independence, failures *)

Lemma byte_sum_app (l1 l2 : Bytes) :
  byte_sum (l1 ++ l2) = byte_sum l1 + byte_sum l2.
Proof.
  unfold byte_sum. induction l1 as [|b l1 IH]; cbn [app foldr]; [lia|].
  rewrite IH. lia.
Qed.

Lemma take_drop_step (bs : Bytes) (i n : nat) :
  (i < length bs)%nat ->
  take (S n) (drop i bs) = at_ bs (Z.of_nat i) :: take n (drop (S i) bs).
Proof.
  intros Hi. unfold at_. rewrite Nat2Z.id.
  destruct (bs !! i) as [b|] eqn:E.
  - rewrite (drop_S _ _ _ E). reflexivity.
  - apply lookup_ge_None in E. lia.
Qed.

Lemma sum_loop_value (sb : SaveBuffer) :
  forall (fuel : nat) (i acc : Z),
    0 <= i -> i + Z.of_nat fuel <= Size sb ->
    is_size_t (i + Z.of_nat fuel) ->
    Gen1Checksum.sum_loop sb i fuel acc =
      Ok (if fuel is O then acc
          else (acc + byte_sum (take fuel (drop (Z.to_nat i) (bytes_ sb))))
               mod 2 ^ 32).
Proof.
  induction fuel as [|fuel IH]; intros i acc Hi Hin Hsz; [reflexivity|].
  cbn [Gen1Checksum.sum_loop].
  rewrite ReadU8_ok by (unfold is_size_t in *; lia). cbn [bind].
  replace (size_add i 1) with (i + 1) by (size_t_simpl; lia).
  rewrite IH by (unfold is_size_t in *; lia).
  f_equal.
  replace (Z.to_nat (i + 1)) with (S (Z.to_nat i)) by lia.
  rewrite take_drop_step by (unfold Size in Hin; lia).
  rewrite Z2Nat.id by lia.
  unfold byte_sum at 2. cbn [foldr]. fold (byte_sum (take fuel
    (drop (S (Z.to_nat i)) (bytes_ sb)))).
  destruct fuel as [|fuel].
  - rewrite take_0. unfold byte_sum. cbn [foldr]. unfold to_u32.
    f_equal. lia.
  - unfold to_u32. rewrite Zplus_mod_idemp_l. f_equal. lia.
Qed.

Lemma lnot_low_byte (x : Z) :
  0 <= x < 256 -> u8_to_Z (to_u8 (Z.lnot x)) = 255 - x.
Proof.
  intros Hx. rewrite u8_to_Z_to_u8. unfold Z.lnot.
  replace (Z.pred (- x)) with ((255 - x) + (-1) * 256) by lia.
  rewrite Z.mod_add by lia. apply Z.mod_small. lia.
Qed.

Lemma sumAndInvert8_value (sb : SaveBuffer) (s e : Z) :
  0 <= s <= e -> e < Size sb -> is_size_t (e + 1) ->
  exists c,
    Gen1Checksum.sumAndInvert8 sb s e = Ok c /\
    u8_to_Z c = 255 - byte_sum (range_bytes sb s e) mod 256.
Proof.
  intros Hse Hin Hsz. unfold Gen1Checksum.sumAndInvert8.
  destruct (e <? s) eqn:E; [lia|].
  rewrite sum_loop_value
    by (rewrite ?Z2Nat.id by lia; try lia;
        replace (s + (e - s + 1)) with (e + 1) by lia; assumption).
  cbn [bind]. eexists. split; [reflexivity|].
  destruct (Z.to_nat (e - s + 1)) as [|n] eqn:En; [lia|]. rewrite <- En.
  fold (range_bytes sb s e). rewrite Z.add_0_l.
  rewrite land_255.
  rewrite Z.mod_mod_divide by (exists (2 ^ 24); reflexivity).
  rewrite (u8_of_small (byte_sum (range_bytes sb s e) mod 256))
    by (apply Z.mod_pos_bound; lia).
  apply lnot_low_byte. apply Z.mod_pos_bound. lia.
Qed.

Lemma scope_geometry (sc : checksum_scope) :
  scope_valid sc ->
  0x2598 <= scope_first sc <= scope_last sc /\
  scope_last sc < scope_stored sc /\ scope_stored sc <= 0x7A52.
Proof.
  destruct sc as [|bank|box]; cbn [scope_valid].
  - intros _. cbv. repeat split; discriminate.
  - intros [-> | ->]; cbv; repeat split; discriminate.
  - intros Hbox. destruct (box_checksum_off_value box Hbox) as [Hoff _].
    cbn [scope_first scope_last scope_stored]. rewrite Hoff.
    unfold Gen1Layout.BoxBlockSize. destruct (box <=? 6) eqn:E; lia.
Qed.

Lemma scope_compute_eq (sc : checksum_scope) (sb : SaveBuffer) :
  scope_valid sc ->
  scope_compute sc sb =
    Gen1Checksum.sumAndInvert8 sb (scope_first sc) (scope_last sc).
Proof.
  destruct sc as [|bank|box]; cbn [scope_valid].
  - reflexivity.
  - intros [-> | ->]; reflexivity.
  - intros Hbox. cbn [scope_compute scope_first scope_last].
    unfold Gen1Checksum.ComputeBox.
    rewrite box_base_in_range by assumption. cbn [bind].
    unfold Gen1Layout.BoxBlockSize. f_equal.
    destruct (box <=? 6) eqn:E; size_t_simpl; lia.
Qed.

Lemma scope_repair_eq (sc : checksum_scope) (sb : SaveBuffer) :
  scope_valid sc ->
  scope_repair sc sb =
    bindM (reading (scope_compute sc))
      (fun c => WriteU8 (scope_stored sc) c) sb.
Proof.
  destruct sc as [|bank|box]; cbn [scope_valid]; try reflexivity.
  intros Hbox. destruct (box_checksum_off_value box Hbox) as [_ Hadd].
  cbn [scope_repair scope_compute scope_stored].
  unfold Gen1Checksum.FixBox. unfold bindM at 1. unfold reading at 1.
  rewrite box_table_in_range by assumption. now rewrite Hadd.
Qed.

Lemma byte_eqb_sym (a b : u8) : Byte.eqb a b = Byte.eqb b a.
Proof.
  destruct (Byte.eqb a b) eqn:E1, (Byte.eqb b a) eqn:E2; try reflexivity.
  - apply Byte.byte_dec_bl in E1. subst. rewrite byte_eqb_refl in E2.
    discriminate.
  - apply Byte.byte_dec_bl in E2. subst. rewrite byte_eqb_refl in E1.
    discriminate.
Qed.

Lemma scope_validate_eq (sc : checksum_scope) (sb : SaveBuffer) (c : u8) :
  scope_valid sc -> scope_stored sc < Size sb ->
  scope_compute sc sb = Ok c ->
  scope_validate sc sb =
    Ok (Byte.eqb c (at_ (bytes_ sb) (scope_stored sc))).
Proof.
  intros Hv Hin Hc. pose proof (scope_geometry sc Hv) as (G1 & G2 & G3).
  assert (Hread : ReadU8 sb (scope_stored sc) =
                  Ok (at_ (bytes_ sb) (scope_stored sc))).
  { apply ReadU8_ok; [lia|]. apply small_is_size_t. lia. }
  destruct sc as [|bank|box]; cbn [scope_valid] in Hv;
    cbn [scope_validate scope_compute scope_stored] in *.
  - unfold Gen1Checksum.ValidateMain. rewrite Hc, Hread. reflexivity.
  - unfold Gen1Checksum.ValidateBankAll. rewrite Hread, Hc. cbn [bind].
    now rewrite byte_eqb_sym.
  - destruct (box_checksum_off_value box Hv) as [_ Hadd].
    unfold Gen1Checksum.ValidateBox.
    rewrite box_table_in_range by assumption. cbn [bind].
    rewrite Hadd, Hread, Hc. cbn [bind]. now rewrite byte_eqb_sym.
Qed.

Lemma byte_eqb_value (a b : u8) :
  Byte.eqb a b = (u8_to_Z a =? u8_to_Z b).
Proof.
  destruct (Z.eqb_spec (u8_to_Z a) (u8_to_Z b)) as [E|E].
  - rewrite <- (to_u8_u8_to_Z a), <- (to_u8_u8_to_Z b), E.
    apply byte_eqb_refl.
  - destruct (Byte.eqb a b) eqn:Eb; [|reflexivity].
    apply Byte.byte_dec_bl in Eb. now subst.
Qed.

Lemma scope_compute_value (sc : checksum_scope) (sb : SaveBuffer) :
  scope_valid sc -> scope_stored sc < Size sb ->
  exists c,
    scope_compute sc sb = Ok c /\
    u8_to_Z c =
      255 - byte_sum (range_bytes sb (scope_first sc) (scope_last sc))
            mod 256.
Proof.
  intros Hv Hin. pose proof (scope_geometry sc Hv) as (G1 & G2 & G3).
  destruct (sumAndInvert8_value sb (scope_first sc) (scope_last sc))
    as (c & Hc & Hval); [lia | lia | apply small_is_size_t; lia |].
  rewrite <- scope_compute_eq in Hc by assumption.
  exists c. split; assumption.
Qed.

Lemma complement_test (sum st : Z) :
  0 <= st < 256 ->
  (255 - sum mod 256 =? st) = ((sum + st) mod 256 =? 255).
Proof.
  intros Hr.
  pose proof (Z.mod_pos_bound sum 256 ltac:(lia)) as Hm.
  rewrite <- (Zplus_mod_idemp_l sum st 256).
  destruct (Z.eqb_spec (255 - sum mod 256) st) as [E|E].
  - symmetry. apply Z.eqb_eq.
    replace (sum mod 256 + st) with 255 by lia. reflexivity.
  - symmetry. apply Z.eqb_neq. intros Hmod.
    destruct (Z_lt_ge_dec (sum mod 256 + st) 256) as [Hlt|Hge].
    + rewrite Z.mod_small in Hmod by lia. lia.
    + replace (sum mod 256 + st) with ((sum mod 256 + st - 256) + 1 * 256)
        in Hmod by lia.
      rewrite Z.mod_add in Hmod by lia.
      rewrite Z.mod_small in Hmod by lia. lia.
Qed.

Lemma scope_validate_sum (sc : checksum_scope) (sb : SaveBuffer) :
  scope_valid sc -> scope_stored sc < Size sb ->
  scope_validate sc sb =
    Ok ((byte_sum (range_bytes sb (scope_first sc) (scope_last sc))
         + u8_to_Z (at_ (bytes_ sb) (scope_stored sc))) mod 256 =? 255).
Proof.
  intros Hv Hin.
  destruct (scope_compute_value sc sb Hv Hin) as (c & Hc & Hval).
  rewrite (scope_validate_eq sc sb c) by assumption. f_equal.
  rewrite byte_eqb_value, Hval.
  apply complement_test, u8_to_Z_range.
Qed.

(** X13. The checksum formula.  For each of the fifteen checksums of a
    buffer that holds the stored byte: the computed checksum is 255 minus
    the sum of the bytes of the scope's range taken modulo 256, and
    validation returns true exactly when the sum of those bytes and of the
    stored byte is 255 modulo 256. *)
Theorem checksum_formula (sc : checksum_scope) (sb : SaveBuffer) :
  scope_valid sc -> scope_stored sc < Size sb ->
  exists c,
    scope_compute sc sb = Ok c /\
    u8_to_Z c =
      255 - byte_sum (range_bytes sb (scope_first sc) (scope_last sc))
            mod 256 /\
    scope_validate sc sb =
      Ok ((byte_sum (range_bytes sb (scope_first sc) (scope_last sc))
           + u8_to_Z (at_ (bytes_ sb) (scope_stored sc))) mod 256 =? 255).
Proof.
  intros Hv Hin.
  destruct (scope_compute_value sc sb Hv Hin) as (c & Hc & Hval).
  exists c. split; [exact Hc|]. split; [exact Hval|].
  now apply scope_validate_sum.
Qed.

(** X13 at work: the checksum of box 1 in a blank save whose first box
    starts with the bytes 01 02 03. *)
Lemma checksum_formula_witness :
  exists c,
    scope_compute (BoxScope 1) (put [x01; x02; x03] 0x4000 blank_save)
      = Ok c /\
    u8_to_Z c =
      255 - byte_sum (range_bytes (put [x01; x02; x03] 0x4000 blank_save)
                        (scope_first (BoxScope 1)) (scope_last (BoxScope 1)))
            mod 256 /\
    scope_validate (BoxScope 1) (put [x01; x02; x03] 0x4000 blank_save) =
      Ok ((byte_sum (range_bytes (put [x01; x02; x03] 0x4000 blank_save)
                       (scope_first (BoxScope 1)) (scope_last (BoxScope 1)))
           + u8_to_Z (at_ (bytes_ (put [x01; x02; x03] 0x4000 blank_save))
                        (scope_stored (BoxScope 1)))) mod 256 =? 255).
Proof.
  apply (checksum_formula (BoxScope 1)).
  - cbn [scope_valid]. lia.
  - vm_compute. reflexivity.
Defined.

Lemma byte_sum_insert (bs : Bytes) (k : nat) (old v : u8) :
  bs !! k = Some old ->
  byte_sum (<[k := v]> bs) = byte_sum bs - u8_to_Z old + u8_to_Z v.
Proof.
  intros Hk. pose proof (lookup_lt_Some _ _ _ Hk) as Hlt.
  rewrite insert_take_drop by assumption.
  rewrite <- (take_drop_middle bs k old Hk) at 3.
  rewrite !byte_sum_app. unfold byte_sum. cbn [foldr]. lia.
Qed.

Lemma range_bytes_store (sb : SaveBuffer) (s e o : Z) (v : u8) :
  0 <= s <= o -> o <= e -> e < Size sb ->
  byte_sum (range_bytes (store o v sb) s e) =
    byte_sum (range_bytes sb s e)
    - u8_to_Z (at_ (bytes_ sb) o) + u8_to_Z v.
Proof.
  intros Hso Hoe Hin. unfold range_bytes, store, Size in *. cbn [bytes_].
  rewrite drop_insert_ge by lia.
  rewrite take_insert_lt by lia.
  apply byte_sum_insert.
  rewrite lookup_take_lt by lia. rewrite lookup_drop.
  replace (Z.to_nat s + (Z.to_nat o - Z.to_nat s))%nat with (Z.to_nat o)
    by lia.
  unfold at_. destruct (bytes_ sb !! Z.to_nat o) as [b|] eqn:E;
    [reflexivity|].
  apply lookup_ge_None in E. lia.
Qed.

Lemma u8_to_Z_eq (a b : u8) : u8_to_Z a = u8_to_Z b -> a = b.
Proof.
  intros E. rewrite <- (to_u8_u8_to_Z a), <- (to_u8_u8_to_Z b). now rewrite E.
Qed.

Lemma sumAndInvert8_store_inside (sb : SaveBuffer) (s e o : Z) (v : u8) :
  0 <= s <= o -> o <= e -> e < Size sb -> is_size_t (e + 1) ->
  v <> at_ (bytes_ sb) o ->
  exists c c',
    Gen1Checksum.sumAndInvert8 sb s e = Ok c /\
    Gen1Checksum.sumAndInvert8 (store o v sb) s e = Ok c' /\
    c <> c'.
Proof.
  intros Hso Hoe Hin Hsz Hne.
  destruct (sumAndInvert8_value sb s e) as (c & Hc & Hval);
    [lia | lia | assumption |].
  destruct (sumAndInvert8_value (store o v sb) s e) as (c' & Hc' & Hval');
    [lia | rewrite Size_store; lia | assumption |].
  exists c, c'. split; [assumption|]. split; [assumption|].
  intros ->. rewrite Hval' in Hval.
  rewrite range_bytes_store in Hval by lia.
  apply Hne. apply u8_to_Z_eq.
  pose proof (u8_to_Z_range v). pose proof (u8_to_Z_range (at_ (bytes_ sb) o)).
  set (sum := byte_sum _) in *.
  set (x := u8_to_Z v) in *. set (y := u8_to_Z (at_ (bytes_ sb) o)) in *.
  pose proof (Z.div_mod (sum - y + x) 256 ltac:(lia)).
  pose proof (Z.div_mod sum 256 ltac:(lia)).
  lia.
Qed.

(** X14. A single changed byte is detected.  On a buffer whose checksum
    validates, writing a different value to one byte of the summed range,
    or to the stored checksum byte, makes validation of that checksum
    return false. *)
Theorem checksum_detects_one_byte (sc : checksum_scope) (sb : SaveBuffer)
  (o : Z) (v : u8) :
  scope_valid sc -> scope_stored sc < Size sb ->
  scope_validate sc sb = Ok true ->
  scope_first sc <= o <= scope_last sc \/ o = scope_stored sc ->
  v <> at_ (bytes_ sb) o ->
  exists sb',
    WriteU8 o v sb = (Ok tt, sb') /\ scope_validate sc sb' = Ok false.
Proof.
  intros Hv Hin Hok Ho Hne.
  pose proof (scope_geometry sc Hv) as (G1 & G2 & G3).
  exists (store o v sb). split.
  { apply WriteU8_ok; [lia|]. apply small_is_size_t. lia. }
  destruct Ho as [Ho | ->].
  - destruct (sumAndInvert8_store_inside sb (scope_first sc) (scope_last sc)
                o v) as (c & c' & Hc & Hc' & Hcc');
      [lia | lia | lia | apply small_is_size_t; lia | assumption |].
    rewrite <- scope_compute_eq in Hc, Hc' by assumption.
    rewrite (scope_validate_eq sc sb c) in Hok by assumption.
    injection Hok as Hok. apply Byte.byte_dec_bl in Hok.
    rewrite (scope_validate_eq sc (store o v sb) c')
      by (rewrite ?Size_store; assumption).
    rewrite at_store_ne by lia. rewrite <- Hok. f_equal.
    destruct (Byte.eqb c' c) eqn:E; [|reflexivity].
    apply Byte.byte_dec_bl in E. congruence.
  - destruct (checksum_outside_store sb (scope_first sc) (scope_last sc)
                (scope_stored sc)) as (c & Hc & Hc');
      [lia | lia | assumption | apply small_is_size_t; lia |].
    specialize (Hc' v).
    rewrite <- scope_compute_eq in Hc, Hc' by assumption.
    rewrite (scope_validate_eq sc sb c) in Hok by assumption.
    injection Hok as Hok. apply Byte.byte_dec_bl in Hok.
    rewrite (scope_validate_eq sc (store (scope_stored sc) v sb) c)
      by (rewrite ?Size_store; assumption).
    rewrite at_store_eq by lia. f_equal.
    destruct (Byte.eqb c v) eqn:E; [|reflexivity].
    apply Byte.byte_dec_bl in E. congruence.
Qed.

(** X14 at work: in a blank save with a valid main checksum, the first
    byte of the trainer name is overwritten with 01. *)
Lemma checksum_detects_one_byte_witness :
  exists sb',
    WriteU8 0x2598 x01 settled_blank_save = (Ok tt, sb') /\
    scope_validate MainScope sb' = Ok false.
Proof.
  apply (checksum_detects_one_byte MainScope settled_blank_save 0x2598 x01).
  - exact I.
  - vm_compute. reflexivity.
  - rewrite (scope_validate_sum MainScope settled_blank_save)
      by (exact I || (vm_compute; reflexivity)).
    vm_compute. reflexivity.
  - left. cbv. split; discriminate.
  - intros H. vm_compute in H. discriminate H.
Defined.

Lemma scope_stored_apart (sc1 sc2 : checksum_scope) :
  scope_valid sc1 -> scope_valid sc2 ->
  (scope_stored sc1 < scope_first sc2 \/ scope_last sc2 < scope_stored sc1)
  /\ (sc1 <> sc2 -> scope_stored sc1 <> scope_stored sc2).
Proof.
  intros H1 H2.
  assert (S1 : scope_stored sc1 = 0x3523 /\ sc1 = MainScope \/
               scope_stored sc1 = 0x5A4C /\ sc1 = BankScope 2 \/
               scope_stored sc1 = 0x7A4C /\ sc1 = BankScope 3 \/
               exists b, sc1 = BoxScope b /\ 1 <= b <= 12 /\
                 scope_stored sc1 =
                   if b <=? 6 then 0x5A4D + (b - 1) else 0x7A4D + (b - 7)).
  { destruct sc1 as [|bank|box]; cbn [scope_valid] in H1.
    - left. split; reflexivity.
    - destruct H1 as [-> | ->]; [right; left | right; right; left];
        split; reflexivity.
    - right. right. right. exists box.
      destruct (box_checksum_off_value box H1) as [Hoff _].
      cbn [scope_stored]. now rewrite Hoff. }
  destruct sc2 as [|bank2|box2]; cbn [scope_valid] in H2.
  - cbn [scope_first scope_last scope_stored].
    unfold Gen1Layout.MainChecksumStart, Gen1Layout.MainChecksumEnd,
      Gen1Layout.MainChecksumOff.
    destruct S1 as [[E ->] | [[E ->] | [[E ->] | (b & -> & Hb & E)]]];
      rewrite E; (split; [|intros Hne; try congruence]);
      try destruct (Z.leb_spec b 6); lia.
  - cbn [scope_first scope_last scope_stored].
    destruct H2 as [-> | ->];
      unfold bank_base, Gen1Checksum.bank_checksum_off, Gen1Layout.Bank2Base,
        Gen1Layout.Bank3Base, Gen1Layout.Bank2AllChecksumOff,
        Gen1Layout.Bank3AllChecksumOff; cbn [Z.eqb Pos.eqb];
      destruct S1 as [[E ->] | [[E ->] | [[E ->] | (b & -> & Hb & E)]]];
      rewrite E; (split; [|intros Hne; try congruence]);
      try destruct (Z.leb_spec b 6); lia.
  - destruct (box_checksum_off_value box2 H2) as [Hoff2 _].
    cbn [scope_first scope_last scope_stored]. rewrite Hoff2.
    unfold Gen1Layout.BoxBlockSize.
    destruct S1 as [[E ->] | [[E ->] | [[E ->] | (b & -> & Hb & E)]]];
      rewrite E; (split; [|intros Hne]);
      try (assert (b <> box2) by congruence);
      destruct (box2 <=? 6) eqn:E2; try destruct (b <=? 6) eqn:E1; lia.
Qed.

Lemma sumAndInvert8_store_outside (sb : SaveBuffer) (s e o : Z) (v : u8) :
  0 <= s <= e -> is_size_t (e + 1) -> 0 <= o -> o < s \/ e < o ->
  Gen1Checksum.sumAndInvert8 (store o v sb) s e =
  Gen1Checksum.sumAndInvert8 sb s e.
Proof.
  intros Hse Hsz Ho Hout. unfold Gen1Checksum.sumAndInvert8.
  destruct (e <? s); [reflexivity|].
  rewrite sum_loop_store
    by (rewrite ?Z2Nat.id by lia; try lia;
        replace (s + (e - s + 1)) with (e + 1) by lia; assumption).
  reflexivity.
Qed.

Lemma scope_compute_store (sc : checksum_scope) (sb : SaveBuffer)
  (o : Z) (v : u8) :
  scope_valid sc -> 0 <= o -> o < scope_first sc \/ scope_last sc < o ->
  scope_compute sc (store o v sb) = scope_compute sc sb.
Proof.
  intros Hv Ho Hout. pose proof (scope_geometry sc Hv) as (G1 & G2 & G3).
  rewrite !scope_compute_eq by assumption.
  apply sumAndInvert8_store_outside; try lia. apply small_is_size_t. lia.
Qed.

Lemma scope_validate_store (sc : checksum_scope) (sb : SaveBuffer)
  (o : Z) (v : u8) :
  scope_valid sc -> 0 <= o -> o < scope_first sc \/ scope_last sc < o ->
  o <> scope_stored sc ->
  scope_validate sc (store o v sb) = scope_validate sc sb.
Proof.
  intros Hv Ho Hout Hne.
  pose proof (scope_geometry sc Hv) as (G1 & G2 & G3).
  pose proof (scope_compute_store sc sb o v Hv Ho Hout) as Hc.
  assert (Hr : ReadU8 (store o v sb) (scope_stored sc) =
               ReadU8 sb (scope_stored sc))
    by (apply ReadU8_store_ne; lia).
  destruct sc as [|bank|box]; cbn [scope_valid] in Hv;
    cbn [scope_validate scope_compute scope_stored] in *.
  - unfold Gen1Checksum.ValidateMain. now rewrite Hc, Hr.
  - unfold Gen1Checksum.ValidateBankAll. now rewrite Hc, Hr.
  - destruct (box_checksum_off_value box Hv) as [_ Hadd].
    unfold Gen1Checksum.ValidateBox.
    rewrite box_table_in_range by assumption. cbn [bind].
    now rewrite Hadd, Hr, Hc.
Qed.

Lemma repair_one (sc : checksum_scope) (sb : SaveBuffer) :
  scope_valid sc -> scope_stored sc < Size sb ->
  exists c,
    scope_repair sc sb = (Ok tt, store (scope_stored sc) c sb) /\
    scope_validate sc (store (scope_stored sc) c sb) = Ok true.
Proof.
  intros Hv Hin. pose proof (scope_geometry sc Hv) as (G1 & G2 & G3).
  destruct (scope_settles sb (scope_first sc) (scope_last sc)
              (scope_stored sc) (scope_compute sc))
    as (c & H1 & H2 & H3 & _);
    [lia | lia | assumption | apply small_is_size_t; lia
     | intros sb'; now apply scope_compute_eq |].
  exists c. split; [now rewrite scope_repair_eq|].
  rewrite (scope_validate_eq _ _ c)
    by (rewrite ?Size_store; assumption).
  rewrite at_store_eq by lia. now rewrite byte_eqb_refl.
Qed.

(** X15. The checksum repairs do not disturb one another.  Repairing one
    of the fifteen checksums changes nothing but its stored byte, and
    leaves the computed value and the validation result of every other
    checksum as they were. *)
Theorem checksum_repairs_independent (sc1 sc2 : checksum_scope)
  (sb : SaveBuffer) :
  scope_valid sc1 -> scope_valid sc2 -> sc1 <> sc2 ->
  scope_stored sc1 < Size sb ->
  exists sb',
    scope_repair sc1 sb = (Ok tt, sb') /\
    same_outside sb sb' (scope_stored sc1) 1 /\
    scope_compute sc2 sb' = scope_compute sc2 sb /\
    scope_validate sc2 sb' = scope_validate sc2 sb.
Proof.
  intros H1 H2 Hne Hin.
  pose proof (scope_geometry sc1 H1) as (G1 & G2 & G3).
  destruct (scope_stored_apart sc1 sc2 H1 H2) as [Hout Hst].
  destruct (repair_one sc1 sb H1 Hin) as (c & Hrep & _).
  exists (store (scope_stored sc1) c sb).
  split; [assumption|]. split; [apply same_outside_store; lia|]. split.
  - apply scope_compute_store; [assumption | lia | assumption].
  - apply scope_validate_store; [assumption | lia | assumption | auto].
Qed.

(** X15 at work: repairing the checksum of box 3 in a blank save with a
    valid main checksum leaves the main checksum valid. *)
Lemma checksum_repairs_independent_witness :
  exists sb',
    scope_repair (BoxScope 3) settled_blank_save = (Ok tt, sb') /\
    same_outside settled_blank_save sb' (scope_stored (BoxScope 3)) 1 /\
    scope_compute MainScope sb' = scope_compute MainScope settled_blank_save
    /\ scope_validate MainScope sb' =
       scope_validate MainScope settled_blank_save.
Proof.
  apply (checksum_repairs_independent (BoxScope 3) MainScope).
  - cbn [scope_valid]. lia.
  - exact I.
  - discriminate.
  - vm_compute. reflexivity.
Defined.

Lemma repair_each_spec (scs : list checksum_scope) :
  forall sb : SaveBuffer,
    Forall (fun sc => scope_valid sc /\ scope_stored sc < Size sb) scs ->
    exists sb',
      repair_each scs sb = (Ok tt, sb') /\
      Size sb' = Size sb /\
      (forall sc0, scope_valid sc0 -> sc0 ∉ scs ->
         scope_validate sc0 sb' = scope_validate sc0 sb) /\
      Forall (fun sc => scope_validate sc sb' = Ok true) scs.
Proof.
  induction scs as [|sc rest IH]; intros sb Hall.
  - exists sb. split; [reflexivity|]. split; [reflexivity|].
    split; [reflexivity | constructor].
  - apply Forall_cons in Hall as [[Hv Hin] Hrest].
    pose proof (scope_geometry sc Hv) as (G1 & G2 & G3).
    destruct (repair_one sc sb Hv Hin) as (c & Hrep & Hval).
    set (sb1 := store (scope_stored sc) c sb) in *.
    destruct (IH sb1) as (sb' & Hrun & Hsize & Hkeep & Hvalid).
    { eapply Forall_impl; [exact Hrest|]. intros x [Hx Hxin].
      split; [assumption|]. unfold sb1. now rewrite Size_store. }
    exists sb'. split.
    { cbn [repair_each]. unfold bindM at 1. now rewrite Hrep. }
    split; [unfold sb1 in Hsize; now rewrite Size_store in Hsize|].
    split.
    + intros sc0 Hv0 Hnot. apply not_elem_of_cons in Hnot as [Hne Hnot].
      rewrite Hkeep by assumption.
      destruct (scope_stored_apart sc sc0 Hv Hv0) as [Hout Hst].
      apply scope_validate_store; [assumption | lia | assumption | auto].
    + apply Forall_cons. split; [|assumption].
      destruct (decide (sc ∈ rest)) as [Hmem|Hnot].
      * rewrite Forall_forall in Hvalid. now apply Hvalid.
      * rewrite Hkeep by assumption. exact Hval.
Qed.

(** X16. Repairing checksums one after the other.  For any list of the
    fifteen checksums whose stored bytes the buffer holds, in any order and
    with repetitions, the repairs all succeed, the size of the buffer is
    unchanged, and afterwards every checksum of the list validates. *)
Theorem repair_each_validates (scs : list checksum_scope) (sb : SaveBuffer) :
  Forall (fun sc => scope_valid sc /\ scope_stored sc < Size sb) scs ->
  exists sb',
    repair_each scs sb = (Ok tt, sb') /\
    Size sb' = Size sb /\
    Forall (fun sc => scope_validate sc sb' = Ok true) scs.
Proof.
  intros Hall.
  destruct (repair_each_spec scs sb Hall) as (sb' & H1 & H2 & _ & H3).
  exists sb'. auto.
Qed.

(** X16 at work: all fifteen checksums of a blank save. *)
Lemma repair_each_validates_witness :
  exists sb',
    repair_each all_scopes blank_save = (Ok tt, sb') /\
    Size sb' = Size blank_save /\
    Forall (fun sc => scope_validate sc sb' = Ok true) all_scopes.
Proof.
  apply (repair_each_validates all_scopes blank_save).
  unfold all_scopes. cbn [map app].
  repeat (apply Forall_cons; split;
          [split; [cbn [scope_valid]; try exact I; lia
                  | vm_compute; reflexivity]|]).
  apply Forall_nil. exact I.
Defined.

Lemma RequireRange_cases (sb : SaveBuffer) (off len : Z) :
  RequireRange sb off len = Ok tt \/
  is_out_of_range (RequireRange sb off len).
Proof.
  unfold RequireRange, is_out_of_range.
  destruct (len =? 0); [now left|].
  destruct (off >? Size sb); [right; eauto|].
  destruct (_ || _); [right; eauto | now left].
Qed.

Lemma ReadU8_cases (sb : SaveBuffer) (off : Z) :
  ReadU8 sb off = Ok (at_ (bytes_ sb) off) \/ is_out_of_range (ReadU8 sb off).
Proof.
  unfold ReadU8.
  destruct (RequireRange_cases sb off 1) as [-> | [w ->]];
    [now left | right; exists w; reflexivity].
Qed.

Lemma ReadU8_beyond (sb : SaveBuffer) (off : Z) :
  is_size_t off -> Size sb <= off -> is_out_of_range (ReadU8 sb off).
Proof.
  intros Hoff Hout. apply guarded_read_fails.
  apply RequireRange_fails; try assumption; try lia.
  apply small_is_size_t. lia.
Qed.

Lemma WriteU8_beyond (sb : SaveBuffer) (off : Z) (v : u8) :
  is_size_t off -> Size sb <= off -> fails_unchanged (WriteU8 off v) sb.
Proof.
  intros Hoff Hout. apply guarded_write_fails.
  apply RequireRange_fails; try assumption; try lia.
  apply small_is_size_t. lia.
Qed.

Lemma sum_loop_cases (sb : SaveBuffer) :
  forall (fuel : nat) (i acc : Z),
    (exists s, Gen1Checksum.sum_loop sb i fuel acc = Ok s) \/
    is_out_of_range (Gen1Checksum.sum_loop sb i fuel acc).
Proof.
  induction fuel as [|fuel IH]; intros i acc; cbn [Gen1Checksum.sum_loop].
  - left. eauto.
  - destruct (ReadU8_cases sb i) as [-> | [w ->]]; cbn [bind].
    + apply IH.
    + right. exists w. reflexivity.
Qed.

Lemma scope_compute_cases (sc : checksum_scope) (sb : SaveBuffer) :
  scope_valid sc ->
  (exists c, scope_compute sc sb = Ok c) \/
  is_out_of_range (scope_compute sc sb).
Proof.
  intros Hv. pose proof (scope_geometry sc Hv) as (G1 & G2 & G3).
  rewrite scope_compute_eq by assumption.
  unfold Gen1Checksum.sumAndInvert8.
  destruct (scope_last sc <? scope_first sc) eqn:E; [lia|].
  destruct (sum_loop_cases sb
              (Z.to_nat (scope_last sc - scope_first sc + 1))
              (scope_first sc) 0) as [[s ->] | [w ->]]; cbn [bind].
  - left. eauto.
  - right. exists w. reflexivity.
Qed.

(** X17. How the checksum routines fail.  On a buffer too short to hold a
    checksum's stored byte the repair throws [std::out_of_range] with the
    buffer untouched and validation throws [std::out_of_range]; a bank
    index other than 2 and 3 makes [ComputeBankAll] and [FixBankAll] throw
    [std::invalid_argument] (the buffer untouched), while
    [ValidateBankAll] first reads the stored byte of bank 3 and so throws
    [std::out_of_range] on a buffer without that byte; a box index outside
    1..12 makes the three box routines throw the layout's
    [std::out_of_range] with the buffer untouched. *)
Theorem checksum_failures (sb : SaveBuffer) :
  is_size_t (Size sb) ->
  (forall sc, scope_valid sc -> Size sb <= scope_stored sc ->
     fails_unchanged (scope_repair sc) sb /\
     is_out_of_range (scope_validate sc sb)) /\
  (forall bank, bank <> 2 -> bank <> 3 ->
     Gen1Checksum.ComputeBankAll sb bank =
       Throw (invalid_argument "ComputeBankAll: bank index must be 2 or 3") /\
     Gen1Checksum.FixBankAll bank sb =
       (Throw (invalid_argument "ComputeBankAll: bank index must be 2 or 3"),
        sb) /\
     (Gen1Layout.Bank3AllChecksumOff < Size sb ->
      Gen1Checksum.ValidateBankAll sb bank =
        Throw (invalid_argument "ComputeBankAll: bank index must be 2 or 3"))
     /\
     (Size sb <= Gen1Layout.Bank3AllChecksumOff ->
      is_out_of_range (Gen1Checksum.ValidateBankAll sb bank))) /\
  (forall box, box < 1 \/ 12 < box ->
     Gen1Checksum.ComputeBox sb box =
       Throw (out_of_range "Gen1Layout: box index must be 1..12") /\
     Gen1Checksum.ValidateBox sb box =
       Throw (out_of_range "Gen1Layout: box index must be 1..12") /\
     Gen1Checksum.FixBox box sb =
       (Throw (out_of_range "Gen1Layout: box index must be 1..12"), sb)).
Proof.
  intros Hsz. split; [|split].
  - intros sc Hv Hshort.
    pose proof (scope_geometry sc Hv) as (G1 & G2 & G3).
    assert (Hst : is_size_t (scope_stored sc))
      by (apply small_is_size_t; lia).
    destruct (ReadU8_beyond sb (scope_stored sc) Hst Hshort) as [wr Hread].
    destruct (WriteU8_beyond sb (scope_stored sc) x00 Hst Hshort)
      as [ww0 _].
    split.
    + unfold fails_unchanged. rewrite scope_repair_eq by assumption.
      unfold bindM, reading.
      destruct (scope_compute_cases sc sb Hv) as [[c ->] | [w ->]].
      * apply (WriteU8_beyond sb (scope_stored sc) c Hst Hshort).
      * exists w. reflexivity.
    + destruct sc as [|bank|box]; cbn [scope_valid] in Hv;
        cbn [scope_validate scope_stored scope_compute] in *.
      * unfold Gen1Checksum.ValidateMain.
        destruct (scope_compute_cases MainScope sb I) as [[c Hc] | [w Hc]];
          cbn [scope_compute] in Hc; rewrite Hc; cbn [bind].
        -- rewrite Hread. exists wr. reflexivity.
        -- exists w. reflexivity.
      * unfold Gen1Checksum.ValidateBankAll. rewrite Hread.
        exists wr. reflexivity.
      * destruct (box_checksum_off_value box Hv) as [_ Hadd].
        unfold Gen1Checksum.ValidateBox.
        rewrite box_table_in_range by assumption. cbn [bind].
        rewrite Hadd, Hread. exists wr. reflexivity.
  - intros bank H2 H3.
    assert (Hc : Gen1Checksum.ComputeBankAll sb bank =
              Throw (invalid_argument
                       "ComputeBankAll: bank index must be 2 or 3")).
    { unfold Gen1Checksum.ComputeBankAll.
      destruct (Z.eqb_spec bank 2); [lia|].
      destruct (Z.eqb_spec bank 3); [lia|]. reflexivity. }
    assert (Hoff : Gen1Checksum.bank_checksum_off bank =
                   Gen1Layout.Bank3AllChecksumOff).
    { unfold Gen1Checksum.bank_checksum_off.
      destruct (Z.eqb_spec bank 2); [lia | reflexivity]. }
    split; [assumption|]. split; [|split].
    + unfold Gen1Checksum.FixBankAll, bindM, reading. now rewrite Hc.
    + intros Hin. unfold Gen1Checksum.ValidateBankAll.
      rewrite Hoff, ReadU8_ok, Hc; [reflexivity | |].
      * unfold Gen1Layout.Bank3AllChecksumOff in *. lia.
      * apply small_is_size_t. unfold Gen1Layout.Bank3AllChecksumOff. lia.
    + intros Hshort. unfold Gen1Checksum.ValidateBankAll. rewrite Hoff.
      destruct (ReadU8_beyond sb Gen1Layout.Bank3AllChecksumOff)
        as [w ->]; [apply small_is_size_t; cbv; split; discriminate
                   | assumption |].
      exists w. reflexivity.
  - intros box Hbox.
    assert (Hb : Gen1Layout.BoxBaseOffsetByIndex1to12 box =
              Throw (out_of_range "Gen1Layout: box index must be 1..12")).
    { unfold Gen1Layout.BoxBaseOffsetByIndex1to12.
      destruct (Z.ltb_spec box 1); [reflexivity|].
      destruct (Z.gtb_spec box 12); [reflexivity | lia]. }
    assert (Ht : Gen1Layout.BankPerBoxChecksumsBaseOffsetForBoxIndex1to12 box
                 = Throw (out_of_range "Gen1Layout: box index must be 1..12")).
    { unfold Gen1Layout.BankPerBoxChecksumsBaseOffsetForBoxIndex1to12.
      destruct (Z.ltb_spec box 1); [reflexivity|].
      destruct (Z.gtb_spec box 12); [reflexivity | lia]. }
    split; [|split].
    + unfold Gen1Checksum.ComputeBox. now rewrite Hb.
    + unfold Gen1Checksum.ValidateBox. now rewrite Ht.
    + unfold Gen1Checksum.FixBox, bindM, reading. now rewrite Ht.
Qed.

(** X17 at work on a one-byte buffer: the main checksum, bank 5, box 0. *)
Lemma checksum_failures_witness :
  let sb := mkSaveBuffer [x00] in
  (fails_unchanged (scope_repair MainScope) sb /\
   is_out_of_range (scope_validate MainScope sb)) /\
  Gen1Checksum.FixBankAll 5 sb =
    (Throw (invalid_argument "ComputeBankAll: bank index must be 2 or 3"),
     sb) /\
  is_out_of_range (Gen1Checksum.ValidateBankAll sb 5) /\
  Gen1Checksum.FixBox 0 sb =
    (Throw (out_of_range "Gen1Layout: box index must be 1..12"), sb).
Proof.
  intros sb.
  assert (Hsz : is_size_t (Size sb)) by (split; [|reflexivity]; discriminate).
  destruct (checksum_failures sb Hsz) as (Hshort & Hbank & Hbox).
  split; [|split; [|split]].
  - apply Hshort; [exact I | discriminate].
  - apply (Hbank 5); discriminate.
  - apply (Hbank 5); discriminate.
  - apply (Hbox 0). left. reflexivity.
Defined.

(** ** SaveValidator *)

(** X18. The save validator.  [HasExpectedSize] holds exactly when
    [RequireExpectedSize] returns; otherwise the latter throws
    [std::runtime_error] with both sizes in hexadecimal.
    [HasValidMainChecksum] never throws: it is false on a buffer too short
    to hold the main checksum byte, on any other buffer it is true exactly
    when the bytes of the main range and the stored byte sum to 255 modulo
    256, and it is true after [FixMain], which keeps the size. *)
Theorem save_validator_checks (sb : SaveBuffer) :
  (SaveValidator.HasExpectedSize sb = true <->
   SaveValidator.RequireExpectedSize sb = Ok tt) /\
  (SaveValidator.HasExpectedSize sb = false ->
   SaveValidator.RequireExpectedSize sb =
     Throw (runtime_error
              ("Unexpected save size: 0x" ++ SaveValidator.hex (Size sb)
               ++ " (expected 0x8000)"))) /\
  (is_size_t (Size sb) -> Size sb <= Gen1Layout.MainChecksumOff ->
   SaveValidator.HasValidMainChecksum sb = false) /\
  (Gen1Layout.MainChecksumOff < Size sb ->
   SaveValidator.HasValidMainChecksum sb =
     ((byte_sum (range_bytes sb Gen1Layout.MainChecksumStart
                   Gen1Layout.MainChecksumEnd)
       + u8_to_Z (at_ (bytes_ sb) Gen1Layout.MainChecksumOff)) mod 256
      =? 255) /\
   exists sb',
     Gen1Checksum.FixMain sb = (Ok tt, sb') /\
     SaveValidator.HasValidMainChecksum sb' = true /\
     SaveValidator.HasExpectedSize sb' = SaveValidator.HasExpectedSize sb).
Proof.
  unfold SaveValidator.HasExpectedSize, SaveValidator.RequireExpectedSize,
    SaveValidator.HasValidMainChecksum.
  split; [|split; [|split]].
  - destruct (Size sb =? Gen1Layout.ExpectedSize); cbn [negb];
      split; intros H; try reflexivity; discriminate H.
  - intros ->. reflexivity.
  - intros Hsz Hshort.
    destruct (scope_compute_cases MainScope sb I) as [[c Hc] | [w Hc]];
      cbn [scope_compute] in Hc; unfold Gen1Checksum.ValidateMain;
      rewrite Hc; cbn [bind]; [|reflexivity].
    destruct (ReadU8_beyond sb Gen1Layout.MainChecksumOff) as [w ->];
      [apply small_is_size_t; cbv; split; discriminate | assumption |].
    reflexivity.
  - intros Hin. split.
    + pose proof (scope_validate_sum MainScope sb I Hin) as Hval.
      cbn [scope_validate scope_first scope_last scope_stored] in Hval.
      now rewrite Hval.
    + destruct (repair_one MainScope sb I Hin) as (c & Hrep & Hval).
      cbn [scope_repair scope_validate scope_stored] in *.
      exists (store Gen1Layout.MainChecksumOff c sb).
      split; [assumption|]. rewrite Hval, Size_store. auto.
Qed.

(** X18 at work on a one-byte buffer: the message names both sizes in
    hexadecimal, and the main checksum counts as invalid. *)
Lemma save_validator_checks_witness :
  SaveValidator.RequireExpectedSize (mkSaveBuffer [x00]) =
    Throw (runtime_error "Unexpected save size: 0x1 (expected 0x8000)") /\
  SaveValidator.HasValidMainChecksum (mkSaveBuffer [x00]) = false.
Proof.
  destruct (save_validator_checks (mkSaveBuffer [x00]))
    as (_ & Hmsg & Hshort & _).
  split.
  - apply Hmsg. reflexivity.
  - apply Hshort.
    + split; [discriminate | reflexivity].
    + discriminate.
Defined.

(** ** The event flags and the Pokedex *)

Lemma bit_is_set_testbit (b : u8) (i : Z) :
  0 <= i < 8 -> ReadOnlyData.bit_is_set b i = Z.testbit (u8_to_Z b) i.
Proof.
  intros Hi. unfold ReadOnlyData.bit_is_set.
  rewrite u8_to_Z_to_u8, Z.shiftl_mul_pow2, Z.mul_1_l by lia.
  rewrite Z.mod_small
    by (split; [lia|]; change 256 with (2 ^ 8); apply Z.pow_lt_mono_r; lia).
  rewrite land_pow2 by lia.
  destruct (Z.testbit (u8_to_Z b) i); [|reflexivity].
  destruct (Z.eqb_spec (2 ^ i) 0) as [E|E]; [|reflexivity].
  pose proof (Z.pow_pos_nonneg 2 i). lia.
Qed.

Lemma count_bits_loop_spec (b : u8) :
  forall (fuel : nat) (i c : Z),
    0 <= i -> i + Z.of_nat fuel <= 8 ->
    ReadOnlyData.count_bits_loop b i fuel c =
      c + Z.of_nat (length (List.filter (Z.testbit (u8_to_Z b))
                              (seqZ i (Z.of_nat fuel)))).
Proof.
  induction fuel as [|fuel IH]; intros i c Hi Hle.
  - rewrite seqZ_nil by lia. cbn. lia.
  - cbn [ReadOnlyData.count_bits_loop].
    rewrite IH, bit_is_set_testbit by lia.
    rewrite (seqZ_cons i (Z.of_nat (S fuel))) by lia.
    replace (Z.pred (Z.of_nat (S fuel))) with (Z.of_nat fuel) by lia.
    replace (Z.succ i) with (i + 1) by lia.
    cbn [List.filter].
    destruct (Z.testbit (u8_to_Z b) i); cbn [length]; lia.
Qed.

Lemma flag_bits_loop_spec (b : u8) (i : Z) :
  forall (fuel : nat) (bit : Z) (out : list Z),
    0 <= bit -> bit + Z.of_nat fuel <= 8 ->
    ReadOnlyData.flag_bits_loop b i bit fuel out =
      (out ++ map (fun j => i * 8 + j)
                (List.filter (Z.testbit (u8_to_Z b))
                   (seqZ bit (Z.of_nat fuel))))%list.
Proof.
  induction fuel as [|fuel IH]; intros bit out Hb Hle.
  - rewrite seqZ_nil by lia. cbn. now rewrite app_nil_r.
  - cbn [ReadOnlyData.flag_bits_loop].
    rewrite IH, bit_is_set_testbit by lia.
    rewrite (seqZ_cons bit (Z.of_nat (S fuel))) by lia.
    replace (Z.pred (Z.of_nat (S fuel))) with (Z.of_nat fuel) by lia.
    replace (Z.succ bit) with (bit + 1) by lia.
    cbn [List.filter].
    destruct (Z.testbit (u8_to_Z b) bit); cbn [map]; [|reflexivity].
    now rewrite <- app_assoc.
Qed.

Lemma no_bits_of_zero (l : list Z) : List.filter (Z.testbit 0) l = [].
Proof.
  induction l as [|k l IH]; [reflexivity|]. cbn [List.filter].
  now rewrite Z.bits_0.
Qed.

(** The bits of byte [i] of a bit field, as bits of the field. *)
Lemma field_bits_of_byte (sb : SaveBuffer) (base i : Z) :
  0 <= i ->
  List.filter (field_bit sb base) (seqZ (i * 8) 8) =
    map (fun j => i * 8 + j)
      (List.filter (Z.testbit (u8_to_Z (at_ (bytes_ sb) (base + i))))
         (seqZ 0 8)).
Proof.
  intros Hi.
  replace (seqZ (i * 8) 8) with (Z.add (i * 8) <$> seqZ 0 8)
    by (rewrite fmap_add_seqZ; f_equal; lia).
  change (Z.add (i * 8) <$> seqZ 0 8)
    with (map (fun j => i * 8 + j) (seqZ 0 8)).
  rewrite filter_map_swap. f_equal.
  apply List.filter_ext_in. intros j Hj.
  apply list_elem_of_In, elem_of_seqZ in Hj. unfold field_bit.
  replace ((i * 8 + j) / 8) with i
    by (apply (Z.div_unique _ 8 i j); lia).
  replace ((i * 8 + j) mod 8) with j
    by (apply (Z.mod_unique _ 8 i j); lia).
  reflexivity.
Qed.

Lemma flags_loop_spec (sb : SaveBuffer) :
  0x2B33 <= Size sb ->
  forall (fuel : nat) (i totalSet : Z) (out : list Z),
    0 <= i -> i + Z.of_nat fuel <= 0x140 ->
    ReadOnlyData.flags_loop sb i fuel totalSet out =
      let found :=
        List.filter (field_bit sb ReadOnlyData.kEventFlagsOff)
          (seqZ (i * 8) (Z.of_nat fuel * 8)) in
      Ok (totalSet + Z.of_nat (length found), (out ++ found)%list).
Proof.
  intros Hsize. induction fuel as [|fuel IH]; intros i tot out Hi Hle.
  - cbv zeta. rewrite seqZ_nil by lia.
    cbn [ReadOnlyData.flags_loop List.filter length].
    rewrite app_nil_r. do 2 f_equal. lia.
  - cbn [ReadOnlyData.flags_loop]. unfold ReadOnlyData.kEventFlagsOff at 1.
    replace (size_add 10739 i) with (0x29F3 + i) by (size_t_simpl; lia).
    rewrite ReadU8_ok by (try apply small_is_size_t; lia). cbn [bind].
    rewrite IH by lia. cbv zeta.
    replace (Z.of_nat (S fuel) * 8) with (8 + Z.of_nat fuel * 8) by lia.
    rewrite seqZ_app, List.filter_app by lia.
    replace (i * 8 + 8) with ((i + 1) * 8) by lia.
    rewrite field_bits_of_byte by lia.
    unfold ReadOnlyData.kEventFlagsOff.
    set (b := at_ (bytes_ sb) (10739 + i)).
    set (rest := List.filter _ (seqZ ((i + 1) * 8) _)).
    unfold ReadOnlyData.CountBits.
    rewrite count_bits_loop_spec by lia.
    change (Z.of_nat 8) with 8.
    rewrite length_app, length_map.
    assert (Hout : (if negb (u8_to_Z b =? 0)
                    then ReadOnlyData.flag_bits_loop b i 0 8 out else out) =
                   (out ++ map (fun j => i * 8 + j)
                             (List.filter (Z.testbit (u8_to_Z b))
                                (seqZ 0 8)))%list).
    { destruct (Z.eqb_spec (u8_to_Z b) 0) as [E|E]; cbn [negb].
      - rewrite E, no_bits_of_zero. cbn [map]. now rewrite app_nil_r.
      - now rewrite flag_bits_loop_spec by lia. }
    rewrite Hout, <- app_assoc. do 2 f_equal. lia.
Qed.

Lemma GetEventFlagSummary_in_range (sb : SaveBuffer) :
  0x2B33 <= Size sb ->
  ReadOnlyData.GetEventFlagSummary sb =
    Ok (ReadOnlyData.mkFlagSummary 2560
          (Z.of_nat (length (set_flags sb))) (set_flags sb)).
Proof.
  intros Hsize. unfold ReadOnlyData.GetEventFlagSummary.
  pose proof (flags_loop_spec sb Hsize (Z.to_nat 320) 0 0 []
                ltac:(lia) ltac:(lia)) as Hloop.
  cbv zeta in Hloop.
  replace (Z.of_nat (Z.to_nat 320) * 8) with 2560 in Hloop by reflexivity.
  rewrite Z.mul_0_l, Z.add_0_l, app_nil_l in Hloop.
  unfold set_flags, ReadOnlyData.kEventFlagsLen.
  rewrite Hloop.
  unfold ReadOnlyData.kEventFlagsOff.
  rewrite RequireRange_ok by (try apply small_is_size_t; lia).
  reflexivity.
Qed.

(** X19. The event-flag summary.  On a buffer that holds the 320 bytes of
    the bit field at 0x29F3 the summary reports 2560 flags checked, lists
    in increasing order exactly the indices of the flags that are set
    (flag [k] being bit [k mod 8] of byte [k / 8] of the field), and its
    count of set flags is the length of that list; on a shorter buffer the
    call throws [std::out_of_range]. *)
Theorem event_flag_summary (sb : SaveBuffer) :
  is_size_t (Size sb) ->
  (0x2B33 <= Size sb ->
   ReadOnlyData.GetEventFlagSummary sb =
     Ok (ReadOnlyData.mkFlagSummary 2560
           (Z.of_nat (length (set_flags sb))) (set_flags sb))) /\
  (Size sb < 0x2B33 ->
   is_out_of_range (ReadOnlyData.GetEventFlagSummary sb)).
Proof.
  intros Hsz. split.
  - apply GetEventFlagSummary_in_range.
  - intros Hshort. unfold ReadOnlyData.GetEventFlagSummary.
    apply guarded_read_fails.
    unfold ReadOnlyData.kEventFlagsOff, ReadOnlyData.kEventFlagsLen.
    apply RequireRange_fails; try (apply small_is_size_t); lia.
Qed.

(** X19 at work: a blank save of the expected size, and a one-byte
    buffer. *)
Lemma event_flag_summary_witness :
  ReadOnlyData.GetEventFlagSummary blank_save =
    Ok (ReadOnlyData.mkFlagSummary 2560
          (Z.of_nat (length (set_flags blank_save))) (set_flags blank_save))
  /\ is_out_of_range (ReadOnlyData.GetEventFlagSummary (mkSaveBuffer [x00])).
Proof.
  split.
  - apply (event_flag_summary blank_save).
    + vm_compute. split; [discriminate | reflexivity].
    + vm_compute. discriminate.
  - apply (event_flag_summary (mkSaveBuffer [x00])).
    + vm_compute. split; [discriminate | reflexivity].
    + vm_compute. reflexivity.
Defined.

Lemma dex_loop_spec (ownedBytes seenBytes : Bytes) (includeNames : bool) :
  forall (fuel : nat) (dexNo : Z) (out : ReadOnlyData.PokedexSummary),
    1 <= dexNo ->
    let bit_of (bs : Bytes) (d : Z) :=
      Z.testbit (u8_to_Z (at_ bs ((d - 1) / 8))) ((d - 1) mod 8) in
    let owned := List.filter (bit_of ownedBytes)
                   (seqZ dexNo (Z.of_nat fuel)) in
    let seen := List.filter (bit_of seenBytes)
                  (seqZ dexNo (Z.of_nat fuel)) in
    let names (l : list Z) :=
      if includeNames then map ReadOnlyData.dex_name l else [] in
    ReadOnlyData.dex_loop ownedBytes seenBytes includeNames dexNo fuel out =
      ReadOnlyData.mkPokedexSummary
        (ReadOnlyData.ownedCount out + Z.of_nat (length owned))
        (ReadOnlyData.seenCount out + Z.of_nat (length seen))
        (ReadOnlyData.ownedDexNos out ++ owned)
        (ReadOnlyData.seenDexNos out ++ seen)
        (ReadOnlyData.ownedNames out ++ names owned)
        (ReadOnlyData.seenNames out ++ names seen).
Proof.
  cbv zeta.
  induction fuel as [|fuel IH]; intros dexNo out Hd.
  - rewrite seqZ_nil by lia. cbn [ReadOnlyData.dex_loop List.filter length map].
    destruct out, includeNames; cbn; rewrite ?app_nil_r, ?Z.add_0_r;
      reflexivity.
  - cbn [ReadOnlyData.dex_loop]. rewrite IH by lia.
    rewrite (seqZ_cons dexNo (Z.of_nat (S fuel))) by lia.
    replace (Z.pred (Z.of_nat (S fuel))) with (Z.of_nat fuel) by lia.
    replace (Z.succ dexNo) with (dexNo + 1) by lia.
    cbn [List.filter].
    rewrite Z.quot_div_nonneg, Z.rem_mod_nonneg by lia.
    assert (Hbit : 0 <= (dexNo - 1) mod 8 < 8)
      by (apply Z.mod_pos_bound; lia).
    rewrite !bit_is_set_testbit by assumption.
    destruct out as [oc sc od sd on sn].
    destruct (Z.testbit (u8_to_Z (at_ ownedBytes ((dexNo - 1) / 8))) _),
      (Z.testbit (u8_to_Z (at_ seenBytes ((dexNo - 1) / 8))) _),
      includeNames;
      cbn [ReadOnlyData.push_owned ReadOnlyData.push_seen
             ReadOnlyData.push_owned_name ReadOnlyData.push_seen_name
             ReadOnlyData.ownedCount ReadOnlyData.seenCount
             ReadOnlyData.ownedDexNos ReadOnlyData.seenDexNos
             ReadOnlyData.ownedNames ReadOnlyData.seenNames length map];
      rewrite <- ?app_assoc; cbn [app]; f_equal; lia.
Qed.

Lemma at_slice (bs : Bytes) (off len k : Z) :
  0 <= off -> 0 <= k < len ->
  at_ (take (Z.to_nat len) (drop (Z.to_nat off) bs)) k = at_ bs (off + k).
Proof.
  intros Hoff Hk. unfold at_.
  rewrite lookup_take_lt, lookup_drop by lia.
  replace (Z.to_nat off + Z.to_nat k)%nat with (Z.to_nat (off + k)) by lia.
  reflexivity.
Qed.

Lemma dex_numbers_of_slice (sb : SaveBuffer) (base : Z) :
  0 <= base ->
  List.filter
    (fun d =>
       Z.testbit
         (u8_to_Z (at_ (take (Z.to_nat 19) (drop (Z.to_nat base) (bytes_ sb)))
                     ((d - 1) / 8))) ((d - 1) mod 8))
    (seqZ 1 (Z.of_nat 151)) =
  dex_numbers sb base.
Proof.
  intros Hbase. unfold dex_numbers. change (Z.of_nat 151) with 151.
  apply List.filter_ext_in. intros d Hd.
  apply list_elem_of_In, elem_of_seqZ in Hd. unfold field_bit.
  rewrite at_slice; [reflexivity | assumption |].
  split; [apply Z.div_pos; lia|].
  apply Z.div_lt_upper_bound; lia.
Qed.

Lemma GetPokedexSummary_in_range (sb : SaveBuffer) (includeNames : bool) :
  0x25C9 <= Size sb ->
  let owned := dex_numbers sb Gen1Layout.PokedexOwnedOff in
  let seen := dex_numbers sb Gen1Layout.PokedexSeenOff in
  let names (l : list Z) :=
    if includeNames then map ReadOnlyData.dex_name l else [] in
  ReadOnlyData.GetPokedexSummary sb includeNames =
    Ok (ReadOnlyData.mkPokedexSummary
          (Z.of_nat (length owned)) (Z.of_nat (length seen))
          owned seen (names owned) (names seen)).
Proof.
  intros Hsize. cbv zeta. unfold ReadOnlyData.GetPokedexSummary,
    Gen1Layout.PokedexOwnedOff, Gen1Layout.PokedexSeenOff,
    Gen1Layout.PokedexBitsLen.
  rewrite !Slice_ok by (try apply small_is_size_t; lia).
  rewrite !RequireRange_ok by (try apply small_is_size_t; lia).
  cbn [bind].
  pose proof (dex_loop_spec
                (take (Z.to_nat 19) (drop (Z.to_nat 9635) (bytes_ sb)))
                (take (Z.to_nat 19) (drop (Z.to_nat 9654) (bytes_ sb)))
                includeNames 151 1
                (ReadOnlyData.mkPokedexSummary 0 0 [] [] [] [])
                ltac:(lia)) as Hloop.
  cbv beta zeta in Hloop.
  rewrite !dex_numbers_of_slice in Hloop by lia.
  cbn [ReadOnlyData.ownedCount ReadOnlyData.seenCount
         ReadOnlyData.ownedDexNos ReadOnlyData.seenDexNos
         ReadOnlyData.ownedNames ReadOnlyData.seenNames] in Hloop.
  rewrite !Z.add_0_l, !app_nil_l in Hloop.
  exact (f_equal Ok Hloop).
Qed.

(** X20. The Pokedex summary.  On a buffer that holds both 19-byte bit
    fields the summary lists, in increasing order, exactly the Pokedex
    numbers 1..151 whose bit (number minus one) is set in the owned field,
    and likewise for the seen field; the two counts are the lengths of the
    two lists; the name lists give the name of each listed number when
    names are asked for and are empty otherwise.  The 152nd bit of a field
    is never looked at.  On a buffer that ends before the seen field does
    the call throws [std::out_of_range]. *)
Theorem pokedex_summary (sb : SaveBuffer) (includeNames : bool) :
  is_size_t (Size sb) ->
  let owned := dex_numbers sb Gen1Layout.PokedexOwnedOff in
  let seen := dex_numbers sb Gen1Layout.PokedexSeenOff in
  let names (l : list Z) :=
    if includeNames then map ReadOnlyData.dex_name l else [] in
  (0x25C9 <= Size sb ->
   ReadOnlyData.GetPokedexSummary sb includeNames =
     Ok (ReadOnlyData.mkPokedexSummary
           (Z.of_nat (length owned)) (Z.of_nat (length seen))
           owned seen (names owned) (names seen))) /\
  (Size sb < 0x25C9 ->
   is_out_of_range (ReadOnlyData.GetPokedexSummary sb includeNames)).
Proof.
  intros Hsz. cbv zeta. split.
  - intros Hsize. now apply GetPokedexSummary_in_range.
  - intros Hshort. unfold ReadOnlyData.GetPokedexSummary,
      Gen1Layout.PokedexOwnedOff, Gen1Layout.PokedexSeenOff,
      Gen1Layout.PokedexBitsLen.
    destruct (RequireRange_cases sb 9635 19) as [-> | [w ->]];
      [|exists w; reflexivity].
    cbn [bind]. apply guarded_read_fails.
    apply RequireRange_fails; try (apply small_is_size_t); lia.
Qed.

(** X20 at work: a blank save of the expected size with names asked for,
    and a one-byte buffer. *)
Lemma pokedex_summary_witness :
  ReadOnlyData.GetPokedexSummary blank_save true =
    Ok (ReadOnlyData.mkPokedexSummary
          (Z.of_nat (length (dex_numbers blank_save 0x25A3)))
          (Z.of_nat (length (dex_numbers blank_save 0x25B6)))
          (dex_numbers blank_save 0x25A3) (dex_numbers blank_save 0x25B6)
          (map ReadOnlyData.dex_name (dex_numbers blank_save 0x25A3))
          (map ReadOnlyData.dex_name (dex_numbers blank_save 0x25B6)))
  /\ is_out_of_range
       (ReadOnlyData.GetPokedexSummary (mkSaveBuffer [x00]) false).
Proof.
  split.
  - apply (pokedex_summary blank_save true).
    + vm_compute. split; [discriminate | reflexivity].
    + vm_compute. discriminate.
  - apply (pokedex_summary (mkSaveBuffer [x00]) false).
    + vm_compute. split; [discriminate | reflexivity].
    + vm_compute. reflexivity.
Defined.

(** ** Reads depend on their bytes only *)

Lemma RequireRange_same_size (sb sb' : SaveBuffer) (off len : Z) :
  Size sb' = Size sb -> RequireRange sb' off len = RequireRange sb off len.
Proof. intros H. unfold RequireRange. now rewrite H. Qed.

Lemma lookup_agree (sb sb' : SaveBuffer) (i : Z) :
  Size sb' = Size sb -> 0 <= i ->
  at_ (bytes_ sb') i = at_ (bytes_ sb) i ->
  bytes_ sb' !! Z.to_nat i = bytes_ sb !! Z.to_nat i.
Proof.
  unfold Size, at_. intros Hsize Hi Hat.
  destruct (bytes_ sb' !! Z.to_nat i) as [b'|] eqn:E',
    (bytes_ sb !! Z.to_nat i) as [b|] eqn:E; try congruence.
  - apply lookup_lt_Some in E'. apply lookup_ge_None in E. lia.
  - apply lookup_lt_Some in E. apply lookup_ge_None in E'. lia.
Qed.

Lemma ReadU8_agree (sb sb' : SaveBuffer) (off : Z) :
  Size sb' = Size sb -> at_ (bytes_ sb') off = at_ (bytes_ sb) off ->
  ReadU8 sb' off = ReadU8 sb off.
Proof.
  intros Hsize Hat. unfold ReadU8.
  now rewrite (RequireRange_same_size sb sb') , Hat by assumption.
Qed.

Lemma Slice_agree (sb sb' : SaveBuffer) (off len : Z) :
  Size sb' = Size sb -> 0 <= off ->
  (forall i, off <= i < off + len ->
     at_ (bytes_ sb') i = at_ (bytes_ sb) i) ->
  Slice sb' off len = Slice sb off len.
Proof.
  intros Hsize Hoff Hat. unfold Slice.
  rewrite (RequireRange_same_size sb sb') by assumption.
  destruct (RequireRange sb off len); [|reflexivity]. cbn [bind]. f_equal.
  apply list_eq. intros k.
  destruct (decide (k < Z.to_nat len)%nat) as [Hk|Hk].
  - rewrite !lookup_take_lt, !lookup_drop by assumption.
    replace (Z.to_nat off + k)%nat with (Z.to_nat (off + Z.of_nat k)) by lia.
    apply lookup_agree; [assumption | lia |]. apply Hat. lia.
  - rewrite !lookup_take_ge by lia. reflexivity.
Qed.

Lemma DecodeName_agree (sb sb' : SaveBuffer) (off len : Z) :
  Size sb' = Size sb -> 0 <= off ->
  (forall i, off <= i < off + len ->
     at_ (bytes_ sb') i = at_ (bytes_ sb) i) ->
  Gen1TextCodec.DecodeName sb' off len = Gen1TextCodec.DecodeName sb off len.
Proof.
  intros Hsize Hoff Hat. unfold Gen1TextCodec.DecodeName.
  now rewrite (Slice_agree sb sb') by assumption.
Qed.

Lemma ReadBcd3_agree (sb sb' : SaveBuffer) (off : Z) :
  Size sb' = Size sb -> 0 <= off <= 0x10000 ->
  (forall i, off <= i < off + 3 ->
     at_ (bytes_ sb') i = at_ (bytes_ sb) i) ->
  BcdCodec.ReadBcd3 sb' off = BcdCodec.ReadBcd3 sb off.
Proof.
  intros Hsize Hoff Hat. unfold BcdCodec.ReadBcd3.
  replace (size_add off 1) with (off + 1) by (size_t_simpl; lia).
  replace (size_add off 2) with (off + 2) by (size_t_simpl; lia).
  rewrite (ReadU8_agree sb sb' off), (ReadU8_agree sb sb' (off + 1)),
    (ReadU8_agree sb sb' (off + 2)) by (assumption || (apply Hat; lia)).
  reflexivity.
Qed.

Lemma ReadBcd2_agree (sb sb' : SaveBuffer) (off : Z) :
  Size sb' = Size sb -> 0 <= off <= 0x10000 ->
  (forall i, off <= i < off + 2 ->
     at_ (bytes_ sb') i = at_ (bytes_ sb) i) ->
  BcdCodec.ReadBcd2 sb' off = BcdCodec.ReadBcd2 sb off.
Proof.
  intros Hsize Hoff Hat. unfold BcdCodec.ReadBcd2.
  replace (size_add off 1) with (off + 1) by (size_t_simpl; lia).
  rewrite (ReadU8_agree sb sb' off), (ReadU8_agree sb sb' (off + 1))
    by (assumption || (apply Hat; lia)).
  reflexivity.
Qed.

Lemma in_fields_intro (fields : list (Z * Z)) (off len i : Z) :
  In (off, len) fields -> off <= i < off + len ->
  in_fields fields i = true.
Proof.
  intros Hin Hi. unfold in_fields. apply existsb_exists.
  exists (off, len). split; [assumption|]. cbn [fst snd].
  apply andb_true_iff. split; [apply Z.leb_le | apply Z.ltb_lt]; lia.
Qed.

Lemma GetTrainerSummary_agree (sb sb' : SaveBuffer) :
  Size sb' = Size sb ->
  (forall i, in_fields trainer_fields i = true ->
     at_ (bytes_ sb') i = at_ (bytes_ sb) i) ->
  ReadOnlyData.GetTrainerSummary sb' = ReadOnlyData.GetTrainerSummary sb.
Proof.
  intros Hsize Hat.
  assert (Hf : forall off len i, In (off, len) trainer_fields ->
                 off <= i < off + len ->
                 at_ (bytes_ sb') i = at_ (bytes_ sb) i).
  { intros off len i Hin Hi. apply Hat.
    now apply (in_fields_intro _ off len). }
  unfold ReadOnlyData.GetTrainerSummary.
  rewrite (DecodeName_agree sb sb' Gen1Layout.TrainerNameOff)
    by first [assumption | cbv; discriminate
             | intros i Hi; apply (Hf _ _ i) in Hi;
               [assumption | cbn; tauto]].
  rewrite (DecodeName_agree sb sb' Gen1Layout.RivalNameOff)
    by first [assumption | cbv; discriminate
             | intros i Hi; apply (Hf _ _ i) in Hi;
               [assumption | cbn; tauto]].
  rewrite (ReadBcd3_agree sb sb' Gen1Layout.MoneyOff)
    by first [assumption | cbv; split; discriminate
             | intros i Hi; apply (Hf _ _ i) in Hi;
               [assumption | cbn; tauto]].
  rewrite (ReadBcd2_agree sb sb' Gen1Layout.CoinsOff)
    by first [assumption | cbv; split; discriminate
             | intros i Hi; apply (Hf _ _ i) in Hi;
               [assumption | cbn; tauto]].
  replace (size_add Gen1Layout.TrainerIdOff 1)
    with (Gen1Layout.TrainerIdOff + 1) by reflexivity.
  rewrite (ReadU8_agree sb sb' Gen1Layout.TrainerIdOff),
    (ReadU8_agree sb sb' (Gen1Layout.TrainerIdOff + 1))
    by first [assumption
             | apply (Hf Gen1Layout.TrainerIdOff 2);
               [cbn; tauto | unfold Gen1Layout.TrainerIdOff; lia]].
  rewrite (ReadU8_agree sb sb' Gen1Layout.BadgesOff),
    (ReadU8_agree sb sb' Gen1Layout.MapIdOff),
    (ReadU8_agree sb sb' Gen1Layout.XCoordOff),
    (ReadU8_agree sb sb' Gen1Layout.YCoordOff),
    (ReadU8_agree sb sb' Gen1Layout.PlayTimeHoursOff),
    (ReadU8_agree sb sb' Gen1Layout.PlayTimeMinutesOff),
    (ReadU8_agree sb sb' Gen1Layout.PlayTimeSecondsOff)
    by first [assumption
             | match goal with
               | |- at_ _ ?o = _ => apply (Hf o 1); [cbn; tauto | lia]
               end].
  reflexivity.
Qed.

Lemma bcd_read_values (sb : SaveBuffer) (off3 off2 : Z) :
  is_size_t (Size sb) -> 0 <= off3 -> off3 + 3 <= Size sb ->
  0 <= off2 -> off2 + 2 <= Size sb ->
  exists v3 v2,
    BcdCodec.ReadBcd3 sb off3 = Ok v3 /\ BcdCodec.ReadBcd2 sb off2 = Ok v2 /\
    0 <= v3 <= 999999 /\ 0 <= v2 <= 9999.
Proof.
  intros Hsz H3 H3' H2 H2'.
  rewrite ReadBcd3_in_range, ReadBcd2_in_range by assumption.
  eexists. eexists. split; [reflexivity|]. split; [reflexivity|].
  pose proof (bcdDigit_range (BcdCodec.hi_nibble (at_ (bytes_ sb) off3))).
  pose proof (bcdDigit_range (BcdCodec.lo_nibble (at_ (bytes_ sb) off3))).
  pose proof (bcdDigit_range
                (BcdCodec.hi_nibble (at_ (bytes_ sb) (off3 + 1)))).
  pose proof (bcdDigit_range
                (BcdCodec.lo_nibble (at_ (bytes_ sb) (off3 + 1)))).
  pose proof (bcdDigit_range
                (BcdCodec.hi_nibble (at_ (bytes_ sb) (off3 + 2)))).
  pose proof (bcdDigit_range
                (BcdCodec.lo_nibble (at_ (bytes_ sb) (off3 + 2)))).
  pose proof (bcdDigit_range (BcdCodec.hi_nibble (at_ (bytes_ sb) off2))).
  pose proof (bcdDigit_range (BcdCodec.lo_nibble (at_ (bytes_ sb) off2))).
  pose proof (bcdDigit_range
                (BcdCodec.hi_nibble (at_ (bytes_ sb) (off2 + 1)))).
  pose proof (bcdDigit_range
                (BcdCodec.lo_nibble (at_ (bytes_ sb) (off2 + 1)))).
  split; lia.
Qed.

(** ** The trainer summary *)

Lemma GetTrainerSummary_assemble (sb : SaveBuffer) :
  ReadOnlyData.GetTrainerSummary sb =
    assemble_trainer
      (Gen1TextCodec.DecodeName sb Gen1Layout.TrainerNameOff
         Gen1Layout.TrainerNameLen)
      (Gen1TextCodec.DecodeName sb Gen1Layout.RivalNameOff
         Gen1Layout.RivalNameLen)
      (ReadU8 sb Gen1Layout.TrainerIdOff)
      (ReadU8 sb (Gen1Layout.TrainerIdOff + 1))
      (BcdCodec.ReadBcd3 sb Gen1Layout.MoneyOff)
      (BcdCodec.ReadBcd2 sb Gen1Layout.CoinsOff)
      (ReadU8 sb Gen1Layout.BadgesOff) (ReadU8 sb Gen1Layout.MapIdOff)
      (ReadU8 sb Gen1Layout.XCoordOff) (ReadU8 sb Gen1Layout.YCoordOff)
      (ReadU8 sb Gen1Layout.PlayTimeHoursOff)
      (ReadU8 sb Gen1Layout.PlayTimeMinutesOff)
      (ReadU8 sb Gen1Layout.PlayTimeSecondsOff).
Proof. reflexivity. Qed.

Lemma Slice_cases (sb : SaveBuffer) (off len : Z) :
  (exists bs, Slice sb off len = Ok bs) \/ is_out_of_range (Slice sb off len).
Proof.
  unfold Slice.
  destruct (RequireRange_cases sb off len) as [-> | [w ->]];
    [left; eexists; reflexivity | right; exists w; reflexivity].
Qed.

Lemma DecodeName_cases (sb : SaveBuffer) (off len : Z) :
  (exists s, Gen1TextCodec.DecodeName sb off len = Ok s) \/
  is_out_of_range (Gen1TextCodec.DecodeName sb off len).
Proof.
  unfold Gen1TextCodec.DecodeName.
  destruct (Slice_cases sb off len) as [[bs ->] | [w ->]];
    [left; eexists; reflexivity | right; exists w; reflexivity].
Qed.

Lemma ReadU8_cases' (sb : SaveBuffer) (off : Z) :
  (exists b, ReadU8 sb off = Ok b) \/ is_out_of_range (ReadU8 sb off).
Proof. destruct (ReadU8_cases sb off) as [-> | H]; eauto. Qed.

Lemma ReadBcd3_cases (sb : SaveBuffer) (off : Z) :
  (exists v, BcdCodec.ReadBcd3 sb off = Ok v) \/
  is_out_of_range (BcdCodec.ReadBcd3 sb off).
Proof.
  unfold BcdCodec.ReadBcd3.
  destruct (ReadU8_cases sb off) as [-> | [w ->]];
    [cbn [bind] | right; exists w; reflexivity].
  destruct (ReadU8_cases sb (size_add off 1)) as [-> | [w ->]];
    [cbn [bind] | right; exists w; reflexivity].
  destruct (ReadU8_cases sb (size_add off 2)) as [-> | [w ->]];
    [cbn [bind] | right; exists w; reflexivity].
  left. eexists. reflexivity.
Qed.

Lemma ReadBcd2_cases (sb : SaveBuffer) (off : Z) :
  (exists v, BcdCodec.ReadBcd2 sb off = Ok v) \/
  is_out_of_range (BcdCodec.ReadBcd2 sb off).
Proof.
  unfold BcdCodec.ReadBcd2.
  destruct (ReadU8_cases sb off) as [-> | [w ->]];
    [cbn [bind] | right; exists w; reflexivity].
  destruct (ReadU8_cases sb (size_add off 1)) as [-> | [w ->]];
    [cbn [bind] | right; exists w; reflexivity].
  left. eexists. reflexivity.
Qed.

Lemma big_endian_16 (hi lo : u8) :
  to_u16 (Z.lor (Z.shiftl (u8_to_Z hi) 8) (u8_to_Z lo)) =
    256 * u8_to_Z hi + u8_to_Z lo.
Proof.
  pose proof (u8_to_Z_range hi). pose proof (u8_to_Z_range lo).
  rewrite Z.lor_comm, lor_low_high by (try lia; change (2 ^ 8) with 256; lia).
  rewrite Z.shiftl_mul_pow2 by lia. change (2 ^ 8) with 256.
  unfold to_u16. rewrite Z.mod_small; [lia|].
  change (2 ^ 16) with 65536. lia.
Qed.

Lemma decoded_length (sb : SaveBuffer) (off len : Z) (s : string) :
  0 <= len ->
  Gen1TextCodec.DecodeName sb off len = Ok s ->
  Z.of_nat (String.length s) <= len.
Proof.
  intros Hlen. unfold Gen1TextCodec.DecodeName, Slice.
  destruct (RequireRange sb off len); [|discriminate]. cbn [bind].
  intros [= <-].
  destruct (decode_loop_facts
              (take (Z.to_nat len) (drop (Z.to_nat off) (bytes_ sb))) "")
    as (Hl & _); [reflexivity|].
  cbn [String.length] in Hl. rewrite length_take in Hl. lia.
Qed.

(** X21. The trainer summary.  On a buffer that reaches past the
    play-time seconds byte the summary is returned: the trainer ID is the
    byte at 0x2605 times 256 plus the byte at 0x2606 (high byte first, unlike
    [ReadU16LE]), money is at most 999999 and coins at most 9999, each name
    has at most 11 characters, and the one-byte fields are the bytes at
    their offsets.  On a shorter buffer the call throws
    [std::out_of_range]. *)
Theorem trainer_summary_reads (sb : SaveBuffer) :
  is_size_t (Size sb) ->
  (0x2CF1 <= Size sb ->
   exists t,
     ReadOnlyData.GetTrainerSummary sb = Ok t /\
     ReadOnlyData.trainerId t =
       256 * u8_to_Z (at_ (bytes_ sb) 0x2605)
       + u8_to_Z (at_ (bytes_ sb) 0x2606) /\
     0 <= ReadOnlyData.money t <= 999999 /\
     0 <= ReadOnlyData.coins t <= 9999 /\
     (String.length (ReadOnlyData.trainerName t) <= 11)%nat /\
     (String.length (ReadOnlyData.rivalName t) <= 11)%nat /\
     ReadOnlyData.badges t = at_ (bytes_ sb) 0x2602 /\
     ReadOnlyData.mapId t = at_ (bytes_ sb) 0x260A /\
     ReadOnlyData.x t = at_ (bytes_ sb) 0x260E /\
     ReadOnlyData.y t = at_ (bytes_ sb) 0x260D /\
     ReadOnlyData.playHours t = at_ (bytes_ sb) 0x2CED /\
     ReadOnlyData.playMinutes t = at_ (bytes_ sb) 0x2CEF /\
     ReadOnlyData.playSeconds t = at_ (bytes_ sb) 0x2CF0) /\
  (Size sb < 0x2CF1 ->
   is_out_of_range (ReadOnlyData.GetTrainerSummary sb)).
Proof.
  intros Hsz. rewrite GetTrainerSummary_assemble.
  unfold Gen1Layout.TrainerNameOff, Gen1Layout.TrainerNameLen,
    Gen1Layout.RivalNameOff, Gen1Layout.RivalNameLen,
    Gen1Layout.TrainerIdOff, Gen1Layout.MoneyOff, Gen1Layout.CoinsOff,
    Gen1Layout.BadgesOff, Gen1Layout.MapIdOff, Gen1Layout.XCoordOff,
    Gen1Layout.YCoordOff, Gen1Layout.PlayTimeHoursOff,
    Gen1Layout.PlayTimeMinutesOff, Gen1Layout.PlayTimeSecondsOff.
  split.
  - intros Hsize.
    destruct (DecodeName_cases sb 9624 11) as [[n1 Hn1] | [w Hw]];
      [|rewrite DecodeName_ok in Hw
          by (try apply small_is_size_t; lia); discriminate Hw].
    destruct (DecodeName_cases sb 9718 11) as [[n2 Hn2] | [w Hw]];
      [|rewrite DecodeName_ok in Hw
          by (try apply small_is_size_t; lia); discriminate Hw].
    destruct (bcd_read_values sb 9715 10320)
      as (v3 & v2 & He3 & He2 & Hb3 & Hb2);
      [assumption | lia | lia | lia | lia |].
    rewrite Hn1, Hn2, He3, He2.
    rewrite !ReadU8_ok by (try apply small_is_size_t; lia).
    unfold assemble_trainer. cbn [bind]. eexists. split; [reflexivity|].
    cbn [ReadOnlyData.trainerId ReadOnlyData.money ReadOnlyData.coins
           ReadOnlyData.trainerName ReadOnlyData.rivalName
           ReadOnlyData.badges ReadOnlyData.mapId ReadOnlyData.x
           ReadOnlyData.y ReadOnlyData.playHours ReadOnlyData.playMinutes
           ReadOnlyData.playSeconds].
    split; [apply big_endian_16|]. split; [exact Hb3|]. split; [exact Hb2|].
    apply decoded_length in Hn1; [|lia]. apply decoded_length in Hn2; [|lia].
    repeat split; try reflexivity; lia.
  - intros Hshort. unfold assemble_trainer.
    destruct (DecodeName_cases sb 9624 11) as [[? ->] | [w ->]];
      cbn [bind]; [|exists w; reflexivity].
    destruct (DecodeName_cases sb 9718 11) as [[? ->] | [w ->]];
      cbn [bind]; [|exists w; reflexivity].
    destruct (ReadU8_cases' sb 9733) as [[? ->] | [w ->]];
      cbn [bind]; [|exists w; reflexivity].
    destruct (ReadU8_cases' sb (9733 + 1)) as [[? ->] | [w ->]];
      cbn [bind]; [|exists w; reflexivity].
    destruct (ReadBcd3_cases sb 9715) as [[? ->] | [w ->]];
      cbn [bind]; [|exists w; reflexivity].
    destruct (ReadBcd2_cases sb 10320) as [[? ->] | [w ->]];
      cbn [bind]; [|exists w; reflexivity].
    destruct (ReadU8_cases' sb 9730) as [[? ->] | [w ->]];
      cbn [bind]; [|exists w; reflexivity].
    destruct (ReadU8_cases' sb 9738) as [[? ->] | [w ->]];
      cbn [bind]; [|exists w; reflexivity].
    destruct (ReadU8_cases' sb 9742) as [[? ->] | [w ->]];
      cbn [bind]; [|exists w; reflexivity].
    destruct (ReadU8_cases' sb 9741) as [[? ->] | [w ->]];
      cbn [bind]; [|exists w; reflexivity].
    destruct (ReadU8_cases' sb 11501) as [[? ->] | [w ->]];
      cbn [bind]; [|exists w; reflexivity].
    destruct (ReadU8_cases' sb 11503) as [[? ->] | [w ->]];
      cbn [bind]; [|exists w; reflexivity].
    destruct (ReadU8_beyond sb 11504) as [w ->];
      [apply small_is_size_t; lia | lia |].
    exists w. reflexivity.
Qed.

(** X21 at work: a blank save of the expected size, and a one-byte
    buffer. *)
Lemma trainer_summary_reads_witness :
  (exists t,
     ReadOnlyData.GetTrainerSummary blank_save = Ok t /\
     ReadOnlyData.trainerId t =
       256 * u8_to_Z (at_ (bytes_ blank_save) 0x2605)
       + u8_to_Z (at_ (bytes_ blank_save) 0x2606) /\
     0 <= ReadOnlyData.money t <= 999999 /\
     0 <= ReadOnlyData.coins t <= 9999) /\
  is_out_of_range (ReadOnlyData.GetTrainerSummary (mkSaveBuffer [x00])).
Proof.
  split.
  - destruct (trainer_summary_reads blank_save) as [H _].
    { vm_compute. split; [discriminate | reflexivity]. }
    destruct H as (t & Ht & Hid & Hm & Hc & _).
    { vm_compute. discriminate. }
    exists t. auto.
  - apply (trainer_summary_reads (mkSaveBuffer [x00])).
    + vm_compute. split; [discriminate | reflexivity].
    + vm_compute. reflexivity.
Defined.

(** The reads of the summary that a write to [off, off + len) leaves
    alone: rewrites each of them into the read of the buffer before. *)
Ltac untouched_reads sb sb' Hsize Hout :=
  rewrite ?(DecodeName_agree sb sb' 9624 11), ?(DecodeName_agree sb sb' 9718 11),
    ?(ReadBcd3_agree sb sb' 9715), ?(ReadBcd2_agree sb sb' 10320),
    ?(ReadU8_agree sb sb' 9733), ?(ReadU8_agree sb sb' (9733 + 1)),
    ?(ReadU8_agree sb sb' 9730), ?(ReadU8_agree sb sb' 9738),
    ?(ReadU8_agree sb sb' 9742), ?(ReadU8_agree sb sb' 9741),
    ?(ReadU8_agree sb sb' 11501), ?(ReadU8_agree sb sb' 11503),
    ?(ReadU8_agree sb sb' 11504)
    by first [exact Hsize | lia | intros; apply Hout; lia | apply Hout; lia].

Ltac unfold_trainer_offsets :=
  unfold Gen1Layout.TrainerNameOff, Gen1Layout.TrainerNameLen,
    Gen1Layout.RivalNameOff, Gen1Layout.RivalNameLen,
    Gen1Layout.TrainerIdOff, Gen1Layout.MoneyOff, Gen1Layout.CoinsOff,
    Gen1Layout.BadgesOff, Gen1Layout.MapIdOff, Gen1Layout.XCoordOff,
    Gen1Layout.YCoordOff, Gen1Layout.PlayTimeHoursOff,
    Gen1Layout.PlayTimeMinutesOff, Gen1Layout.PlayTimeSecondsOff in *.

(** Peels the reads of a summary that was returned. *)
Ltac returned_reads H :=
  unfold assemble_trainer in *;
  repeat match type of H with
         | bind ?r _ = Ok _ =>
             let E := fresh "E" in
             destruct r eqn:E; cbn [bind] in H |- *; [|discriminate H]
         end.

Lemma summary_needs_size (sb : SaveBuffer) (t : ReadOnlyData.TrainerSummary) :
  is_size_t (Size sb) ->
  ReadOnlyData.GetTrainerSummary sb = Ok t -> 0x2CF1 <= Size sb.
Proof.
  intros Hsz Ht.
  destruct (Z_le_gt_dec 0x2CF1 (Size sb)) as [Hle|Hgt]; [exact Hle|].
  rewrite GetTrainerSummary_assemble in Ht. unfold_trainer_offsets.
  returned_reads Ht.
  destruct (ReadU8_beyond sb 11504) as [w Hw];
    [apply small_is_size_t; lia | lia |].
  congruence.
Qed.

(** X22. Writing a trainer field and reading the summary again.  On a
    buffer whose summary is [t]: after [WriteBcd3] of a value up to 999999
    at the money offset the summary is [t] with that money; after
    [WriteBcd2] of a value up to 9999 at the coins offset it is [t] with
    those coins; after [EncodeName] on the trainer-name field it is [t]
    with the name as the text codec stores it (first ten characters,
    letters in uppercase, other characters but digits and spaces turned
    into spaces); after [WriteU8] at the badges offset it is [t] with
    those badges.  Each of the writes succeeds. *)
Theorem trainer_summary_after_write (sb : SaveBuffer)
  (t : ReadOnlyData.TrainerSummary) :
  is_size_t (Size sb) ->
  ReadOnlyData.GetTrainerSummary sb = Ok t ->
  (forall v, 0 <= v <= 999999 ->
     exists sb',
       BcdCodec.WriteBcd3 Gen1Layout.MoneyOff v sb = (Ok tt, sb') /\
       ReadOnlyData.GetTrainerSummary sb' = Ok (with_money v t)) /\
  (forall v, 0 <= v <= 9999 ->
     exists sb',
       BcdCodec.WriteBcd2 Gen1Layout.CoinsOff v sb = (Ok tt, sb') /\
       ReadOnlyData.GetTrainerSummary sb' = Ok (with_coins v t)) /\
  (forall name,
     exists sb',
       Gen1TextCodec.EncodeName Gen1Layout.TrainerNameOff
         Gen1Layout.TrainerNameLen name sb = (Ok tt, sb') /\
       ReadOnlyData.GetTrainerSummary sb' =
         Ok (with_trainerName (normalised (substring 0 10 name)) t)) /\
  (forall b,
     exists sb',
       WriteU8 Gen1Layout.BadgesOff b sb = (Ok tt, sb') /\
       ReadOnlyData.GetTrainerSummary sb' = Ok (with_badges b t)).
Proof.
  intros Hsz Ht. pose proof (summary_needs_size sb t Hsz Ht) as Hsize.
  rewrite GetTrainerSummary_assemble in Ht.
  split; [|split; [|split]].
  - intros v Hv. unfold_trainer_offsets.
    set (sb' := store (9715 + 2)
                  (to_u8 (Z.lor (Z.shiftl ((v / 10) mod 10) 4) (v mod 10)))
                  (store (9715 + 1)
                     (to_u8 (Z.lor (Z.shiftl ((v / 1000) mod 10) 4)
                               ((v / 100) mod 10)))
                     (store 9715
                        (to_u8 (Z.lor (Z.shiftl ((v / 100000) mod 10) 4)
                                  ((v / 10000) mod 10))) sb))).
    exists sb'. split; [apply WriteBcd3_ok; assumption || lia|].
    assert (Hs : Size sb' = Size sb) by (unfold sb'; now rewrite !Size_store).
    assert (Hout : forall i, 0 <= i -> i < 9715 \/ 9715 + 3 <= i ->
                     at_ (bytes_ sb') i = at_ (bytes_ sb) i).
    { intros i Hi Ho. unfold sb'. rewrite !at_store_ne by lia. reflexivity. }
    assert (Hnew : BcdCodec.ReadBcd3 sb' 9715 = Ok v).
    { unfold sb'.
      rewrite ReadBcd3_in_range by store_bounds.
      rewrite at_store_eq by store_bounds.
      rewrite (at_store_ne _ (9715 + 2) (9715 + 1)) by lia.
      rewrite at_store_eq by store_bounds.
      rewrite (at_store_ne _ (9715 + 2) 9715) by lia.
      rewrite (at_store_ne _ (9715 + 1) 9715) by lia.
      rewrite at_store_eq by store_bounds.
      destruct (bcd_byte_digits ((v / 100000) mod 10) ((v / 10000) mod 10))
        as [-> ->]; try apply decimal_digit_range.
      destruct (bcd_byte_digits ((v / 1000) mod 10) ((v / 100) mod 10))
        as [-> ->]; try apply decimal_digit_range.
      destruct (bcd_byte_digits ((v / 10) mod 10) (v mod 10))
        as [-> ->]; try apply decimal_digit_range.
      { pose proof (Z.mod_pos_bound v 10). lia. }
      now rewrite six_digits by assumption. }
    rewrite GetTrainerSummary_assemble. unfold_trainer_offsets.
    untouched_reads sb sb' Hs Hout. rewrite Hnew.
    returned_reads Ht. injection Ht as <-. reflexivity.
  - intros v Hv. unfold_trainer_offsets.
    set (sb' := store (10320 + 1)
                  (to_u8 (Z.lor (Z.shiftl ((v / 10) mod 10) 4) (v mod 10)))
                  (store 10320
                     (to_u8 (Z.lor (Z.shiftl ((v / 1000) mod 10) 4)
                               ((v / 100) mod 10))) sb)).
    exists sb'. split; [apply WriteBcd2_ok; assumption || lia|].
    assert (Hs : Size sb' = Size sb) by (unfold sb'; now rewrite !Size_store).
    assert (Hout : forall i, 0 <= i -> i < 10320 \/ 10320 + 2 <= i ->
                     at_ (bytes_ sb') i = at_ (bytes_ sb) i).
    { intros i Hi Ho. unfold sb'. rewrite !at_store_ne by lia. reflexivity. }
    assert (Hnew : BcdCodec.ReadBcd2 sb' 10320 = Ok v).
    { unfold sb'.
      rewrite ReadBcd2_in_range by store_bounds.
      rewrite at_store_eq by store_bounds.
      rewrite (at_store_ne _ (10320 + 1) 10320) by lia.
      rewrite at_store_eq by store_bounds.
      destruct (bcd_byte_digits ((v / 1000) mod 10) ((v / 100) mod 10))
        as [-> ->]; try apply decimal_digit_range.
      destruct (bcd_byte_digits ((v / 10) mod 10) (v mod 10))
        as [-> ->]; try apply decimal_digit_range.
      { pose proof (Z.mod_pos_bound v 10). lia. }
      now rewrite four_digits by assumption. }
    rewrite GetTrainerSummary_assemble. unfold_trainer_offsets.
    untouched_reads sb sb' Hs Hout. rewrite Hnew.
    returned_reads Ht. injection Ht as <-. reflexivity.
  - intros name. unfold_trainer_offsets.
    pose proof (EncodeName_ok sb 9624 11 name Hsz ltac:(lia) ltac:(lia)
                  ltac:(lia)) as Henc.
    pose proof (DecodeName_encoded sb 9624 11 name Hsz ltac:(lia) ltac:(lia)
                  ltac:(lia)) as Hdec.
    set (sb' := mkSaveBuffer _) in Henc, Hdec.
    exists sb'. split; [exact Henc|].
    destruct (EncodeName_frame sb sb' 9624 11 name (Ok tt))
      as [Hs Hout]; [assumption | apply small_is_size_t; lia
                     | apply small_is_size_t; lia | exact Henc |].
    rewrite GetTrainerSummary_assemble. unfold_trainer_offsets.
    untouched_reads sb sb' Hs Hout. rewrite Hdec.
    returned_reads Ht. injection Ht as <-. reflexivity.
  - intros b. unfold_trainer_offsets.
    exists (store 9730 b sb).
    split; [apply WriteU8_ok; [lia | apply small_is_size_t; lia]|].
    assert (Hs : Size (store 9730 b sb) = Size sb) by apply Size_store.
    assert (Hout : forall i, 0 <= i -> i < 9730 \/ 9730 + 1 <= i ->
                     at_ (bytes_ (store 9730 b sb)) i = at_ (bytes_ sb) i).
    { intros i Hi Ho. rewrite at_store_ne by lia. reflexivity. }
    rewrite GetTrainerSummary_assemble. unfold_trainer_offsets.
    untouched_reads sb (store 9730 b sb) Hs Hout.
    rewrite ReadU8_store_eq by (try apply small_is_size_t; lia).
    returned_reads Ht. injection Ht as <-. reflexivity.
Qed.

(** X22 at work on a blank save: 3000 of money, then the name Red. *)
Lemma trainer_summary_after_write_witness :
  (exists sb',
     BcdCodec.WriteBcd3 Gen1Layout.MoneyOff 3000 blank_save = (Ok tt, sb') /\
     ReadOnlyData.GetTrainerSummary sb' = Ok (with_money 3000 blank_summary))
  /\
  (exists sb',
     Gen1TextCodec.EncodeName Gen1Layout.TrainerNameOff
       Gen1Layout.TrainerNameLen "Red" blank_save = (Ok tt, sb') /\
     ReadOnlyData.GetTrainerSummary sb' =
       Ok (with_trainerName "RED" blank_summary)).
Proof.
  assert (Hsz : is_size_t (Size blank_save))
    by (vm_compute; split; [discriminate | reflexivity]).
  assert (Ht : ReadOnlyData.GetTrainerSummary blank_save = Ok blank_summary)
    by (vm_compute; reflexivity).
  destruct (trainer_summary_after_write blank_save blank_summary Hsz Ht)
    as (Hmoney & _ & Hname & _).
  split.
  - apply Hmoney. lia.
  - apply (Hname "Red").
Defined.

(** ** The reports depend on their fields only *)

Lemma flags_loop_agree (sb sb' : SaveBuffer) :
  Size sb' = Size sb ->
  (forall i, 0x29F3 <= i < 0x29F3 + 0x140 ->
     at_ (bytes_ sb') i = at_ (bytes_ sb) i) ->
  forall (fuel : nat) (i totalSet : Z) (out : list Z),
    0 <= i -> i + Z.of_nat fuel <= 0x140 ->
    ReadOnlyData.flags_loop sb' i fuel totalSet out =
    ReadOnlyData.flags_loop sb i fuel totalSet out.
Proof.
  intros Hsize Hat. induction fuel as [|fuel IH]; intros i tot out Hi Hle.
  - reflexivity.
  - cbn [ReadOnlyData.flags_loop]. unfold ReadOnlyData.kEventFlagsOff.
    replace (size_add 10739 i) with (0x29F3 + i) by (size_t_simpl; lia).
    rewrite (ReadU8_agree sb sb') by (assumption || (apply Hat; lia)).
    destruct (ReadU8 sb (10739 + i)); [|reflexivity]. cbn [bind].
    apply IH; lia.
Qed.

Lemma GetEventFlagSummary_agree (sb sb' : SaveBuffer) :
  Size sb' = Size sb ->
  (forall i, 0x29F3 <= i < 0x29F3 + 0x140 ->
     at_ (bytes_ sb') i = at_ (bytes_ sb) i) ->
  ReadOnlyData.GetEventFlagSummary sb' = ReadOnlyData.GetEventFlagSummary sb.
Proof.
  intros Hsize Hat. unfold ReadOnlyData.GetEventFlagSummary.
  rewrite (RequireRange_same_size sb sb') by assumption.
  rewrite (flags_loop_agree sb sb' Hsize Hat)
    by (unfold ReadOnlyData.kEventFlagsLen; lia).
  reflexivity.
Qed.

Lemma GetPokedexSummary_agree (sb sb' : SaveBuffer) (includeNames : bool) :
  Size sb' = Size sb ->
  (forall i, 0x25A3 <= i < 0x25A3 + 0x13 ->
     at_ (bytes_ sb') i = at_ (bytes_ sb) i) ->
  (forall i, 0x25B6 <= i < 0x25B6 + 0x13 ->
     at_ (bytes_ sb') i = at_ (bytes_ sb) i) ->
  ReadOnlyData.GetPokedexSummary sb' includeNames =
  ReadOnlyData.GetPokedexSummary sb includeNames.
Proof.
  intros Hsize Ho Hs. unfold ReadOnlyData.GetPokedexSummary.
  rewrite !(RequireRange_same_size sb sb') by assumption.
  rewrite (Slice_agree sb sb' Gen1Layout.PokedexOwnedOff)
    by first [assumption | cbv; discriminate | exact Ho].
  rewrite (Slice_agree sb sb' Gen1Layout.PokedexSeenOff)
    by first [assumption | cbv; discriminate | exact Hs].
  reflexivity.
Qed.

Lemma view_slot_agree (sb sb' : SaveBuffer) (i j : Z) :
  Size sb' = Size sb ->
  (forall k, 0x598 <= k < 0x598 + 0x12C0 ->
     at_ (bytes_ sb') k = at_ (bytes_ sb) k) ->
  0 <= i < 50 -> 0 <= j < 6 ->
  view_slot sb' i j = view_slot sb i j.
Proof.
  intros Hsize Hat Hi Hj. pose proof (slot_off_range i j Hi Hj) as Hoff.
  unfold view_slot.
  rewrite (ReadU8_agree sb sb' (slot_off i j)),
    (ReadU8_agree sb sb' (slot_off i j + 1))
    by (assumption || (apply Hat; hof_bounds)).
  rewrite (DecodeName_agree sb sb' (slot_off i j + 2))
    by first [assumption | lia
             | intros k Hk; apply Hat;
               unfold slot_off, Gen1Layout.HallOfFameOff,
                 Gen1Layout.HallOfFameRecordSize,
                 Gen1Layout.HallOfFameMonEntrySize in *; lia].
  reflexivity.
Qed.

Lemma scan_from_agree (sb sb' : SaveBuffer) (i : Z) :
  Size sb' = Size sb ->
  (forall k, 0x598 <= k < 0x598 + 0x12C0 ->
     at_ (bytes_ sb') k = at_ (bytes_ sb) k) ->
  hof_in_range sb -> hof_in_range sb' -> 0 <= i < 50 ->
  forall (n : nat) (j : Z) (team : list HallOfFamePokemon),
    j = 6 - Z.of_nat n -> 0 <= j ->
    ReadOnlyData.scan_from sb' i j team = ReadOnlyData.scan_from sb i j team.
Proof.
  intros Hsize Hat Hin Hin' Hi. induction n as [|n IH]; intros j team Hj Hpos.
  - replace j with 6 by lia. reflexivity.
  - destruct (scan_step sb i j team Hin Hi ltac:(lia)) as (v & Hv & Hstep).
    destruct (scan_step sb' i j team Hin' Hi ltac:(lia))
      as (v' & Hv' & Hstep').
    rewrite (view_slot_agree sb sb') in Hv' by (assumption || lia).
    assert (v' = v) by congruence. subst v'.
    rewrite Hstep, Hstep'. destruct v as [| |mon].
    + reflexivity.
    + destruct (j =? 0); [reflexivity|]. apply IH; lia.
    + apply IH; lia.
Qed.

Lemma GetHallOfFame_agree (sb sb' : SaveBuffer) :
  Size sb' = Size sb ->
  (forall k, 0x598 <= k < 0x598 + 0x12C0 ->
     at_ (bytes_ sb') k = at_ (bytes_ sb) k) ->
  at_ (bytes_ sb') 0x284E = at_ (bytes_ sb) 0x284E ->
  ReadOnlyData.GetHallOfFame sb' = ReadOnlyData.GetHallOfFame sb.
Proof.
  intros Hsize Hat Hhint. unfold ReadOnlyData.GetHallOfFame.
  rewrite (ReadU8_agree sb sb' Gen1Layout.HallOfFameRecordCountOff)
    by assumption.
  destruct (ReadU8 sb Gen1Layout.HallOfFameRecordCountOff) as [raw|e];
    [|reflexivity].
  cbn [bind]. rewrite (RequireRange_same_size sb sb') by assumption.
  destruct (RequireRange sb Gen1Layout.HallOfFameOff Gen1Layout.HallOfFameLen)
    as [[]|e] eqn:Hin; [|reflexivity].
  cbn [bind].
  assert (Hin' : hof_in_range sb')
    by (unfold hof_in_range;
        now rewrite (RequireRange_same_size sb sb') by assumption).
  rewrite (scan_all_spec sb Hin), (scan_all_spec sb' Hin').
  assert (Hrec : forall i, 0 <= i < 50 ->
                   record_contribution sb' i = record_contribution sb i).
  { intros i Hi. unfold record_contribution.
    destruct (scan_record_total sb i Hin Hi) as (team & Hr & Hf).
    destruct (scan_record_total sb' i Hin' Hi) as (team' & Hr' & Hf').
    rewrite (scan_from_agree sb sb' i Hsize Hat Hin Hin' Hi 6 0 [])
      in Hf' by lia.
    assert (team' = team) by congruence. subst team'.
    now rewrite Hr, Hr'. }
  assert (Hall : record_contribution sb' <$> record_indices =
                 record_contribution sb <$> record_indices).
  { apply list_fmap_ext. intros k i Hk. apply Hrec.
    unfold record_indices in Hk. apply list_lookup_fmap_Some in Hk
      as (n & -> & Hn). apply lookup_seq in Hn as [-> Hlt].
    change (Z.to_nat Gen1Layout.HallOfFameMaxRecords) with 50%nat in Hlt.
    lia. }
  now rewrite Hall.
Qed.

Lemma report_fields_span (i : Z) :
  in_fields report_fields i = true -> 0x598 <= i < 0x2CF1.
Proof.
  unfold in_fields, report_fields, trainer_fields.
  cbn [app existsb fst snd]. unfold_trainer_offsets.
  unfold Gen1Layout.HallOfFameOff, Gen1Layout.HallOfFameLen,
    Gen1Layout.HallOfFameRecordCountOff, ReadOnlyData.kEventFlagsOff,
    ReadOnlyData.kEventFlagsLen, Gen1Layout.PokedexOwnedOff,
    Gen1Layout.PokedexSeenOff, Gen1Layout.PokedexBitsLen.
  rewrite !orb_true_iff, !andb_true_iff, !Z.leb_le, !Z.ltb_lt. lia.
Qed.

Lemma in_fields_app (f g : list (Z * Z)) (i : Z) :
  in_fields (f ++ g) i = in_fields f i || in_fields g i.
Proof. unfold in_fields. apply existsb_app. Qed.

Lemma report_fields_agree (sb sb' : SaveBuffer) :
  (forall i, in_fields report_fields i = true ->
     at_ (bytes_ sb') i = at_ (bytes_ sb) i) ->
  (forall i, in_fields trainer_fields i = true ->
     at_ (bytes_ sb') i = at_ (bytes_ sb) i) /\
  (forall k, 0x598 <= k < 0x598 + 0x12C0 ->
     at_ (bytes_ sb') k = at_ (bytes_ sb) k) /\
  at_ (bytes_ sb') 0x284E = at_ (bytes_ sb) 0x284E /\
  (forall k, 0x29F3 <= k < 0x29F3 + 0x140 ->
     at_ (bytes_ sb') k = at_ (bytes_ sb) k) /\
  (forall k, 0x25A3 <= k < 0x25A3 + 0x13 ->
     at_ (bytes_ sb') k = at_ (bytes_ sb) k) /\
  (forall k, 0x25B6 <= k < 0x25B6 + 0x13 ->
     at_ (bytes_ sb') k = at_ (bytes_ sb) k).
Proof.
  intros Hat.
  assert (Hf : forall off len i, In (off, len) report_fields ->
                 off <= i < off + len ->
                 at_ (bytes_ sb') i = at_ (bytes_ sb) i).
  { intros off len i Hin Hi. apply Hat.
    now apply (in_fields_intro _ off len). }
  split; [|split; [|split; [|split; [|split]]]].
  - intros i Hi. apply Hat. unfold report_fields.
    now rewrite in_fields_app, Hi.
  - intros k Hk.
    apply (Hf Gen1Layout.HallOfFameOff Gen1Layout.HallOfFameLen);
      [cbn; tauto | exact Hk].
  - apply (Hf Gen1Layout.HallOfFameRecordCountOff 1);
      [cbn; tauto | cbv; split; [discriminate | reflexivity]].
  - intros k Hk.
    apply (Hf ReadOnlyData.kEventFlagsOff ReadOnlyData.kEventFlagsLen);
      [cbn; tauto | exact Hk].
  - intros k Hk.
    apply (Hf Gen1Layout.PokedexOwnedOff Gen1Layout.PokedexBitsLen);
      [cbn; tauto | exact Hk].
  - intros k Hk.
    apply (Hf Gen1Layout.PokedexSeenOff Gen1Layout.PokedexBitsLen);
      [cbn; tauto | exact Hk].
Qed.

(** X23. The reports read their own fields only.  Two buffers of the same
    size that hold the same bytes in the trainer fields, in the Hall of
    Fame region and its count hint, in the event-flag field and in the two
    Pokedex fields give the same trainer summary, the same Hall of Fame,
    the same event-flag summary and the same Pokedex summary, failures
    included. *)
Theorem reports_depend_on_their_fields (sb sb' : SaveBuffer) :
  Size sb' = Size sb ->
  (forall i, in_fields report_fields i = true ->
     at_ (bytes_ sb') i = at_ (bytes_ sb) i) ->
  ReadOnlyData.GetTrainerSummary sb' = ReadOnlyData.GetTrainerSummary sb /\
  ReadOnlyData.GetHallOfFame sb' = ReadOnlyData.GetHallOfFame sb /\
  ReadOnlyData.GetEventFlagSummary sb' = ReadOnlyData.GetEventFlagSummary sb /\
  (forall includeNames,
     ReadOnlyData.GetPokedexSummary sb' includeNames =
     ReadOnlyData.GetPokedexSummary sb includeNames).
Proof.
  intros Hsize Hat.
  destruct (report_fields_agree sb sb' Hat)
    as (Htrainer & Hhall & Hhint & Hflags & Howned & Hseen).
  split; [|split; [|split]].
  - now apply GetTrainerSummary_agree.
  - now apply GetHallOfFame_agree.
  - now apply GetEventFlagSummary_agree.
  - intros includeNames. now apply GetPokedexSummary_agree.
Qed.

(** X23 at work: a blank save, and the same with its first byte (in the
    sprite buffer) set to FF. *)
Lemma reports_depend_on_their_fields_witness :
  ReadOnlyData.GetTrainerSummary (store 0 xff blank_save) =
    ReadOnlyData.GetTrainerSummary blank_save /\
  ReadOnlyData.GetHallOfFame (store 0 xff blank_save) =
    ReadOnlyData.GetHallOfFame blank_save.
Proof.
  destruct (reports_depend_on_their_fields blank_save (store 0 xff blank_save))
    as (Ht & Hh & _).
  - apply Size_store.
  - intros i Hi. apply report_fields_span in Hi.
    apply at_store_ne; lia.
  - split; assumption.
Defined.

Lemma scope_stored_min (sc : checksum_scope) :
  scope_valid sc -> 0x3523 <= scope_stored sc.
Proof.
  destruct sc as [|bank|box]; cbn [scope_valid scope_stored].
  - intros _. cbv. discriminate.
  - intros [-> | ->]; cbv; discriminate.
  - intros Hbox. destruct (box_checksum_off_value box Hbox) as [-> _].
    destruct (box <=? 6); lia.
Qed.

Lemma repair_keeps_reports (sc : checksum_scope) (sb sb' : SaveBuffer)
  (r : result unit) :
  scope_valid sc -> scope_repair sc sb = (r, sb') ->
  Size sb' = Size sb /\
  forall i, in_fields report_fields i = true ->
    at_ (bytes_ sb') i = at_ (bytes_ sb) i.
Proof.
  intros Hv Hrep. pose proof (scope_stored_min sc Hv) as Hmin.
  pose proof (scope_geometry sc Hv) as (_ & _ & Hmax).
  rewrite scope_repair_eq in Hrep by assumption.
  unfold bindM, reading in Hrep.
  destruct (scope_compute sc sb) as [c|e].
  - destruct (WriteU8_cases sb (scope_stored sc) c) as [[Hw _] | [e Hw]];
      [apply small_is_size_t; lia | |]; rewrite Hw in Hrep;
      injection Hrep as _ <-.
    + split; [apply Size_store|]. intros i Hi.
      apply report_fields_span in Hi. apply at_store_ne; lia.
    + split; reflexivity.
  - injection Hrep as _ <-. split; reflexivity.
Qed.

Lemma repair_each_keeps_reports (scs : list checksum_scope) :
  forall (sb sb' : SaveBuffer) (r : result unit),
    Forall scope_valid scs -> repair_each scs sb = (r, sb') ->
    Size sb' = Size sb /\
    forall i, in_fields report_fields i = true ->
      at_ (bytes_ sb') i = at_ (bytes_ sb) i.
Proof.
  induction scs as [|sc rest IH]; intros sb sb' r Hall Hrun.
  - injection Hrun as _ <-. split; reflexivity.
  - apply Forall_cons in Hall as [Hv Hrest].
    cbn [repair_each] in Hrun. unfold bindM in Hrun.
    destruct (scope_repair sc sb) as [r1 sb1] eqn:H1.
    destruct (repair_keeps_reports sc sb sb1 r1 Hv H1) as [Hs1 Ha1].
    destruct r1 as [[]|e].
    + destruct (IH sb1 sb' r Hrest Hrun) as [Hs2 Ha2].
      split; [congruence|]. intros i Hi. rewrite Ha2, Ha1 by assumption.
      reflexivity.
    + injection Hrun as _ <-. split; assumption.
Qed.

(** X24. Checksum repairs change no report.  Whatever checksums are
    repaired, in whatever order, and whether or not the repairs succeed,
    the buffer afterwards gives the same trainer summary, Hall of Fame,
    event-flag summary and Pokedex summary as the buffer before. *)
Theorem repairs_keep_reports (scs : list checksum_scope)
  (sb sb' : SaveBuffer) (r : result unit) :
  Forall scope_valid scs -> repair_each scs sb = (r, sb') ->
  ReadOnlyData.GetTrainerSummary sb' = ReadOnlyData.GetTrainerSummary sb /\
  ReadOnlyData.GetHallOfFame sb' = ReadOnlyData.GetHallOfFame sb /\
  ReadOnlyData.GetEventFlagSummary sb' = ReadOnlyData.GetEventFlagSummary sb /\
  (forall includeNames,
     ReadOnlyData.GetPokedexSummary sb' includeNames =
     ReadOnlyData.GetPokedexSummary sb includeNames).
Proof.
  intros Hall Hrun.
  destruct (repair_each_keeps_reports scs sb sb' r Hall Hrun) as [Hs Ha].
  destruct (report_fields_agree sb sb' Ha)
    as (Htrainer & Hhall & Hhint & Hflags & Howned & Hseen).
  split; [|split; [|split]].
  - now apply GetTrainerSummary_agree.
  - now apply GetHallOfFame_agree.
  - now apply GetEventFlagSummary_agree.
  - intros includeNames. now apply GetPokedexSummary_agree.
Qed.

(** X24 at work: the main checksum and the checksum of bank 2 of a blank
    save are repaired. *)
Lemma repairs_keep_reports_witness :
  exists sb',
    repair_each [MainScope; BankScope 2] blank_save = (Ok tt, sb') /\
    ReadOnlyData.GetTrainerSummary sb' =
      ReadOnlyData.GetTrainerSummary blank_save /\
    ReadOnlyData.GetHallOfFame sb' = ReadOnlyData.GetHallOfFame blank_save.
Proof.
  assert (Hv : Forall scope_valid [MainScope; BankScope 2]).
  { repeat constructor. }
  destruct (repair_each_spec [MainScope; BankScope 2] blank_save)
    as (sb' & Hrun & _).
  { repeat (apply Forall_cons; split;
            [split; [cbn [scope_valid]; try exact I; left; reflexivity
                    | vm_compute; reflexivity]|]).
    constructor. }
  exists sb'. split; [exact Hrun|].
  destruct (repairs_keep_reports _ _ _ _ Hv Hrun) as (Ht & Hh & _).
  split; assumption.
Defined.

(** ** The Hall of Fame: totality and well-formed entries *)

Lemma Ok_inj {A : Type} (a b : A) : Ok a = Ok b -> a = b.
Proof. now intros [= ->]. Qed.

Lemma hof_in_range_of_size (sb : SaveBuffer) :
  is_size_t (Size sb) -> 0x1858 <= Size sb -> hof_in_range sb.
Proof.
  intros Hsz Hsize. unfold hof_in_range, Gen1Layout.HallOfFameOff,
    Gen1Layout.HallOfFameLen.
  apply RequireRange_ok; try lia. apply small_is_size_t. lia.
Qed.

Lemma GetHallOfFame_in_range (sb : SaveBuffer) :
  hof_in_range sb ->
  forall raw, ReadU8 sb Gen1Layout.HallOfFameRecordCountOff = Ok raw ->
  let V := concat (record_contribution sb <$> record_indices) in
  let h := clamp (u8_to_Z raw) 0 Gen1Layout.HallOfFameMaxRecords in
  ReadOnlyData.GetHallOfFame sb =
    Ok (if h =? 0 then []
        else if Z.of_nat (length V) <=? h then renumbered V
        else renumbered (drop (length V - Z.to_nat h) V)).
Proof.
  intros Hin raw Hraw V h.
  unfold ReadOnlyData.GetHallOfFame. rewrite Hraw. cbn [bind].
  unfold hof_in_range in Hin. rewrite Hin. cbn [bind].
  rewrite (scan_all_spec sb Hin). cbn [bind]. fold V h.
  destruct (h =? 0); [reflexivity|].
  destruct (Z.leb_spec (Z.of_nat (length V)) h).
  - now rewrite renumber_loop_all.
  - now rewrite newest_loop_last by lia.
Qed.

(** X25. The Hall of Fame scan fails on size only.  On a buffer that
    holds the count-hint byte at 0x284E the scan returns a list, whatever
    the bytes are; on a shorter buffer it throws [std::out_of_range]. *)
Theorem hall_of_fame_total (sb : SaveBuffer) :
  is_size_t (Size sb) ->
  (0x284E < Size sb -> exists out, ReadOnlyData.GetHallOfFame sb = Ok out) /\
  (Size sb <= 0x284E -> is_out_of_range (ReadOnlyData.GetHallOfFame sb)).
Proof.
  intros Hsz. split.
  - intros Hsize.
    assert (Hin : hof_in_range sb)
      by (apply hof_in_range_of_size; [assumption | lia]).
    rewrite (GetHallOfFame_in_range sb Hin
               (at_ (bytes_ sb) Gen1Layout.HallOfFameRecordCountOff))
      by (apply ReadU8_ok;
          [unfold Gen1Layout.HallOfFameRecordCountOff; lia
          | apply small_is_size_t; cbv; split; discriminate]).
    eauto.
  - intros Hshort. unfold ReadOnlyData.GetHallOfFame.
    destruct (ReadU8_beyond sb Gen1Layout.HallOfFameRecordCountOff)
      as [w ->]; [apply small_is_size_t; cbv; split; discriminate
                 | assumption |].
    exists w. reflexivity.
Qed.

(** X25 at work: the shortest buffer that can be scanned, and the same
    without its last byte. *)
Lemma hall_of_fame_total_witness :
  (exists out, ReadOnlyData.GetHallOfFame short_save = Ok out) /\
  is_out_of_range
    (ReadOnlyData.GetHallOfFame
       (mkSaveBuffer (replicate (Z.to_nat 0x284E) x00))).
Proof.
  split.
  - apply (hall_of_fame_total short_save).
    + vm_compute. split; [discriminate | reflexivity].
    + vm_compute. reflexivity.
  - apply (hall_of_fame_total (mkSaveBuffer (replicate (Z.to_nat 0x284E) x00))).
    + vm_compute. split; [discriminate | reflexivity].
    + vm_compute. discriminate.
Defined.

Lemma view_slot_member (sb : SaveBuffer) (i j : Z) (m : HallOfFamePokemon) :
  view_slot sb i j = Ok (Member m) -> plausible_member m.
Proof.
  unfold view_slot.
  destruct (ReadU8 sb (slot_off i j)) as [species|]; [|discriminate].
  destruct (ReadU8 sb (slot_off i j + 1)) as [lvl|]; [|discriminate].
  destruct (Gen1TextCodec.DecodeName sb (slot_off i j + 2) 11) as [nm|];
    [|discriminate].
  cbn [bind].
  destruct ((u8_to_Z species =? 0) || (u8_to_Z species =? 255));
    [discriminate|].
  destruct (ReadOnlyData.IsLikelyValidGen1SpeciesId species) eqn:Hs;
    [|discriminate].
  destruct ((1 <=? u8_to_Z lvl) && (u8_to_Z lvl <=? 100)) eqn:Hl;
    [|discriminate].
  destruct (ReadOnlyData.NameLooksReasonable nm) eqn:Hn; [|discriminate].
  cbn [andb]. intros [= <-].
  unfold plausible_member. cbn [speciesId level name speciesName].
  unfold ReadOnlyData.IsLikelyValidGen1SpeciesId in Hs.
  apply andb_true_iff in Hs as [Hs1 Hs2]. apply andb_true_iff in Hl as [Hl1 Hl2].
  repeat split; try assumption; lia.
Qed.

Lemma scan_from_inv (sb : SaveBuffer) (i : Z) :
  hof_in_range sb -> 0 <= i < 50 ->
  forall (n : nat) (j : Z) (team t : list HallOfFamePokemon),
    j = 6 - Z.of_nat n -> 0 <= j ->
    Z.of_nat (length team) <= j -> Forall plausible_member team ->
    ReadOnlyData.scan_from sb i j team = Ok t ->
    (length t <= 6)%nat /\ Forall plausible_member t.
Proof.
  intros Hin Hi. induction n as [|n IH]; intros j team t Hj Hpos Hlen Hall.
  - replace j with 6 by lia. rewrite scan_from_end. intros [= <-].
    split; [lia | assumption].
  - destruct (scan_step sb i j team Hin Hi ltac:(lia)) as (v & Hv & Hstep).
    rewrite Hstep. destruct v as [| |mon].
    + intros [= <-]. split; [lia | assumption].
    + destruct (j =? 0).
      * intros [= <-]. split; [cbn; lia | constructor].
      * apply IH; try assumption; lia.
    + apply IH; try lia.
      * rewrite length_app. cbn [length]. lia.
      * apply Forall_app. split; [assumption|].
        constructor; [|constructor]. now apply (view_slot_member sb i j).
Qed.

Lemma record_contribution_inv (sb : SaveBuffer) (i : Z) :
  hof_in_range sb -> 0 <= i < 50 ->
  (length (record_contribution sb i) <= 1)%nat /\
  Forall well_formed_entry (record_contribution sb i).
Proof.
  intros Hin Hi. unfold record_contribution.
  destruct (scan_record_total sb i Hin Hi) as (team & Hrec & Hfrom).
  rewrite Hrec.
  destruct (scan_from_inv sb i Hin Hi 6 0 [] team) as [Hlen Hall];
    [lia | lia | cbn; lia | constructor | assumption |].
  destruct team as [|m ms]; [split; [cbn; lia | constructor]|].
  split; [cbn; lia|]. constructor; [|constructor].
  unfold well_formed_entry. cbn [team]. repeat split; try assumption.
  discriminate.
Qed.

Lemma valid_records_inv (sb : SaveBuffer) :
  hof_in_range sb ->
  (length (concat (record_contribution sb <$> record_indices)) <= 50)%nat /\
  Forall well_formed_entry
    (concat (record_contribution sb <$> record_indices)).
Proof.
  intros Hin.
  assert (Hgen : forall l : list Z,
             Forall (fun i => 0 <= i < 50) l ->
             (length (concat (record_contribution sb <$> l)) <= length l)%nat
             /\ Forall well_formed_entry
                  (concat (record_contribution sb <$> l))).
  { induction l as [|i l IH]; intros Hl.
    - split; [cbn; lia | constructor].
    - apply Forall_cons in Hl as [Hi Hl]. destruct (IH Hl) as [IH1 IH2].
      destruct (record_contribution_inv sb i Hin Hi) as [H1 H2].
      rewrite fmap_cons, concat_cons. split.
      + rewrite length_app. cbn [length]. lia.
      + apply Forall_app. split; assumption. }
  destruct (Hgen record_indices) as [H1 H2].
  { unfold record_indices. apply Forall_fmap, Forall_forall.
    intros n Hn. apply elem_of_seq in Hn.
    change (Z.to_nat Gen1Layout.HallOfFameMaxRecords) with 50%nat in Hn.
    cbn. lia. }
  split; [|assumption].
  replace 50%nat with (length record_indices); [assumption|].
  unfold record_indices. now rewrite length_fmap, length_seq.
Qed.

Lemma renumbered_inv (l : list HallOfFameEntry) :
  Forall well_formed_entry l ->
  forall (k : nat) (e : HallOfFameEntry),
    renumbered l !! k = Some e ->
    entryIndex e = Z.of_nat k + 1 /\ well_formed_entry e.
Proof.
  intros Hall k e. unfold renumbered. rewrite list_lookup_imap.
  destruct (l !! k) as [e0|] eqn:E; [|discriminate].
  cbn. intros [= <-]. split; [reflexivity|].
  rewrite Forall_forall in Hall. apply (Hall e0).
  now apply (list_elem_of_lookup_2 l k).
Qed.

(** X26. What the Hall of Fame scan can return.  Whenever the scan
    returns a list, the list has at most 50 entries, the entry at position
    [k] (from 0) carries the display index [k + 1], and every entry has
    between one and six members, each with an internal species id in
    1..151, a level in 1..100, a name that passes the plausibility check,
    and the species name of the lookup table. *)
Theorem hall_of_fame_entries_well_formed (sb : SaveBuffer)
  (out : list HallOfFameEntry) :
  ReadOnlyData.GetHallOfFame sb = Ok out ->
  (length out <= 50)%nat /\
  forall (k : nat) (e : HallOfFameEntry),
    out !! k = Some e ->
    entryIndex e = Z.of_nat k + 1 /\ well_formed_entry e.
Proof.
  intros Hout.
  assert (Hraw : exists raw,
             ReadU8 sb Gen1Layout.HallOfFameRecordCountOff = Ok raw /\
             hof_in_range sb).
  { unfold ReadOnlyData.GetHallOfFame in Hout.
    destruct (ReadU8 sb Gen1Layout.HallOfFameRecordCountOff) as [raw|];
      [|discriminate]. cbn [bind] in Hout. exists raw. split; [reflexivity|].
    unfold hof_in_range.
    destruct (RequireRange sb Gen1Layout.HallOfFameOff
                Gen1Layout.HallOfFameLen) as [[]|]; [reflexivity|discriminate]. }
  destruct Hraw as (raw & Hraw & Hin).
  pose proof (GetHallOfFame_in_range sb Hin raw Hraw) as Hres.
  cbv zeta in Hres.
  destruct (valid_records_inv sb Hin) as [Hlen Hall].
  remember (concat (record_contribution sb <$> record_indices)) as V eqn:HV.
  clear HV. rewrite Hres in Hout. apply Ok_inj in Hout. subst out.
  destruct (_ =? 0).
  { split; [cbn [length]; lia|]. intros k e Hk. discriminate Hk. }
  destruct (_ <=? _).
  - split; [now rewrite length_renumbered|]. now apply renumbered_inv.
  - split; [rewrite length_renumbered, length_drop; lia|].
    apply renumbered_inv. now apply Forall_drop.
Qed.

Lemma sample_hall_result_5 :
  ReadOnlyData.GetHallOfFame (sample_hall x05) =
    Ok [mkHallOfFameEntry 1 [pika; pika];
        mkHallOfFameEntry 2 [pika];
        mkHallOfFameEntry 3 [pika]].
Proof.
  unfold ReadOnlyData.GetHallOfFame.
  rewrite sample_hall_hint. cbn [bind].
  pose proof (sample_hall_in_range x05) as Hin. unfold hof_in_range in Hin.
  rewrite Hin. cbn [bind].
  rewrite sample_hall_scan_5. reflexivity.
Qed.

(** X26 at work on the sample Hall of Fame with a count hint of 5. *)
Lemma hall_of_fame_entries_well_formed_witness :
  ReadOnlyData.GetHallOfFame (sample_hall x05) =
    Ok [mkHallOfFameEntry 1 [pika; pika];
        mkHallOfFameEntry 2 [pika];
        mkHallOfFameEntry 3 [pika]] /\
  (3 <= 50)%nat /\
  well_formed_entry (mkHallOfFameEntry 1 [pika; pika]) /\
  well_formed_entry (mkHallOfFameEntry 3 [pika]).
Proof.
  destruct (hall_of_fame_entries_well_formed (sample_hall x05) _
              sample_hall_result_5) as [Hlen Hent].
  split; [exact sample_hall_result_5|]. split; [exact Hlen|]. split.
  - apply (Hent 0%nat _ eq_refl).
  - apply (Hent 2%nat _ eq_refl).
Defined.

(** ** The Pokedex table *)

Lemma dex_entries_ok : forallb dex_entry_ok (seqZ 1 151) = true.
Proof. vm_compute. reflexivity. Qed.

(** X27. The Pokedex table.  For every Pokedex number 1..151 the table
    gives an internal species id in 1..190 that no other number has; the
    name reported for the number is the entry of the species-name table at
    that id and is neither INVALID nor MISSINGNO; and the species check of
    the Hall of Fame scanner accepts the id except for the 27 numbers
    whose id is above 151 (1, 3..8, 19, 20, 30, 33, 43..45, 69..71, 73, 74,
    77, 78, 81, 118, 119, 121, 137 and 142). *)
Theorem pokedex_table (d : Z) :
  1 <= d <= 151 ->
  1 <= dex_species d <= 190 /\
  ReadOnlyData.dex_name d =
    nth (Z.to_nat (dex_species d)) Gen1SpeciesLookup.SpeciesName "" /\
  ReadOnlyData.dex_name d <> "INVALID" /\
  ReadOnlyData.dex_name d <> "MISSINGNO" /\
  (forall d', 1 <= d' <= 151 -> dex_species d' = dex_species d -> d' = d) /\
  ReadOnlyData.IsLikelyValidGen1SpeciesId (to_u8 (dex_species d)) =
    negb (existsb (Z.eqb d) hof_excluded_dex).
Proof.
  intros Hd. pose proof dex_entries_ok as Hall.
  rewrite forallb_forall in Hall.
  assert (Hok : dex_entry_ok d = true).
  { apply Hall, list_elem_of_In, elem_of_seqZ. lia. }
  clear Hall. unfold dex_entry_ok in Hok.
  repeat (apply andb_true_iff in Hok as [Hok ?]).
  repeat match goal with
         | H : negb _ = true |- _ => apply negb_true_iff in H
         end.
  split; [lia|]. split; [now apply String.eqb_eq|].
  split; [now apply String.eqb_neq|]. split; [now apply String.eqb_neq|].
  split; [|now apply Bool.eqb_prop].
  intros d' Hd' Heq.
  match goal with
  | H : forallb _ _ = true |- _ =>
      rewrite forallb_forall in H; specialize (H d')
  end.
  match goal with
  | H : In d' _ -> _ |- _ =>
      specialize (H ltac:(apply list_elem_of_In, elem_of_seqZ; lia));
      rewrite Heq, Z.eqb_refl in H; cbn [implb] in H
  end.
  lia.
Qed.

(** X27 at work: number 1, Bulbasaur, has the id 153, which the Hall of
    Fame scanner does not accept. *)
Lemma pokedex_table_witness :
  1 <= dex_species 1 <= 190 /\
  ReadOnlyData.dex_name 1 <> "INVALID" /\
  ReadOnlyData.IsLikelyValidGen1SpeciesId (to_u8 (dex_species 1)) =
    negb (existsb (Z.eqb 1) hof_excluded_dex).
Proof.
  destruct (pokedex_table 1 ltac:(lia)) as (H1 & _ & H3 & _ & _ & H6).
  split; [exact H1|]. split; [exact H3 | exact H6].
Defined.

(** ** Setting a flag and reading the summaries *)

Lemma same_quotient_and_rest (k k' : Z) :
  k' / 8 = k / 8 -> k' mod 8 = k mod 8 -> k' = k.
Proof.
  intros Hq Hr.
  rewrite (Z.div_mod k 8), (Z.div_mod k' 8) by lia. now rewrite Hq, Hr.
Qed.

Lemma field_bit_after_set (sb : SaveBuffer) (base k : Z) (value : bool) :
  0 <= base -> 0 <= k -> base + k / 8 < Size sb ->
  is_size_t (base + k / 8 + 1) ->
  exists sb',
    SetBit (base + k / 8) (to_u8 (k mod 8)) value sb = (Ok tt, sb') /\
    Size sb' = Size sb /\
    (forall i, 0 <= i -> i <> base + k / 8 ->
       at_ (bytes_ sb') i = at_ (bytes_ sb) i) /\
    (forall k', 0 <= k' ->
       field_bit sb' base k' =
         if k' =? k then value else field_bit sb base k').
Proof.
  intros Hbase Hk Hin Hsz.
  assert (Hq : 0 <= k / 8) by (apply Z.div_pos; lia).
  pose proof (Z.mod_pos_bound k 8 ltac:(lia)) as Hm.
  assert (Hbit : u8_to_Z (to_u8 (k mod 8)) = k mod 8)
    by (apply u8_of_small; lia).
  destruct (SetBit_value sb (base + k / 8) (to_u8 (k mod 8)) value)
    as (b & Hset & Hbits); [lia | assumption | lia |].
  exists (store (base + k / 8) b sb).
  split; [exact Hset|]. split; [apply Size_store|]. split.
  - intros i Hi Hne. apply at_store_ne; lia.
  - intros k' Hk'. unfold field_bit.
    assert (Hq' : 0 <= k' / 8) by (apply Z.div_pos; lia).
    pose proof (Z.mod_pos_bound k' 8 ltac:(lia)) as Hm'.
    destruct (Z.eq_dec (k' / 8) (k / 8)) as [Eq|Ne].
    + rewrite Eq, at_store_eq, Hbits, Hbit by lia.
      destruct (Z.eqb_spec (k' mod 8) (k mod 8)) as [Er|Nr].
      * rewrite (same_quotient_and_rest k k' Eq Er), Z.eqb_refl.
        reflexivity.
      * destruct (Z.eqb_spec k' k) as [->|_]; [contradiction|reflexivity].
    + rewrite at_store_ne by lia.
      destruct (Z.eqb_spec k' k) as [->|_]; [contradiction|reflexivity].
Qed.

(** X28. Setting one flag and reading the summary again.  On a buffer
    that holds the event flags and the Pokedex fields: after [SetBit] on
    bit [k mod 8] of byte [k / 8] of the event-flag field, the event-flag
    summary lists the flags that were set before, with flag [k] added or
    removed according to the value written, and the Pokedex summary is
    what it was; after [SetBit] on the bit of Pokedex number [d] in the
    owned field, the summary lists the owned numbers of before with [d]
    added or removed, the seen numbers are what they were, and the
    event-flag summary is what it was. *)
Theorem set_bit_then_summaries (sb : SaveBuffer) (value : bool) :
  is_size_t (Size sb) -> 0x2B33 <= Size sb ->
  (forall k, 0 <= k < 2560 ->
     exists sb',
       SetBit (ReadOnlyData.kEventFlagsOff + k / 8) (to_u8 (k mod 8)) value sb
         = (Ok tt, sb') /\
       (let flags :=
          List.filter
            (fun k' => if k' =? k then value
                       else field_bit sb ReadOnlyData.kEventFlagsOff k')
            (seqZ 0 2560) in
        ReadOnlyData.GetEventFlagSummary sb' =
          Ok (ReadOnlyData.mkFlagSummary 2560
                (Z.of_nat (length flags)) flags)) /\
       (forall includeNames,
          ReadOnlyData.GetPokedexSummary sb' includeNames =
          ReadOnlyData.GetPokedexSummary sb includeNames)) /\
  (forall d (includeNames : bool), 1 <= d <= 151 ->
     exists sb',
       SetBit (Gen1Layout.PokedexOwnedOff + (d - 1) / 8)
         (to_u8 ((d - 1) mod 8)) value sb = (Ok tt, sb') /\
       (let owned :=
          List.filter
            (fun d' => if d' =? d then value
                       else field_bit sb Gen1Layout.PokedexOwnedOff (d' - 1))
            (seqZ 1 151) in
        let seen := dex_numbers sb Gen1Layout.PokedexSeenOff in
        let names (l : list Z) :=
          if includeNames then map ReadOnlyData.dex_name l else [] in
        ReadOnlyData.GetPokedexSummary sb' includeNames =
          Ok (ReadOnlyData.mkPokedexSummary
                (Z.of_nat (length owned)) (Z.of_nat (length seen))
                owned seen (names owned) (names seen))) /\
       ReadOnlyData.GetEventFlagSummary sb' =
       ReadOnlyData.GetEventFlagSummary sb).
Proof.
  intros Hsz Hsize. split.
  - intros k Hk.
    assert (Hq : 0 <= k / 8 < 320)
      by (split; [apply Z.div_pos; lia
                 | apply Z.div_lt_upper_bound; lia]).
    destruct (field_bit_after_set sb ReadOnlyData.kEventFlagsOff k value)
      as (sb' & Hset & Hs & Hat & Hbits);
      try (unfold ReadOnlyData.kEventFlagsOff; lia);
      [apply small_is_size_t; unfold ReadOnlyData.kEventFlagsOff; lia|].
    exists sb'. split; [exact Hset|]. split.
    + cbv zeta. rewrite GetEventFlagSummary_in_range by lia.
      assert (Hflags : set_flags sb' =
                List.filter
                  (fun k' => if k' =? k then value
                             else field_bit sb ReadOnlyData.kEventFlagsOff k')
                  (seqZ 0 2560)).
      { unfold set_flags. apply List.filter_ext_in. intros k' Hk'.
        apply list_elem_of_In, elem_of_seqZ in Hk'. apply Hbits. lia. }
      now rewrite Hflags.
    + intros names. apply GetPokedexSummary_agree; [exact Hs | |];
        intros i Hi; apply Hat; unfold ReadOnlyData.kEventFlagsOff; lia.
  - intros d names Hd.
    assert (Hq : 0 <= (d - 1) / 8 < 19)
      by (split; [apply Z.div_pos; lia
                 | apply Z.div_lt_upper_bound; lia]).
    destruct (field_bit_after_set sb Gen1Layout.PokedexOwnedOff (d - 1)
                value)
      as (sb' & Hset & Hs & Hat & Hbits);
      try (unfold Gen1Layout.PokedexOwnedOff; lia);
      [apply small_is_size_t; unfold Gen1Layout.PokedexOwnedOff; lia|].
    exists sb'. split; [exact Hset|]. split.
    + pose proof (GetPokedexSummary_in_range sb' names ltac:(lia)) as Hsum.
      cbv zeta in Hsum |- *.
      assert (Howned : dex_numbers sb' Gen1Layout.PokedexOwnedOff =
                List.filter
                  (fun d' => if d' =? d then value
                             else field_bit sb Gen1Layout.PokedexOwnedOff
                                    (d' - 1))
                  (seqZ 1 151)).
      { unfold dex_numbers. apply List.filter_ext_in. intros d' Hd'.
        apply list_elem_of_In, elem_of_seqZ in Hd'.
        rewrite Hbits by lia.
        destruct (Z.eqb_spec (d' - 1) (d - 1)), (Z.eqb_spec d' d);
          try reflexivity; lia. }
      assert (Hseen : dex_numbers sb' Gen1Layout.PokedexSeenOff =
                      dex_numbers sb Gen1Layout.PokedexSeenOff).
      { unfold dex_numbers. apply List.filter_ext_in. intros d' Hd'.
        apply list_elem_of_In, elem_of_seqZ in Hd'. unfold field_bit.
        assert (0 <= (d' - 1) / 8) by (apply Z.div_pos; lia).
        rewrite Hat; [reflexivity | |];
          unfold Gen1Layout.PokedexSeenOff, Gen1Layout.PokedexOwnedOff; lia. }
      rewrite Howned, Hseen in Hsum. exact Hsum.
    + apply GetEventFlagSummary_agree; [exact Hs|].
      intros i Hi. apply Hat; unfold Gen1Layout.PokedexOwnedOff; lia.
Qed.

(** X28 at work on a blank save: event flag 10 is set, then Pokedex
    number 25 is marked as owned. *)
Lemma set_bit_then_summaries_witness :
  (exists sb',
     SetBit (ReadOnlyData.kEventFlagsOff + 10 / 8) (to_u8 (10 mod 8)) true
       blank_save = (Ok tt, sb') /\
     forall includeNames,
       ReadOnlyData.GetPokedexSummary sb' includeNames =
       ReadOnlyData.GetPokedexSummary blank_save includeNames) /\
  (exists sb',
     SetBit (Gen1Layout.PokedexOwnedOff + (25 - 1) / 8)
       (to_u8 ((25 - 1) mod 8)) true blank_save = (Ok tt, sb') /\
     ReadOnlyData.GetEventFlagSummary sb' =
     ReadOnlyData.GetEventFlagSummary blank_save).
Proof.
  assert (Hsz : is_size_t (Size blank_save))
    by (vm_compute; split; [discriminate | reflexivity]).
  assert (Hsize : 0x2B33 <= Size blank_save) by (vm_compute; discriminate).
  destruct (set_bit_then_summaries blank_save true Hsz Hsize)
    as [Hflag Hdex].
  split.
  - destruct (Hflag 10 ltac:(lia)) as (sb' & Hset & _ & Hkeep).
    exists sb'. split; assumption.
  - destruct (Hdex 25 false ltac:(lia)) as (sb' & Hset & _ & Hkeep).
    exists sb'. split; assumption.
Defined.

(** X29. The trainer ID is stored high byte first.  On a buffer whose
    trainer summary is [t], [WriteU16LE] of a 16-bit value [v] at the
    trainer-ID offset succeeds, and the summary read afterwards is [t] with
    the ID [256 * (v mod 256) + v / 256], the two bytes of [v] swapped: the
    little-endian writer does not fit this field. *)
Theorem trainer_id_byte_order (sb : SaveBuffer)
  (t : ReadOnlyData.TrainerSummary) (v : Z) :
  is_size_t (Size sb) ->
  ReadOnlyData.GetTrainerSummary sb = Ok t ->
  0 <= v < 65536 ->
  exists sb',
    WriteU16LE Gen1Layout.TrainerIdOff v sb = (Ok tt, sb') /\
    ReadOnlyData.GetTrainerSummary sb' =
      Ok (with_trainerId (256 * (v mod 256) + v / 256) t).
Proof.
  intros Hsz Ht Hv. pose proof (summary_needs_size sb t Hsz Ht) as Hsize.
  rewrite GetTrainerSummary_assemble in Ht. unfold_trainer_offsets.
  set (sb' := store (9733 + 1) (to_u8 (v / 256)) (store 9733 (to_u8 v) sb)).
  exists sb'.
  split; [apply WriteU16LE_ok; [lia | lia | apply small_is_size_t; lia]|].
  assert (Hs : Size sb' = Size sb) by (unfold sb'; now rewrite !Size_store).
  assert (Hout : forall i, 0 <= i -> i < 9733 \/ 9733 + 2 <= i ->
                   at_ (bytes_ sb') i = at_ (bytes_ sb) i).
  { intros i Hi Ho. unfold sb'. rewrite !at_store_ne by lia. reflexivity. }
  assert (Hhi : ReadU8 sb' 9733 = Ok (to_u8 v)).
  { unfold sb'. rewrite ReadU8_store_ne by lia.
    apply ReadU8_store_eq; [lia | apply small_is_size_t; lia]. }
  assert (Hlo : ReadU8 sb' (9733 + 1) = Ok (to_u8 (v / 256))).
  { unfold sb'. apply ReadU8_store_eq;
      [rewrite Size_store; lia | apply small_is_size_t; lia]. }
  rewrite GetTrainerSummary_assemble. unfold_trainer_offsets.
  untouched_reads sb sb' Hs Hout. rewrite Hhi, Hlo.
  returned_reads Ht. injection Ht as <-.
  unfold with_trainerId.
  cbn [ReadOnlyData.trainerName ReadOnlyData.rivalName ReadOnlyData.money
         ReadOnlyData.coins ReadOnlyData.badges ReadOnlyData.mapId
         ReadOnlyData.x ReadOnlyData.y ReadOnlyData.playHours
         ReadOnlyData.playMinutes ReadOnlyData.playSeconds].
  rewrite big_endian_16, !u8_to_Z_to_u8.
  assert (Hq : 0 <= v / 256 < 256)
    by (split; [apply Z.div_pos; lia | apply Z.div_lt_upper_bound; lia]).
  rewrite (Z.mod_small (v / 256) 256) by lia. reflexivity.
Qed.

(** X29 at work on a blank save: the ID 0x1234 comes back as 0x3412. *)
Lemma trainer_id_byte_order_witness :
  exists sb',
    WriteU16LE Gen1Layout.TrainerIdOff 0x1234 blank_save = (Ok tt, sb') /\
    ReadOnlyData.GetTrainerSummary sb' =
      Ok (with_trainerId 0x3412 blank_summary).
Proof.
  assert (Hsz : is_size_t (Size blank_save))
    by (vm_compute; split; [discriminate | reflexivity]).
  assert (Ht : ReadOnlyData.GetTrainerSummary blank_save = Ok blank_summary)
    by (vm_compute; reflexivity).
  apply (trainer_id_byte_order blank_save blank_summary 0x1234 Hsz Ht).
  lia.
Defined.
